(** * Highland.js 0.0.1: the curry engine, [eqv], the ordering predicates
      and the arithmetic wrappers

    A shallow embedding of [build/all/js/highland.js].  JavaScript values are
    modelled as the language has them: primitives by value, objects by
    reference into a store; Numbers are IEEE 754 binary64 values (the
    executable specification [SpecFloat] of the Standard Library, with
    precision 53 and maximal exponent 1024); Strings are sequences of code
    units (here: [string], code units below 256).  A function that can throw
    returns a [completion]; a function that recurses through the store takes
    fuel, the depth of the JavaScript call stack it may use.

    The objects are records, arrays, argument lists, dates, regular
    expressions, buffers and functions, each on the prototype chain of its
    constructor and with data properties only; arrays have no holes and no
    other property than their elements.  The built-in functions follow
    ECMAScript 5 in strict mode, the edition the file is written for. *)

From Stdlib Require Import List Arith Lia Bool ZArith String Ascii.
From Stdlib Require Import Floats.SpecFloat DecimalString.
Import ListNotations.

Set Implicit Arguments.

(** ** The JavaScript fragment the library runs on *)

Module JS.

Local Open Scope string_scope.

(** *** Number: binary64 *)

Definition prec : Z := 53.
Definition emax : Z := 1024.

Definition number := spec_float.

Definition NaN : number := S754_nan.
Definition Infinity : number := S754_infinity false.

(** The Number nearest to an integer (exact up to 2^53), and to an integer
    times a power of two. *)
Definition num_of_Z (z : Z) : number := binary_normalize prec emax z 0 false.

(** [x + y] on Numbers. *)
Definition num_add (x y : number) : number := SFadd prec emax x y.

(** [x === y] on Numbers: false on NaN, true on zeros of either sign. *)
Definition num_eqb (x y : number) : bool := SFeqb x y.

(** [x < y] and [x > y] on Numbers: false as soon as one is NaN. *)
Definition num_ltb (x y : number) : bool := SFltb x y.
Definition num_gtb (x y : number) : bool := SFltb y x.

(** [x % y] (ES5 11.5.3): the remainder of the truncating division, computed
    without rounding; it takes the sign of the dividend, also when it is a
    zero.  Both mantissas are aligned on the smaller exponent, as [SFadd]
    aligns them. *)
Definition num_rem (x y : number) : number :=
  match x, y with
  | S754_nan, _ | _, S754_nan => S754_nan
  | S754_infinity _, _ => S754_nan
  | _, S754_zero _ => S754_nan
  | _, S754_infinity _ => x
  | S754_zero _, _ => x
  | S754_finite sx mx ex, S754_finite _ my ey =>
      let ez := Z.min ex ey in
      let r := Z.modulo (Zpos (fst (shl_align mx ex ez)))
                        (Zpos (fst (shl_align my ey ez))) in
      binary_normalize prec emax (cond_Zopp sx r) ez sx
  end.

(** *** String to Number (ES5 9.3.1) *)

Definition is_white_space (c : ascii) : bool :=
  let n := nat_of_ascii c in
  (((9 <=? n) && (n <=? 13)) || (n =? 32) || (n =? 160))%nat.

Fixpoint drop_white_space (s : list ascii) : list ascii :=
  match s with
  | c :: s' => if is_white_space c then drop_white_space s' else s
  | [] => []
  end.

Definition trim (s : list ascii) : list ascii :=
  rev (drop_white_space (rev (drop_white_space s))).

Definition digit_value (c : ascii) : option Z :=
  let n := nat_of_ascii c in
  if ((48 <=? n) && (n <=? 57))%nat then Some (Z.of_nat (n - 48)) else None.

Definition hex_digit_value (c : ascii) : option Z :=
  let n := nat_of_ascii c in
  if ((48 <=? n) && (n <=? 57))%nat then Some (Z.of_nat (n - 48))
  else if ((65 <=? n) && (n <=? 70))%nat then Some (Z.of_nat (n - 55))
  else if ((97 <=? n) && (n <=? 102))%nat then Some (Z.of_nat (n - 87))
  else None.

(** The longest prefix of digits in the given base: its value, how many
    digits it has, and what follows it. *)
Fixpoint read_digits (val : ascii -> option Z) (base : Z) (acc : Z) (count : nat)
         (s : list ascii) : Z * nat * list ascii :=
  match s with
  | c :: s' =>
      match val c with
      | Some d => read_digits val base (base * acc + d)%Z (S count) s'
      | None => (acc, count, s)
      end
  | [] => (acc, count, [])
  end.

Definition read_sign (s : list ascii) : bool * list ascii :=
  match s with
  | "-"%char :: s' => (true, s')
  | "+"%char :: s' => (false, s')
  | _ => (false, s)
  end.

(** [m * 10^e], correctly rounded. *)
Definition num_of_decimal (neg : bool) (m e : Z) : number :=
  match m with
  | Zpos p =>
      match e with
      | Zneg q => SFdiv prec emax (S754_finite neg p 0)
                        (S754_finite false (Pos.pow 10 q) 0)
      | _ => binary_normalize prec emax (cond_Zopp neg (m * 10 ^ e)) 0 neg
      end
  | _ => S754_zero neg
  end.

(** The optional ExponentPart, which has to end the literal. *)
Definition read_exponent (s : list ascii) : option Z :=
  match s with
  | [] => Some 0%Z
  | c :: s' =>
      if (c =? "e")%char || (c =? "E")%char then
        let '(neg, s'') := read_sign s' in
        match read_digits digit_value 10 0 0 s'' with
        | (_, O, _) => None
        | (e, _, []) => Some (cond_Zopp neg e)
        | _ => None
        end
      else None
  end.

(** StrUnsignedDecimalLiteral. *)
Definition read_unsigned_decimal (neg : bool) (s : list ascii) : number :=
  if list_eq_dec ascii_dec s (list_ascii_of_string "Infinity")
  then S754_infinity neg
  else
    let '(int, ni, s1) := read_digits digit_value 10 0 0 s in
    let '(m, nf, s2) :=
      match s1 with
      | "."%char :: s1' =>
          let '(m, n, s2) := read_digits digit_value 10 int ni s1' in
          (m, n - ni, s2)
      | _ => (int, 0, s1)
      end in
    match ni + nf with
    | O => S754_nan
    | _ =>
        match read_exponent s2 with
        | Some e => num_of_decimal neg m (e - Z.of_nat nf)
        | None => S754_nan
        end
    end.

Definition StringToNumber (str : string) : number :=
  match trim (list_ascii_of_string str) with
  | [] => S754_zero false
  | "0"%char :: x :: s =>
      if (x =? "x")%char || (x =? "X")%char then
        match read_digits hex_digit_value 16 0 0 s with
        | (_, O, _) => S754_nan
        | (v, _, []) => binary_normalize prec emax v 0 false
        | _ => S754_nan
        end
      else read_unsigned_decimal false ("0"%char :: x :: s)
  | s => let '(neg, s') := read_sign s in read_unsigned_decimal neg s'
  end.

(** *** Values and the store *)

Definition loc := nat.

Inductive value :=
| VUndefined
| VNull
| VBool (b : bool)
| VNumber (n : number)
| VString (s : string)
| VObject (l : loc).

(** An object, by what its class keeps: the own enumerable properties of an
    [Object] in creation order, the elements of an [Array] or of an
    [arguments] list, the time value of a [Date], the five properties of a
    [RegExp] that [eqv] reads, the octets of a [Buffer], the source text and
    the [prototype] property of a [Function].  The objects that
    [new Number], [new Boolean] and [new String] make are not among them:
    no object of the store has one of these three classes, and what is
    proved of a function of the library is proved of the other values. *)
Inductive object :=
| OPlain (props : list (string * value))
| OArray (elems : list value)
| OArguments (elems : list value)
| ODate (time : number)
| ORegExp (source : string) (global multiline ignoreCase : bool) (lastIndex : value)
| OBuffer (octets : list N)
| OFunction (source : string) (prototype : value).

Definition heap := loc -> object.

Inductive error :=
| TypeError (message : string)
| ReferenceError (message : string).

Inductive completion (A : Type) :=
| Return (v : A)
| Throw (e : error).
Arguments Return {A} v.
Arguments Throw {A} e.

(** *** Operators *)

Definition typeof (h : heap) (v : value) : string :=
  match v with
  | VUndefined => "undefined"
  | VNull => "object"
  | VBool _ => "boolean"
  | VNumber _ => "number"
  | VString _ => "string"
  | VObject l => match h l with OFunction _ _ => "function" | _ => "object" end
  end.

(** [a === b] (ES5 11.9.6). *)
Definition strict_eq (a b : value) : bool :=
  match a, b with
  | VUndefined, VUndefined => true
  | VNull, VNull => true
  | VBool x, VBool y => Bool.eqb x y
  | VNumber x, VNumber y => num_eqb x y
  | VString x, VString y => String.eqb x y
  | VObject x, VObject y => Nat.eqb x y
  | _, _ => false
  end.

Definition bool_to_number (b : bool) : number :=
  if b then num_of_Z 1 else num_of_Z 0.

(** ToPrimitive of an object whose [typeof] is not ["object"], that is of a
    function: [Function.prototype.toString] gives its source text.  The
    other classes never reach [==] in this library. *)
Definition ToPrimitive (h : heap) (l : loc) : option value :=
  match h l with
  | OFunction src _ => Some (VString src)
  | _ => None
  end.

(** [x == y] where [y] is already a primitive: steps 1 to 7 of ES5 11.9.3. *)
Definition loose_eq_prim (x y : value) : bool :=
  match x, y with
  | (VUndefined | VNull), (VUndefined | VNull) => true
  | VNumber m, VNumber n => num_eqb m n
  | VString s, VString t => String.eqb s t
  | VBool b, VBool c => Bool.eqb b c
  | VNumber m, VString t => num_eqb m (StringToNumber t)
  | VString s, VNumber n => num_eqb (StringToNumber s) n
  | VBool b, VNumber n => num_eqb (bool_to_number b) n
  | VBool b, VString t => num_eqb (bool_to_number b) (StringToNumber t)
  | VNumber m, VBool c => num_eqb m (bool_to_number c)
  | VString s, VBool c => num_eqb (StringToNumber s) (bool_to_number c)
  | _, _ => false
  end.

(** [a == b] (ES5 11.9.3), steps 8 and 9 included: an object met by a
    String, a Number or (after step 6 or 7) a Boolean is compared through
    its primitive value. *)
Definition loose_eq (h : heap) (a b : value) : bool :=
  match a, b with
  | VObject x, VObject y => Nat.eqb x y
  | VObject x, (VBool _ | VNumber _ | VString _) =>
      match ToPrimitive h x with Some p => loose_eq_prim p b | None => false end
  | (VBool _ | VNumber _ | VString _), VObject y =>
      match ToPrimitive h y with Some p => loose_eq_prim a p | None => false end
  | VObject _, _ | _, VObject _ => false
  | _, _ => loose_eq_prim a b
  end.

(** [a < b] and [a > b] where both are Numbers or both are Strings (the only
    operands [lt] and [gt] give them); Strings compare by code units. *)
Definition less_than (a b : value) : bool :=
  match a, b with
  | VNumber x, VNumber y => num_ltb x y
  | VString s, VString t => String.ltb s t
  | _, _ => false
  end.

Definition greater_than (a b : value) : bool := less_than b a.

(** *** Properties *)

Definition index_key (i : nat) : string := NilZero.string_of_uint (Nat.to_uint i).

Definition indexed (vs : list value) : list (string * value) :=
  combine (map index_key (seq 0 (List.length vs))) vs.

(** The own enumerable properties, in the order [Object.keys] lists them. *)
Definition own_props (o : object) : list (string * value) :=
  match o with
  | OPlain props => props
  | OArray elems | OArguments elems => indexed elems
  | OBuffer octets => indexed (map (fun b => VNumber (num_of_Z (Z.of_N b))) octets)
  | ODate _ | ORegExp _ _ _ _ _ | OFunction _ _ => []
  end.

Fixpoint assoc (key : string) (props : list (string * value)) : option value :=
  match props with
  | (k, v) :: props' => if String.eqb k key then Some v else assoc key props'
  | [] => None
  end.

(** [a[key]] and [a.key], for the keys [eqv] reads: an own enumerable
    property, else the [prototype] of a function, else [undefined] (no
    built-in prototype object has a property of that name or an index). *)
Definition Get (h : heap) (a : value) (key : string) : value :=
  match a with
  | VObject l =>
      match assoc key (own_props (h l)), h l with
      | Some v, _ => v
      | None, OFunction _ proto => if String.eqb key "prototype" then proto else VUndefined
      | None, _ => VUndefined
      end
  | _ => VUndefined
  end.

(** [Object.keys(a)] as ES5 15.2.3.14 has it, the edition the library was
    written for: a TypeError when [a] is not an object. *)
Definition Object_keys (h : heap) (a : value) : completion (list string) :=
  match a with
  | VObject l => Return (map fst (own_props (h l)))
  | _ => Throw (TypeError "Object.keys called on non-object")
  end.

(** [keys.sort()]: the default order, by code units. *)
Fixpoint insert_key (k : string) (sorted : list string) : list string :=
  match sorted with
  | k' :: rest => if String.leb k k' then k :: sorted else k' :: insert_key k rest
  | [] => [k]
  end.

Definition sort (keys : list string) : list string :=
  fold_right insert_key [] keys.

(** [Object.prototype.toString.call(x)]. *)
Definition class_of (h : heap) (v : value) : string :=
  match v with
  | VUndefined => "[object Undefined]"
  | VNull => "[object Null]"
  | VBool _ => "[object Boolean]"
  | VNumber _ => "[object Number]"
  | VString _ => "[object String]"
  | VObject l =>
      match h l with
      | OPlain _ | OBuffer _ => "[object Object]"
      | OArray _ => "[object Array]"
      | OArguments _ => "[object Arguments]"
      | ODate _ => "[object Date]"
      | ORegExp _ _ _ _ _ => "[object RegExp]"
      | OFunction _ _ => "[object Function]"
      end
  end.

Definition instanceof_Date (h : heap) (v : value) : bool :=
  match v with
  | VObject l => match h l with ODate _ => true | _ => false end
  | _ => false
  end.

Definition instanceof_RegExp (h : heap) (v : value) : bool :=
  match v with
  | VObject l => match h l with ORegExp _ _ _ _ _ => true | _ => false end
  | _ => false
  end.

Definition Buffer_isBuffer (h : heap) (v : value) : bool :=
  match v with
  | VObject l => match h l with OBuffer _ => true | _ => false end
  | _ => false
  end.

(** *** Conversions and comparisons of primitive values *)

(** ToNumber (ES5 9.3) of a primitive value.  The conversion of an object
    runs its [valueOf] and [toString]: it has no value here. *)
Definition ToNumber (v : value) : option number :=
  match v with
  | VUndefined => Some NaN
  | VNull => Some (num_of_Z 0)
  | VBool b => Some (bool_to_number b)
  | VNumber n => Some n
  | VString s => Some (StringToNumber s)
  | VObject _ => None
  end.

(** [a < b] and [a <= b] on primitive values (ES5 11.8.1, 11.8.3, 11.8.5):
    two Strings by code units, else the Numbers of both; false when one of
    these is NaN. *)
Definition less (a b : value) : option bool :=
  match a, b with
  | VString s, VString t => Some (String.ltb s t)
  | _, _ =>
      match ToNumber a, ToNumber b with
      | Some x, Some y => Some (SFltb x y)
      | _, _ => None
      end
  end.

Definition less_or_equal (a b : value) : option bool :=
  match a, b with
  | VString s, VString t => Some (negb (String.ltb t s))
  | _, _ =>
      match ToNumber a, ToNumber b with
      | Some x, Some y => Some (SFleb x y)
      | _, _ => None
      end
  end.

(** An index given to [Array.prototype.slice], for [len] elements
    (ES5 15.4.4.10, steps 5 to 8): [k] is ToInteger of the Number (ES5 9.4),
    its sign times the floor of its absolute value, so that a Number
    between -1 and 0 gives an integer that is not negative; the index is
    [max(len + k, 0)] when [k] is negative and [min(k, len)] otherwise. *)
Definition relative_index (n : number) (len : nat) : nat :=
  match n with
  | S754_nan | S754_zero _ => 0
  | S754_infinity false => len
  | S754_infinity true => 0
  | S754_finite s m e =>
      let t := Z.shiftl (Zpos m) e in
      let k := if s then (- t)%Z else t in
      if (k <? 0)%Z then Z.to_nat (Z.max (Z.of_nat len + k) 0)
      else Z.to_nat (Z.min k (Z.of_nat len))
  end.

End JS.

Import JS.
Open Scope string_scope.

(** ** The library *)

Module L.

(** *** Functions: [curry] and [ncurry]

    The engine only counts arguments, so it is modelled over any type [A]
    of arguments and [R] of results (a result can be an exception of the
    target: the engine passes it on as it is).  [this] plays no part in it
    and is left out.  Every function of the engine returns, with its value,
    the list of the argument lists the target was applied to meanwhile. *)

Section Functions.
Context {A R : Type}.

(** A target, by what the engine uses of it: [fn.length] and
    [fn.apply(this, args)]. *)
Record function := Function { fn_length : nat; fn_apply : list A -> R }.

(** The [function () {...}] that [ncurry] returns, by what it closes
    over. *)
Record closure := Closure { c_n : nat; c_fn : function; c_largs : list A }.

(** What a call to the engine returns: the result of the target or a new
    front end. *)
Inductive reply :=
| Result (r : R)
| Curried (c : closure).

Definition traced (X : Type) : Type := X * list (list A).

(** [fn.apply(this, args)] *)
Definition fn_call (fn : function) (args : list A) : traced reply :=
  (Result (fn_apply fn args), [args]).

(** [L.apply(f, args)], with both arguments given: [L.apply] is
    [curry(function (f, args) { return f.apply(this, args); })], whose
    front end, called with two arguments, applies this function to them
    at once. *)
Definition apply (f : function) (args : list A) : traced reply :=
  fn_call f args.

(** [xs.slice(0, n)] *)
Definition slice0 (xs : list A) (n : nat) : list A := firstn n xs.

Definition ncurry (n : nat) (fn : function) (largs : list A) : traced reply :=
  if (n <=? List.length largs)%nat then apply fn (slice0 largs n)
  else (Curried {| c_n := n; c_fn := fn; c_largs := largs |}, []).

(** A call of the returned function with the list [arguments]. *)
Definition call (c : closure) (arguments : list A) : traced reply :=
  let args := (c_largs c ++ arguments)%list in
  if (List.length args <? c_n c)%nat then ncurry (c_n c) (c_fn c) args
  else fn_call (c_fn c) (slice0 args (c_n c)).

Definition curry (fn : function) (args : list A) : traced reply :=
  ncurry (fn_length fn) fn args.

(** [r(g1)(g2)...(gk)]: successive calls, one per group of arguments.
    Nothing is known of how a result of the target answers a call, so a
    chain that goes on after the result has no value. *)
Fixpoint call_chain (r : reply) (groups : list (list A)) : traced (option reply) :=
  match groups with
  | [] => (Some r, [])
  | g :: groups' =>
      match r with
      | Result _ => (None, [])
      | Curried c =>
          let '(r', log) := call c g in
          let '(r'', log') := call_chain r' groups' in
          (r'', (log ++ log')%list)
      end
  end.

(** [ncurry(n, fn, pre...)(g1)...(gk)] *)
Definition ncurry_chain (n : nat) (fn : function) (pre : list A)
           (groups : list (list A)) : traced (option reply) :=
  let '(r, log) := ncurry n fn pre in
  let '(r', log') := call_chain r groups in
  (r', (log ++ log')%list).

Definition curry_chain (fn : function) (pre : list A)
           (groups : list (list A)) : traced (option reply) :=
  ncurry_chain (fn_length fn) fn pre groups.

End Functions.

(** *** Types *)

Definition isArray (h : heap) (x : value) : bool :=
  class_of h x =? "[object Array]".

Definition isFunction (h : heap) (x : value) : bool :=
  class_of h x =? "[object Function]".

Definition isString (h : heap) (x : value) : bool :=
  class_of h x =? "[object String]".

(** [x === Object(x)] holds of the objects only. *)
Definition isObject (h : heap) (x : value) : bool :=
  match x with VObject _ => true | _ => false end
  && negb (isArray h x) && negb (isFunction h x) && negb (isString h x).

Definition isNumber (h : heap) (x : value) : bool :=
  class_of h x =? "[object Number]".

Definition isBoolean (h : heap) (x : value) : bool :=
  strict_eq x (VBool true) || strict_eq x (VBool false)
  || (class_of h x =? "[object Boolean]").

Definition isNull (x : value) : bool := strict_eq x VNull.

Definition isUndefined (x : value) : bool := strict_eq x VUndefined.

(** The definition the file keeps where [toString] knows the argument lists
    ([L.isArgumentsObject(arguments)] holds at load time), as in ES5. *)
Definition isArgumentsObject (h : heap) (x : value) : bool :=
  class_of h x =? "[object Arguments]".

(** The chain of [||] ends on the value of its last operand, [false], when
    no test holds; no value gets there. *)
Definition type (h : heap) (x : value) : string :=
  if isArray h x then "array"
  else if isFunction h x then "function"
  else if isObject h x then "object"
  else if isString h x then "string"
  else if isNumber h x then "number"
  else if isBoolean h x then "boolean"
  else if isNull x then "null"
  else if isUndefined x then "undefined"
  else "false".

(** *** Types: wrapper objects *)

(** [new Number(n)], [new Boolean(b)] and [new String(s)] make objects of
    class Number, Boolean and String.  The store holds none of them, and the
    functions of the library are modelled on the other values.  The type
    tests say of themselves that they accept such objects, so they are
    modelled on them as well: [tested] is what a type test is given, a value
    of the model or a wrapper object. *)
Inductive wrapper :=
| NumberObject (n : number)
| BooleanObject (b : bool)
| StringObject (s : string).

Inductive tested :=
| Value (x : value)
| Wrapper (w : wrapper).

Module Tested.

(** [Object.prototype.toString.call(x)] *)
Definition class_of (h : heap) (x : tested) : string :=
  match x with
  | Value v => JS.class_of h v
  | Wrapper (NumberObject _) => "[object Number]"
  | Wrapper (BooleanObject _) => "[object Boolean]"
  | Wrapper (StringObject _) => "[object String]"
  end.

(** [x === v], for [v] one of [true], [false], [null] and [undefined]: no
    object is identical to one of them. *)
Definition identical (x : tested) (v : value) : bool :=
  match x with
  | Value y => strict_eq y v
  | Wrapper _ => false
  end.

(** [x === Object(x)]: [Object(x)] is [x] itself for an object and a new
    object for every other value. *)
Definition same_as_Object (x : tested) : bool :=
  match x with
  | Value (VObject _) | Wrapper _ => true
  | Value _ => false
  end.

Definition isArray (h : heap) (x : tested) : bool :=
  class_of h x =? "[object Array]".

Definition isFunction (h : heap) (x : tested) : bool :=
  class_of h x =? "[object Function]".

Definition isString (h : heap) (x : tested) : bool :=
  class_of h x =? "[object String]".

Definition isObject (h : heap) (x : tested) : bool :=
  same_as_Object x
  && negb (isArray h x) && negb (isFunction h x) && negb (isString h x).

Definition isNumber (h : heap) (x : tested) : bool :=
  class_of h x =? "[object Number]".

Definition isBoolean (h : heap) (x : tested) : bool :=
  identical x (VBool true) || identical x (VBool false)
  || (class_of h x =? "[object Boolean]").

Definition isNull (x : tested) : bool := identical x VNull.

Definition isUndefined (x : tested) : bool := identical x VUndefined.

(** [L.type]: the name next to the first test of the chain that holds. *)
Definition type (h : heap) (x : tested) : string :=
  if isArray h x then "array"
  else if isFunction h x then "function"
  else if isObject h x then "object"
  else if isString h x then "string"
  else if isNumber h x then "number"
  else if isBoolean h x then "boolean"
  else if isNull x then "null"
  else if isUndefined x then "undefined"
  else "false".

End Tested.

(** *** Operators: [eqv] *)

(** The library runs in Node.js: [typeof Buffer !== 'undefined']. *)
Definition hasBuffer : bool := true.

(** What a function that recurses through the store returns: [None] when
    the recursion is deeper than the fuel. *)
Definition result := option (completion bool).

Definition is_null_or_undefined (a : value) : bool :=
  strict_eq a VNull || strict_eq a VUndefined.

(** The second branch of [eqv]: the lengths, then the octets in order. *)
Definition same_octets (h : heap) (a b : value) : bool :=
  match a, b with
  | VObject x, VObject y =>
      match h x, h y with
      | OBuffer xs, OBuffer ys =>
          if negb (List.length xs =? List.length ys)%nat then false
          else forallb (fun '(x, y) => N.eqb x y) (combine xs ys)
      | _, _ => false
      end
  | _, _ => false
  end.

(** [a.getTime() === b.getTime()] *)
Definition same_time (h : heap) (a b : value) : bool :=
  match a, b with
  | VObject x, VObject y =>
      match h x, h y with
      | ODate s, ODate t => strict_eq (VNumber s) (VNumber t)
      | _, _ => false
      end
  | _, _ => false
  end.

(** The five properties of two regular expressions, in the order the
    source compares them. *)
Definition same_pattern (h : heap) (a b : value) : bool :=
  match a, b with
  | VObject x, VObject y =>
      match h x, h y with
      | ORegExp s g m i li, ORegExp s' g' m' i' li' =>
          strict_eq (VString s) (VString s')
          && strict_eq (VBool g) (VBool g')
          && strict_eq (VBool m) (VBool m')
          && strict_eq li li'
          && strict_eq (VBool i) (VBool i')
      | _, _ => false
      end
  | _, _ => false
  end.

Section objEquiv.
(** [L.eqv], one call deeper. *)
Variable eqv : value -> value -> result.
Variable h : heap.

(** The last loop of [objEquiv], over the keys in the order it visits
    them: it stops at the first pair of values that is not equivalent,
    and at the first call that does not return. *)
Fixpoint same_values (a b : value) (keys : list string) : result :=
  match keys with
  | [] => Some (Return true)
  | key :: keys' =>
      match eqv (Get h a key) (Get h b key) with
      | Some (Return true) => same_values a b keys'
      | r => r
      end
  end.

(** [pSlice] is declared nowhere in the file (the array [slice] is bound
    to the name [slice]): in strict mode the first [pSlice.call] is a
    ReferenceError. *)
Definition objEquiv (a b : value) : result :=
  if is_null_or_undefined a || is_null_or_undefined b then Some (Return false)
  else if negb (strict_eq (Get h a "prototype") (Get h b "prototype"))
  then Some (Return false)
  else if isArgumentsObject h a then
    if negb (isArgumentsObject h b) then Some (Return false)
    else Some (Throw (ReferenceError "pSlice is not defined"))
  else
    match Object_keys h a, Object_keys h b with
    | Return ka, Return kb =>
        if negb (List.length ka =? List.length kb)%nat then Some (Return false)
        else
          let ka := sort ka in
          let kb := sort kb in
          if negb (forallb (fun '(x, y) => String.eqb x y) (rev (combine ka kb)))
          then Some (Return false)
          else same_values a b (rev ka)
    | _, _ => Some (Return false)
    end.
End objEquiv.

(** The function given to [curry] at [L.eqv], called with both arguments. *)
Fixpoint eqv (fuel : nat) (h : heap) (a b : value) : result :=
  match fuel with
  | O => None
  | S fuel' =>
      if strict_eq a b then Some (Return true)
      else if hasBuffer && Buffer_isBuffer h a && Buffer_isBuffer h b
      then Some (Return (same_octets h a b))
      else if instanceof_Date h a && instanceof_Date h b
      then Some (Return (same_time h a b))
      else if instanceof_RegExp h a && instanceof_RegExp h b
      then Some (Return (same_pattern h a b))
      else if negb (typeof h a =? "object") && negb (typeof h b =? "object")
      then Some (Return (loose_eq h a b))
      else objEquiv (eqv fuel' h) h a b
  end.

(** *** Operators: [lt] and [gt] *)

(** [L.min(x, y)] on two lengths: [L.le(x, y) ? x : y], where [L.le(x, y)]
    is [L.not(L.gt(x, y))] and [L.gt] of two Numbers is [x > y]. *)
Definition min (x y : nat) : nat := if negb (y <? x)%nat then x else y.

(** [a.length] and the [a[i]] of an array. *)
Definition elements (h : heap) (a : value) : list value :=
  match a with
  | VObject l => match h l with OArray elems => elems | _ => [] end
  | _ => []
  end.

Section scan.
(** [L.lt] or [L.gt], and [L.eqv], one call deeper. *)
Variables before eqv : value -> value -> result.

(** The loop over the first [len] indices, then the comparison of the
    lengths. *)
Fixpoint scan (pairs : list (value * value)) (lengths : bool) : result :=
  match pairs with
  | [] => Some (Return lengths)
  | (x, y) :: pairs' =>
      match before x y with
      | Some (Return true) => Some (Return true)
      | Some (Return false) =>
          match eqv x y with
          | Some (Return true) => scan pairs' lengths
          | r => r
          end
      | r => r
      end
  end.
End scan.

Definition cannot_compare (ta tb : string) : error :=
  TypeError ("Cannot compare type " ++ ta ++ " with type " ++ tb).

Definition cannot_order (ta : string) : error :=
  TypeError ("Cannot order values of type " ++ ta).

Fixpoint lt (fuel : nat) (h : heap) (a b : value) : result :=
  match fuel with
  | O => None
  | S fuel' =>
      let ta := type h a in
      let tb := type h b in
      if negb (ta =? tb) then Some (Throw (cannot_compare ta tb))
      else if (ta =? "string") || (ta =? "number")
      then Some (Return (less_than a b))
      else if ta =? "array" then
        let xs := elements h a in
        let ys := elements h b in
        let len := min (List.length xs) (List.length ys) in
        scan (lt fuel' h) (eqv fuel' h)
             (combine (firstn len xs) (firstn len ys))
             (List.length xs <? List.length ys)%nat
      else Some (Throw (cannot_order ta))
  end.

Fixpoint gt (fuel : nat) (h : heap) (a b : value) : result :=
  match fuel with
  | O => None
  | S fuel' =>
      let ta := type h a in
      let tb := type h b in
      if negb (ta =? tb) then Some (Throw (cannot_compare ta tb))
      else if (ta =? "string") || (ta =? "number")
      then Some (Return (greater_than a b))
      else if ta =? "array" then
        let xs := elements h a in
        let ys := elements h b in
        let len := min (List.length xs) (List.length ys) in
        scan (gt fuel' h) (eqv fuel' h)
             (combine (firstn len xs) (firstn len ys))
             (List.length ys <? List.length xs)%nat
      else Some (Throw (cannot_order ta))
  end.

(** *** Operators: [rem] and [mod] *)

Definition expecting_numbers (h : heap) (a b : value) : error :=
  TypeError ("Expecting two Number arguments, got: " ++ type h a ++ ", " ++ type h b).

(** [a % b] and [a + b] where both are Numbers, as [isNumber] has checked. *)
Definition remainder (a b : value) : value :=
  match a, b with
  | VNumber x, VNumber y => VNumber (num_rem x y)
  | _, _ => VNumber NaN
  end.

Definition plus (a b : value) : value :=
  match a, b with
  | VNumber x, VNumber y => VNumber (num_add x y)
  | _, _ => VNumber NaN
  end.

Definition rem (h : heap) (a b : value) : completion value :=
  if isNumber h a && isNumber h b then Return (remainder a b)
  else Throw (expecting_numbers h a b).

(** [L.mod] ([mod] is a keyword here). *)
Definition mod_ (h : heap) (a b : value) : completion value :=
  if isNumber h a && isNumber h b
  then Return (remainder (plus (remainder a b) b) b)
  else Throw (expecting_numbers h a b).

(** *** Operators: the other wrappers *)

(** [L.install()] defines every function of the library as a variable of the
    global object; until it is called [type] and [map], which three
    functions of the file name without the [L.], are bound nowhere and
    evaluating them is a ReferenceError. *)
Definition not_defined (name : string) : JS.error :=
  ReferenceError (name ++ " is not defined").

(** [L.not] *)
Definition not (installed : bool) (h : heap) (a : value) : completion value :=
  if isBoolean h a then
    Return (VBool (match a with VBool b => negb b | _ => false end))
  else if installed
       then Throw (TypeError ("Expected Boolean value, got: " ++ type h a))
       else Throw (not_defined "type").

Definition expecting_booleans (h : heap) (a b : value) : JS.error :=
  TypeError ("Expecting two Boolean arguments, got: " ++ type h a ++ ", " ++ type h b).

(** [a && b] and [a || b] where both are Booleans, as [isBoolean] has
    checked. *)
Definition logical_and (a b : value) : value :=
  match a with VBool false => a | _ => b end.

Definition logical_or (a b : value) : value :=
  match a with VBool true => a | VBool false => b | _ => a end.

(** [L.and] *)
Definition and (h : heap) (a b : value) : completion value :=
  if isBoolean h a && isBoolean h b then Return (logical_and a b)
  else Throw (expecting_booleans h a b).

(** [L.or] *)
Definition or (h : heap) (a b : value) : completion value :=
  if isBoolean h a && isBoolean h b then Return (logical_or a b)
  else Throw (expecting_booleans h a b).

(** [a op b] where both are Numbers, as [isNumber] has checked. *)
Definition arithmetic (op : number -> number -> number) (a b : value) : value :=
  match a, b with
  | VNumber x, VNumber y => VNumber (op x y)
  | _, _ => VNumber NaN
  end.

(** [L.add], [L.sub], [L.mul], [L.div] *)
Definition add (h : heap) (a b : value) : completion value :=
  if isNumber h a && isNumber h b then Return (arithmetic num_add a b)
  else Throw (expecting_numbers h a b).

Definition sub (h : heap) (a b : value) : completion value :=
  if isNumber h a && isNumber h b then Return (arithmetic (SFsub prec emax) a b)
  else Throw (expecting_numbers h a b).

Definition mul (h : heap) (a b : value) : completion value :=
  if isNumber h a && isNumber h b then Return (arithmetic (SFmul prec emax) a b)
  else Throw (expecting_numbers h a b).

Definition div (h : heap) (a b : value) : completion value :=
  if isNumber h a && isNumber h b then Return (arithmetic (SFdiv prec emax) a b)
  else Throw (expecting_numbers h a b).

(** What [L.le], [L.ge], [L.max], [L.min] and [L.compare] return: a value, an
    exception, or nothing when [lt] or [gt] recurse deeper than the fuel. *)
Definition answer := option (completion value).

(** [L.not(r)] of what [L.gt] or [L.lt] gave. *)
Definition not_result (installed : bool) (h : heap) (r : result) : answer :=
  match r with
  | Some (Return b) => Some (not installed h (VBool b))
  | Some (Throw e) => Some (Throw e)
  | None => None
  end.

(** [L.le] and [L.ge] *)
Definition le (installed : bool) (fuel : nat) (h : heap) (a b : value) : answer :=
  not_result installed h (gt fuel h a b).

Definition ge (installed : bool) (fuel : nat) (h : heap) (a b : value) : answer :=
  not_result installed h (lt fuel h a b).

(** ToBoolean (ES5 9.2), the test of [c ? x : y], of [!c] and of [&&]. *)
Definition ToBoolean (v : value) : bool :=
  match v with
  | VUndefined | VNull => false
  | VBool b => b
  | VNumber (S754_zero _) | VNumber S754_nan => false
  | VNumber _ => true
  | VString s => negb (String.eqb s EmptyString)
  | VObject _ => true
  end.

(** [c ? x : y] where [c] is what a call gave. *)
Definition choose (c : answer) (x y : value) : answer :=
  match c with
  | Some (Return v) => Some (Return (if ToBoolean v then x else y))
  | other => other
  end.

(** [L.max], and [L.min] on any two values ([min] above is [L.min] on two
    lengths). *)
Definition max (installed : bool) (fuel : nat) (h : heap) (x y : value) : answer :=
  choose (ge installed fuel h x y) x y.

Definition min_ (installed : bool) (fuel : nat) (h : heap) (x y : value) : answer :=
  choose (le installed fuel h x y) x y.

(** [L.compare]: [L.gt] is called only when [L.lt] returned false. *)
Definition compare (fuel : nat) (h : heap) (x y : value) : answer :=
  match lt fuel h x y with
  | Some (Return true) => Some (Return (VNumber (num_of_Z (-1))))
  | Some (Return false) =>
      match gt fuel h x y with
      | Some (Return true) => Some (Return (VNumber (num_of_Z 1)))
      | Some (Return false) => Some (Return (VNumber (num_of_Z 0)))
      | Some (Throw e) => Some (Throw e)
      | None => None
      end
  | Some (Throw e) => Some (Throw e)
  | None => None
  end.

(** *** Lists

    The functions on lists read their operands in the store and build new
    arrays: they run on a state, the store with its next free location.
    An answer is a value or an exception, with the state it leaves; there is
    no answer ([None]) where the model does not follow the code: on an
    operand that is neither an Array nor a String where the documentation
    asks for one of them, and on a recursion deeper than its fuel.  An array
    that a function fills in a loop ([var r = []; ... r[i] = ...]) is added
    to the store when the loop is over: no callback can reach it before, and
    the language does not show where an object is. *)

Record state := State { heap_of : heap; next : loc }.

(** A new object, at the next free location. *)
Definition alloc (o : object) (st : state) : loc * state :=
  (next st,
   {| heap_of := fun l => if Nat.eqb l (next st) then o else heap_of st l;
      next := S (next st) |}).

(** An object of the store replaced by its new content. *)
Definition write (l : loc) (o : object) (st : state) : state :=
  {| heap_of := fun l' => if Nat.eqb l' l then o else heap_of st l';
     next := next st |}.

(** What is thrown: an error of the language or [new Error(message)]. *)
Inductive exception :=
| Native (e : JS.error)
| Error (message : string).

Inductive outcome (A : Type) :=
| Ok (v : A)
| Raise (x : exception).
Arguments Ok {A} v.
Arguments Raise {A} x.

Definition M (A : Type) : Type := state -> option (outcome A * state).

Definition ret {A : Type} (v : A) : M A := fun st => Some (Ok v, st).

Definition raise {A : Type} (x : exception) : M A := fun st => Some (Raise x, st).

Definition unmodelled {A : Type} : M A := fun _ => None.

Definition bind {A B : Type} (c : M A) (k : A -> M B) : M B :=
  fun st =>
    match c st with
    | Some (Ok v, st') => k v st'
    | Some (Raise x, st') => Some (Raise x, st')
    | None => None
    end.

Notation "x <- c ;; k" := (bind c (fun x => k))
  (at level 61, c at next level, right associativity).

(** [[x1, ..., xn]] and [new Array]: a new array. *)
Definition new_array (elems : list value) : M value :=
  fun st => let '(l, st') := alloc (OArray elems) st in Some (Ok (VObject l), st').

(** The store as it is now. *)
Definition store_now : M heap := fun st => Some (Ok (heap_of st), st).

(** A function of the caller: what it does of the list [arguments]. *)
Definition callback := list value -> M value.

(** [L.error] *)
Definition error {A : Type} (msg : string) : M A := raise (Error msg).

(** The operands of the functions on lists. *)
Inductive shape :=
| IsArray (elems : list value)
| IsString (s : string).

(** The Strings of one code unit that [s[i]] and [s.split('')] give. *)
Definition chars (s : string) : list value :=
  List.map (fun c => VString (String c EmptyString)) (list_ascii_of_string s).

(** [xs.length] and the [xs[i]] in order. *)
Definition items (sh : shape) : list value :=
  match sh with IsArray elems => elems | IsString s => chars s end.

(** The length of an Array is below [2^32] (ES5 15.4), that of a String is
    an integer that a Number holds. *)
Definition sized (sh : shape) : bool :=
  match sh with
  | IsArray elems => (Z.of_nat (List.length elems) <? 2 ^ 32)%Z
  | IsString s => (Z.of_nat (List.length (chars s)) <? 2 ^ 53)%Z
  end.

Definition shape_of (h : heap) (xs : value) : option shape :=
  match xs with
  | VString s => if sized (IsString s) then Some (IsString s) else None
  | VObject l =>
      match h l with
      | OArray elems => if sized (IsArray elems) then Some (IsArray elems) else None
      | _ => None
      end
  | _ => None
  end.

Definition with_shape {A : Type} (xs : value) (k : shape -> M A) : M A :=
  h <- store_now ;;
  match shape_of h xs with Some sh => k sh | None => unmodelled end.

(** [L.length] and [L.empty] *)
Definition length (xs : value) : M value :=
  with_shape xs (fun sh => ret (VNumber (num_of_Z (Z.of_nat (List.length (items sh)))))).

Definition empty (xs : value) : M value :=
  n <- length xs ;; ret (VBool (strict_eq n (VNumber (num_of_Z 0)))).

(** [c ? x : y] *)
Definition cond {A : Type} (c : value) (x y : M A) : M A :=
  if ToBoolean c then x else y.

(** [xs[i]]: [undefined] past the end. *)
Definition item (xs : value) (i : nat) : M value :=
  with_shape xs (fun sh => ret (nth i (items sh) VUndefined)).

(** [L.head] and [L.last] *)
Definition head (xs : value) : M value :=
  e <- empty xs ;; cond e (error "head of empty array") (item xs 0).

Definition last (xs : value) : M value :=
  e <- empty xs ;;
  cond e (error "last of empty array")
       (with_shape xs (fun sh => item xs (List.length (items sh) - 1))).

(** [xs.slice(from, to)] of an Array or of a String, where [from] and [to]
    are indices within the length: a new array, or the String of the code
    units in between. *)
Definition slice (xs : value) (from to : nat) : M value :=
  with_shape xs (fun sh =>
    match sh with
    | IsArray elems => new_array (firstn (to - from) (skipn from elems))
    | IsString s => ret (VString (substring from (to - from) s))
    end).

(** [L.tail] and [L.init] *)
Definition tail (xs : value) : M value :=
  e <- empty xs ;;
  cond e (error "tail of empty array")
       (with_shape xs (fun sh => slice xs 1 (List.length (items sh)))).

Definition init (xs : value) : M value :=
  e <- empty xs ;;
  cond e (error "init of empty array")
       (with_shape xs (fun sh => slice xs 0 (List.length (items sh) - 1))).

(** The TypeError of [L.cons] and [L.append], whose message calls [type]. *)
Definition expecting_string (installed : bool) (h : heap) (x xs : value) : exception :=
  if installed
  then Native (TypeError ("When second argument is String, first argument should also"
                            ++ "be String, got: " ++ type h x ++ ", " ++ type h xs))
  else Native (not_defined "type").

(** [s + t] on two Strings. *)
Definition string_plus (x y : value) : value :=
  match x, y with
  | VString s, VString t => VString (s ++ t)
  | _, _ => VUndefined
  end.

(** What [a.concat(x)] adds for the argument [x]: its elements when it is an
    Array, else [x] itself. *)
Definition spread (h : heap) (x : value) : list value :=
  if isArray h x then elements h x else [x].

(** [L.cons]: [[x].concat(xs)] when [xs] is not a String. *)
Definition cons (installed : bool) (x xs : value) : M value :=
  h <- store_now ;;
  if isString h xs then
    if negb (isString h x) then raise (expecting_string installed h x xs)
    else ret (string_plus x xs)
  else
    single <- new_array [x] ;;
    h' <- store_now ;;
    new_array (elements h' single ++ spread h' xs).

(** [L.append]: [xs.concat([x])] when [xs] is not a String; the model follows
    it on an Array. *)
Definition append (installed : bool) (x xs : value) : M value :=
  h <- store_now ;;
  if isString h xs then
    if negb (isString h x) then raise (expecting_string installed h x xs)
    else ret (string_plus xs x)
  else if isArray h xs then
    single <- new_array [x] ;;
    h' <- store_now ;;
    new_array (elements h' xs ++ spread h' single)
  else unmodelled.

(** A text between double quotes. *)
Definition quoted (s : string) : string :=
  String (ascii_of_nat 34) (s ++ String (ascii_of_nat 34) EmptyString).

(** [L.concat]: [Array.prototype.concat.apply(a, b)] gives the elements of
    [b] to [concat] as so many arguments. *)
Definition concat (a b : value) : M value :=
  h <- store_now ;;
  if isArray h a && isArray h b then
    new_array (elements h a ++ List.concat (List.map (spread h) (elements h b)))
  else if isString h a && isString h b then ret (string_plus a b)
  else raise (Error ("Cannot concat types " ++ quoted (typeof h a) ++ " and "
                       ++ quoted (typeof h b))).

(** *** Lists: callbacks

    A function given to the library is a [callback].  The functions of the
    library that the library itself gives as callbacks are curried: called
    with at least as many arguments as they wait for, they apply their
    target to the first of them ([reduce] calls with four arguments, [map]
    and [filter] with three).  A call with fewer returns a function, which
    no value of the model stands for. *)

Definition curried (n : nat) (f : callback) (pre : list value) : callback :=
  fun args =>
    match fst (curry_chain (Function n f) pre [args]) with
    | Some (Result r) => r
    | _ => unmodelled
    end.

Definition arg (i : nat) (args : list value) : value := nth i args VUndefined.

(** The index [k] as a Number. *)
Definition index (k : nat) : value := VNumber (num_of_Z (Z.of_nat k)).

Definition lift (c : completion value) : M value :=
  match c with
  | Return v => ret v
  | Throw e => raise (Native e)
  end.

Definition lift_answer (a : answer) : M value :=
  match a with
  | Some c => lift c
  | None => unmodelled
  end.

(** [L.and], [L.or], [L.eq(x)], [L.max], [L.min], [L.concat] and [L.cons]
    as callbacks. *)
Definition and_fn : callback :=
  curried 2 (fun args => h <- store_now ;; lift (and h (arg 0 args) (arg 1 args))) [].

Definition or_fn : callback :=
  curried 2 (fun args => h <- store_now ;; lift (or h (arg 0 args) (arg 1 args))) [].

Definition eq_fn (x : value) : callback :=
  curried 2 (fun args => ret (VBool (strict_eq (arg 0 args) (arg 1 args)))) [x].

Definition max_fn (installed : bool) (fuel : nat) : callback :=
  curried 2 (fun args =>
               h <- store_now ;;
               lift_answer (max installed fuel h (arg 0 args) (arg 1 args))) [].

Definition min_fn (installed : bool) (fuel : nat) : callback :=
  curried 2 (fun args =>
               h <- store_now ;;
               lift_answer (min_ installed fuel h (arg 0 args) (arg 1 args))) [].

Definition concat_fn : callback :=
  curried 2 (fun args => concat (arg 0 args) (arg 1 args)) [].

Definition cons_fn (installed : bool) : callback :=
  curried 2 (fun args => cons installed (arg 0 args) (arg 1 args)) [].

(** [L.flip(fn)]: the front end of [function (fn, x, y) { return fn(y, x); }]
    that holds [fn] and waits for two arguments more. *)
Definition flip (fn : callback) : callback :=
  curried 2 (fun args => fn [arg 1 args; arg 0 args]) [].

(** *** Lists: the methods of [Array.prototype] *)

(** The TypeError of a call to what is not a function.  Its message is the
    engine's own: here as V8 words it for [xs.name(...)]. *)
Definition not_a_function (name : string) : exception :=
  Native (TypeError ("xs." ++ name ++ " is not a function")).

(** [xs.name(...)] for a method that [Array.prototype] alone has: [run] on
    an Array; a TypeError where [xs.name] is not a function; no answer
    where it is one of another kind (an own property, or a method of a
    Buffer). *)
Definition array_method {A : Type} (name : string) (xs : value) (run : M A) : M A :=
  h <- store_now ;;
  if isArray h xs then run
  else
    match xs with
    | VObject l =>
        match h l with
        | OBuffer _ => unmodelled
        | _ =>
            if typeof h (Get h xs name) =? "function" then unmodelled
            else raise (not_a_function name)
        end
    | _ => raise (not_a_function name)
    end.

(** [xs.reduce(f, z)] (ES5 15.4.4.21): the length is read once, each
    element when its turn comes, and an index that is no longer in the array
    is passed over. *)
Fixpoint reduce_loop (f : callback) (xs : value) (indices : list nat) (acc : value)
  : M value :=
  match indices with
  | [] => ret acc
  | k :: rest =>
      h <- store_now ;;
      match nth_error (elements h xs) k with
      | Some x =>
          acc' <- f [acc; x; index k; xs] ;;
          reduce_loop f xs rest acc'
      | None => reduce_loop f xs rest acc
      end
  end.

Definition reduce (f : callback) (z xs : value) : M value :=
  h <- store_now ;;
  reduce_loop f xs (seq 0 (List.length (elements h xs))) z.

(** [xs.map(f)] (ES5 15.4.4.19).  The new array has its content when the
    calls are over (no callback can reach it before); a result array with
    holes, where the callback has shortened [xs], has no model. *)
Fixpoint map_loop (f : callback) (xs : value) (indices : list nat) : M (list value) :=
  match indices with
  | [] => ret []
  | k :: rest =>
      h <- store_now ;;
      match nth_error (elements h xs) k with
      | Some x =>
          y <- f [x; index k; xs] ;;
          ys <- map_loop f xs rest ;;
          ret (y :: ys)
      | None => unmodelled
      end
  end.

Definition array_map (f : callback) (xs : value) : M value :=
  h <- store_now ;;
  ys <- map_loop f xs (seq 0 (List.length (elements h xs))) ;;
  new_array ys.

(** [xs.filter(f)] (ES5 15.4.4.20). *)
Fixpoint filter_loop (f : callback) (xs : value) (indices : list nat) : M (list value) :=
  match indices with
  | [] => ret []
  | k :: rest =>
      h <- store_now ;;
      match nth_error (elements h xs) k with
      | Some x =>
          c <- f [x; index k; xs] ;;
          ys <- filter_loop f xs rest ;;
          ret (if ToBoolean c then x :: ys else ys)
      | None => filter_loop f xs rest
      end
  end.

Definition array_filter (f : callback) (xs : value) : M value :=
  h <- store_now ;;
  ys <- filter_loop f xs (seq 0 (List.length (elements h xs))) ;;
  new_array ys.

(** [slice.call(xs, start, end)] (ES5 15.4.4.10) on an Array or a String:
    always a new array; [end] is the length when it is [undefined]. *)
Definition slice_call (xs start end_ : value) : M value :=
  with_shape xs (fun sh =>
    let len := List.length (items sh) in
    match ToNumber start, ToNumber end_ with
    | Some s, Some e =>
        let k := relative_index s len in
        let final := if isUndefined end_ then len else relative_index e len in
        new_array (firstn (final - k) (skipn k (items sh)))
    | _, _ => unmodelled
    end).

(** *** Lists: folds *)

(** [xs.split('')] *)
Definition split (xs : value) : M value :=
  new_array (match xs with VString s => chars s | _ => [] end).

(** [L.foldl] *)
Definition foldl (f : callback) (z xs : value) : M value :=
  h <- store_now ;;
  if isString h xs then parts <- split xs ;; reduce f z parts
  else array_method "reduce" xs (reduce f z xs).

(** [L.foldl1] *)
Definition foldl1 (f : callback) (xs : value) : M value :=
  x <- head xs ;;
  rest <- tail xs ;;
  foldl f x rest.

(** [L.foldr]: [xs.length] is read once, each [xs[i]] when its turn comes. *)
Fixpoint foldr_loop (f : callback) (xs : value) (indices : list nat) (z : value)
  : M value :=
  match indices with
  | [] => ret z
  | i :: rest =>
      x <- item xs i ;;
      z' <- f [x; z] ;;
      foldr_loop f xs rest z'
  end.

Definition foldr (f : callback) (z xs : value) : M value :=
  with_shape xs (fun sh => foldr_loop f xs (rev (seq 0 (List.length (items sh)))) z).

(** [L.foldr1] *)
Definition foldr1 (f : callback) (xs : value) : M value :=
  x <- last xs ;;
  rest <- init xs ;;
  foldr f x rest.

(** *** Lists: transformations and special folds *)

(** [L.map] and [L.filter] *)
Definition map (f : callback) (xs : value) : M value :=
  array_method "map" xs (array_map f xs).

Definition filter (f : callback) (xs : value) : M value :=
  array_method "filter" xs (array_filter f xs).

(** [L.reverse] is [L.foldl(L.flip(L.cons), [])]: [z0] is that one array,
    made when the library is loaded. *)
Definition reverse (installed : bool) (z0 : value) (xs : value) : M value :=
  foldl (flip (cons_fn installed)) z0 xs.

(** [L.concatMap], [L.all], [L.any] *)
Definition concatMap (f : callback) (xs : value) : M value :=
  ys <- map f xs ;;
  foldl1 concat_fn ys.

Definition all (p : callback) (xs : value) : M value :=
  ys <- map p xs ;;
  foldl and_fn (VBool true) ys.

Definition any (p : callback) (xs : value) : M value :=
  ys <- map p xs ;;
  foldl or_fn (VBool false) ys.

(** [L.maximum] and [L.minimum] *)
Definition maximum (installed : bool) (fuel : nat) (xs : value) : M value :=
  foldl1 (max_fn installed fuel) xs.

Definition minimum (installed : bool) (fuel : nat) (xs : value) : M value :=
  foldl1 (min_fn installed fuel) xs.

(** *** Lists: building lists *)

(** [L.replicate]: the loop [for (i = 0; i < n; i++) r[i] = x], which adds
    an element to [r] while [i] is an index of an array; [None] where it
    goes on longer than the fuel. *)
Fixpoint replicate_loop (fuel : nat) (i : number) (n x : value) (r : list value)
  : option (list value) :=
  match fuel with
  | 0 => None
  | S fuel' =>
      match less (VNumber i) n with
      | Some true =>
          if (Z.of_nat (List.length r) <? 2 ^ 32 - 1)%Z
          then replicate_loop fuel' (num_add i (num_of_Z 1)) n x (r ++ [x])
          else None
      | Some false => Some r
      | None => None
      end
  end.

Definition replicate (fuel : nat) (n x : value) : M value :=
  match replicate_loop fuel (num_of_Z 0) n x [] with
  | Some r => new_array r
  | None => unmodelled
  end.

(** [L.range]: the loop [for (i = a; i <= b; i++) xs.push(i)]. *)
Fixpoint range_loop (fuel : nat) (i b : value) (xs : list value)
  : option (list value) :=
  match fuel with
  | 0 => None
  | S fuel' =>
      match less_or_equal i b, ToNumber i with
      | Some true, Some n =>
          if (Z.of_nat (List.length xs) <? 2 ^ 32 - 1)%Z
          then range_loop fuel' (VNumber (num_add n (num_of_Z 1))) b (xs ++ [i])
          else None
      | Some false, _ => Some xs
      | _, _ => None
      end
  end.

Definition range (fuel : nat) (a b : value) : M value :=
  match range_loop fuel a b [] with
  | Some xs => new_array xs
  | None => unmodelled
  end.

(** *** Lists: sublists *)

(** [L.take], [L.drop], [L.splitAt] *)
Definition take (i xs : value) : M value :=
  slice_call xs (VNumber (num_of_Z 0)) i.

Definition drop (i xs : value) : M value :=
  slice_call xs i VUndefined.

Definition splitAt (n xs : value) : M value :=
  front <- take n xs ;;
  back <- drop n xs ;;
  new_array [front; back].

(** The loop of [takeWhile], [dropWhile] and [span]:
    [while (i < len && p(xs[i])) i++], from [i] with [steps] indices left;
    it returns the [i] it ends on. *)
Fixpoint while_loop (p : callback) (xs : value) (i steps : nat) : M nat :=
  match steps with
  | 0 => ret i
  | S steps' =>
      x <- item xs i ;;
      c <- p [x] ;;
      if ToBoolean c then while_loop p xs (S i) steps' else ret i
  end.

(** [L.takeWhile] and [L.dropWhile] *)
Definition takeWhile (p : callback) (xs : value) : M value :=
  with_shape xs (fun sh =>
    i <- while_loop p xs 0 (List.length (items sh)) ;;
    take (index i) xs).

Definition dropWhile (p : callback) (xs : value) : M value :=
  with_shape xs (fun sh =>
    i <- while_loop p xs 0 (List.length (items sh)) ;;
    drop (index i) xs).

(** [L.span]: the same loop, which also pushes [xs[i]], read anew, on
    [left]. *)
Fixpoint span_loop (p : callback) (xs : value) (i steps : nat) (left : list value)
  : M (nat * list value) :=
  match steps with
  | 0 => ret (i, left)
  | S steps' =>
      x <- item xs i ;;
      c <- p [x] ;;
      if ToBoolean c
      then x' <- item xs i ;; span_loop p xs (S i) steps' (left ++ [x'])
      else ret (i, left)
  end.

Definition span (p : callback) (xs : value) : M value :=
  with_shape xs (fun sh =>
    r <- span_loop p xs 0 (List.length (items sh)) [] ;;
    left <- new_array (snd r) ;;
    right <- slice_call xs (index (fst r)) VUndefined ;;
    new_array [left; right]).

(** *** Lists: searching *)

(** [L.elem] and [L.notElem] *)
Definition elem (x xs : value) : M value := any (eq_fn x) xs.

Definition notElem (installed : bool) (x xs : value) : M value :=
  r <- elem x xs ;;
  h <- store_now ;;
  lift (not installed h r).

(** *** Lists: zipping *)

(** [L.zipWith] *)
Fixpoint zip_loop (f : callback) (xs ys : value) (i steps : nat) : M (list value) :=
  match steps with
  | 0 => ret []
  | S steps' =>
      x <- item xs i ;;
      y <- item ys i ;;
      r <- f [x; y] ;;
      rs <- zip_loop f xs ys (S i) steps' ;;
      ret (r :: rs)
  end.

Definition zipWith (f : callback) (xs ys : value) : M value :=
  with_shape xs (fun shx =>
  with_shape ys (fun shy =>
    rs <- zip_loop f xs ys 0 (min (List.length (items shx)) (List.length (items shy))) ;;
    new_array rs)).

(** [L.zip], with [function (x, y) { return [x, y]; }] *)
Definition zip (xs ys : value) : M value :=
  zipWith (fun args => new_array [arg 0 args; arg 1 args]) xs ys.

(** *** Lists: set operations *)

(** [L.nub] is [L.foldl(function (ys, x) {...}, [])]: [z0] is that one
    array, made when the library is loaded. *)
Definition nub_step (installed : bool) : callback :=
  fun args =>
    e <- elem (arg 1 args) (arg 0 args) ;;
    cond e (ret (arg 0 args)) (append installed (arg 1 args) (arg 0 args)).

Definition nub (installed : bool) (z0 : value) (xs : value) : M value :=
  foldl (nub_step installed) z0 xs.

(** *** Objects

    The functions on objects read and write properties by name.  The model
    follows them on the property names that are Strings and on the objects
    whose properties it knows in full (plain objects, arrays, dates, the
    wrappers of primitive values); elsewhere there is no answer. *)

(** ToString of a property name. *)
Definition property_name (p : value) : option string :=
  match p with
  | VString s => Some s
  | _ => None
  end.

(** The names every object inherits from [Object.prototype] (ES5 15.2.4,
    and Annex B as V8 has it). *)
Definition inherited_names : list string :=
  ["constructor"; "toString"; "toLocaleString"; "valueOf"; "hasOwnProperty";
   "isPrototypeOf"; "propertyIsEnumerable"; "__proto__"; "__defineGetter__";
   "__defineSetter__"; "__lookupGetter__"; "__lookupSetter__"].

Definition inherited (name : string) : bool :=
  existsb (String.eqb name) inherited_names.

(** The own properties of an Array or of a String: the indices and
    [length]. *)
Definition own_of_list (vs : list value) : list (string * value) :=
  (indexed vs ++ [("length", index (List.length vs))])%list.

(** The own properties of a value, enumerable or not; [None] for the
    classes of objects that have more of them than the model keeps. *)
Definition own_properties (h : heap) (obj : value) : option (list (string * value)) :=
  match obj with
  | VUndefined | VNull | VBool _ | VNumber _ => Some []
  | VString s => Some (own_of_list (chars s))
  | VObject l =>
      match h l with
      | OPlain props => Some props
      | OArray elems => Some (own_of_list elems)
      | ODate _ => Some []
      | _ => None
      end
  end.

Definition lift_bool (c : option (completion bool)) : M bool :=
  match c with
  | Some (Return b) => ret b
  | Some (Throw e) => raise (Native e)
  | None => unmodelled
  end.

(** [Object.prototype.hasOwnProperty] applied to [obj] (ES5 15.2.4.5). *)
Definition HasOwnProperty (h : heap) (obj : value) (name : string)
  : option (completion bool) :=
  match obj with
  | VUndefined | VNull =>
      Some (Throw (TypeError "Cannot convert undefined or null to object"))
  | _ =>
      match own_properties h obj with
      | Some props =>
          Some (Return (match assoc name props with Some _ => true | None => false end))
      | None => None
      end
  end.

(** The value of an own property. *)
Definition own_value (h : heap) (obj : value) (name : string) : value :=
  match own_properties h obj with
  | Some props => match assoc name props with Some v => v | None => VUndefined end
  | None => VUndefined
  end.

(** [obj[name]]: an own property, else [undefined] where no prototype has
    the name; a TypeError on [null] and [undefined] (its message, like the
    others of the engine, in the words of V8).  The model follows it on
    plain objects, arrays and dates. *)
Definition read (h : heap) (obj : value) (name : string) : M value :=
  match obj with
  | VUndefined =>
      raise (Native (TypeError ("Cannot read property '" ++ name ++ "' of undefined")))
  | VNull =>
      raise (Native (TypeError ("Cannot read property '" ++ name ++ "' of null")))
  | VObject l =>
      match own_properties h obj with
      | Some props =>
          match assoc name props, h l with
          | Some v, _ => ret v
          | None, (OPlain _ | ODate _) =>
              if inherited name then unmodelled else ret VUndefined
          | None, _ => unmodelled
          end
      | None => unmodelled
      end
  | _ => unmodelled
  end.

(** [obj.hasOwnProperty(name)]: the method is looked up on [obj], where an
    own property of that name stands in front of the inherited one. *)
Definition call_hasOwnProperty (h : heap) (obj : value) (name : string) : M bool :=
  match obj with
  | VUndefined =>
      raise (Native (TypeError "Cannot read property 'hasOwnProperty' of undefined"))
  | VNull =>
      raise (Native (TypeError "Cannot read property 'hasOwnProperty' of null"))
  | _ =>
      match own_properties h obj with
      | Some props =>
          match assoc "hasOwnProperty" props with
          | Some f =>
              if typeof h f =? "function" then unmodelled
              else raise (Native (TypeError "obj.hasOwnProperty is not a function"))
          | None => lift_bool (HasOwnProperty h obj name)
          end
      | None => unmodelled
      end
  end.

(** [{}] with these properties. *)
Definition new_object (props : list (string * value)) : M value :=
  fun st => let '(l, st') := alloc (OPlain props) st in Some (Ok (VObject l), st').

(** The properties after [o[name] = v]: the value of [name] replaced where
    it is, else added after the others. *)
Fixpoint update (name : string) (v : value) (props : list (string * value))
  : list (string * value) :=
  match props with
  | [] => [(name, v)]
  | (k, w) :: rest =>
      if String.eqb k name then (k, v) :: rest else (k, w) :: update name v rest
  end.

(** [target[name] = v] on a plain object, and on an array for an index up
    to its length (an assignment to [__proto__] changes the prototype, one
    to another name of an array or to a further index has no model). *)
Definition put (target : value) (name : string) (v : value) : M value :=
  fun st =>
    match target with
    | VObject l =>
        match heap_of st l with
        | OPlain props =>
            if name =? "__proto__" then None
            else Some (Ok v, write l (OPlain (update name v props)) st)
        | OArray elems =>
            match List.find (fun i => index_key i =? name)
                            (seq 0 (S (List.length elems))) with
            | Some i =>
                if (Z.of_nat i <? 2 ^ 32 - 1)%Z
                then Some (Ok v, write l (OArray (firstn i elems ++ v :: skipn (S i) elems)) st)
                else None
            | None => None
            end
        | _ => None
        end
    | _ => None
    end.

(** [L.has] *)
Definition has (obj key : value) : M value :=
  h <- store_now ;;
  match property_name key with
  | Some name => b <- lift_bool (HasOwnProperty h obj name) ;; ret (VBool b)
  | None => unmodelled
  end.

(** The properties [for (k in obj)] visits, with [obj[k]]: the own
    enumerable ones (no built-in prototype has an enumerable property);
    none for a primitive value other than a String. *)
Definition enumerable (h : heap) (obj : value) : option (list (string * value)) :=
  match obj with
  | VUndefined | VNull | VBool _ | VNumber _ => Some []
  | VString s => Some (indexed (chars s))
  | VObject l =>
      match h l with
      | OBuffer _ => None
      | o => Some (own_props o)
      end
  end.

(** [L.shallowClone]: [slice.call(obj)] of an Array, else a new object with
    the properties that [for (k in obj) newobj[k] = obj[k]] gives it. *)
Definition shallowClone (obj : value) : M value :=
  h <- store_now ;;
  if isArray h obj then slice_call obj VUndefined VUndefined
  else
    match enumerable h obj with
    | Some props =>
        if existsb (fun kv => fst kv =? "__proto__") props then unmodelled
        else new_object props
    | None => unmodelled
    end.

(** The path of [L.get] and [L.set]: [path] itself, or [[path]]. *)
Definition as_path (path : value) : M value :=
  h <- store_now ;;
  if isArray h path then ret path else new_array [path].

(** [L.get] *)
Fixpoint get (fuel : nat) (obj path : value) : M value :=
  match fuel with
  | 0 => unmodelled
  | S fuel' =>
      path <- as_path path ;;
      e <- empty path ;;
      cond e (ret obj)
           (p <- head path ;;
            ps <- tail path ;;
            h <- store_now ;;
            match property_name p with
            | Some name =>
                own <- call_hasOwnProperty h obj name ;;
                if (own : bool) then get fuel' (own_value h obj name) ps
                else ret VUndefined
            | None => unmodelled
            end)
  end.

(** [L.set] *)
Fixpoint set (fuel : nat) (obj path val : value) : M value :=
  match fuel with
  | 0 => unmodelled
  | S fuel' =>
      path <- as_path path ;;
      e <- empty path ;;
      cond e (ret val)
           (newobj <- shallowClone obj ;;
            p <- head path ;;
            ps <- tail path ;;
            match property_name p with
            | Some name =>
                h <- store_now ;;
                child <- read h obj name ;;
                v <- (if isObject h child
                      then clone <- shallowClone child ;; set fuel' clone ps val
                      else fresh <- new_object [] ;; set fuel' fresh ps val) ;;
                _ <- put newobj name v ;;
                ret newobj
            | None => unmodelled
            end)
  end.

(** [L.deepClone], which calls [map] without the [L.]. *)
Fixpoint clone_each (clone : value -> M value) (props : list (string * value))
  : M (list (string * value)) :=
  match props with
  | [] => ret []
  | (k, v) :: rest =>
      v' <- clone v ;;
      rest' <- clone_each clone rest ;;
      ret ((k, v') :: rest')
  end.

Fixpoint deepClone (installed : bool) (fuel : nat) (obj : value) : M value :=
  match fuel with
  | 0 => unmodelled
  | S fuel' =>
      h <- store_now ;;
      if isArray h obj then
        if installed
        then map (fun args => deepClone installed fuel' (arg 0 args)) obj
        else raise (Native (not_defined "map"))
      else if isObject h obj then
        match enumerable h obj with
        | Some props =>
            if existsb (fun kv => fst kv =? "__proto__") props then unmodelled
            else props' <- clone_each (deepClone installed fuel') props ;;
                 new_object props'
        | None => unmodelled
        end
      else ret obj
  end.

(** [L.keys] is [Object.keys]. *)
Definition keys (obj : value) : M value :=
  h <- store_now ;;
  match Object_keys h obj with
  | Return names => new_array (List.map VString names)
  | Throw e => raise (Native e)
  end.

(** [L.values] and [L.pairs] *)
Definition values (fuel : nat) (obj : value) : M value :=
  names <- keys obj ;;
  map (curried 2 (fun args => get fuel (arg 0 args) (arg 1 args)) [obj]) names.

Definition pairs (obj : value) : M value :=
  names <- keys obj ;;
  map (fun args =>
         h <- store_now ;;
         match property_name (arg 0 args) with
         | Some name => v <- read h obj name ;; new_array [arg 0 args; v]
         | None => unmodelled
         end) names.

(** *** Functions and utilities on callbacks *)

(** [L.compose(a, b)]: the function that gives all its arguments to [b]
    and the result to [a]. *)
Definition compose (a b : callback) : callback :=
  fun args => r <- b args ;; a [r].

(** [L.id] *)
Definition id : callback := fun args => ret (arg 0 args).

(** [L.until]: [None] where the loop goes on longer than the fuel. *)
Fixpoint until (fuel : nat) (p f : callback) (r : value) : M value :=
  match fuel with
  | 0 => unmodelled
  | S fuel' =>
      c <- p [r] ;;
      if ToBoolean c then ret r
      else r' <- f [r] ;; until fuel' p f r'
  end.

End L.

(** ** Stores and values used in the examples *)

Definition store (objects : list object) : heap :=
  fun l => nth l objects (OPlain []).

Definition num (z : Z) : value := VNumber (num_of_Z z).

Definition ex_heap : heap :=
  store [ OArguments [num 1];                       (* 0: arguments of f(1) *)
          OArray [num 1];                           (* 1: [1] *)
          OArguments [num 1];                       (* 2: arguments of g(1) *)
          OPlain [];                                (* 3: {} *)
          OArray [];                                (* 4: [] *)
          OPlain [("0", num 1)];                    (* 5: {"0": 1} *)
          OArray [VString "a"];                     (* 6: ["a"] *)
          OArray [num 1; num 2; num 3];             (* 7: [1,2,3] *)
          OArray [num 1; num 2; num 4];             (* 8: [1,2,4] *)
          OPlain [("a", num 1); ("b", VObject 10)]; (* 9: {a:1, b:{c:2}} *)
          OPlain [("c", num 2)];                    (* 10 *)
          OPlain [("b", VObject 12); ("a", num 1)]; (* 11: {b:{c:3}, a:1} *)
          OPlain [("c", num 3)];                    (* 12 *)
          OPlain [("a", num 1); ("b", VObject 14)]; (* 13: {a:1, b:{c:2}} *)
          OPlain [("c", num 2)];                    (* 14 *)
          OArray [num 1; num 2]                     (* 15: [1,2] *) ].

(** Two records that hold the argument lists of two calls under the same
    key. *)
Definition ex_nested : heap :=
  store [ OArguments [num 1];                       (* 0: arguments of f(1) *)
          OArguments [num 1];                       (* 1: arguments of g(1) *)
          OPlain [("a", VObject 0); ("x", num 1)];  (* 2: {a: arguments, x: 1} *)
          OPlain [("x", num 1); ("a", VObject 1)]   (* 3: {x: 1, a: arguments} *) ].

(** The eight type tests on [x], in the order in which [type] tries them,
    and the names that [type] gives them. *)
Definition type_tests (h : heap) (x : L.tested) : list bool :=
  [L.Tested.isArray h x; L.Tested.isFunction h x; L.Tested.isObject h x;
   L.Tested.isString h x; L.Tested.isNumber h x; L.Tested.isBoolean h x;
   L.Tested.isNull x; L.Tested.isUndefined x].

Definition type_names : list string :=
  ["array"; "function"; "object"; "string";
   "number"; "boolean"; "null"; "undefined"]%string.

(** [function (a, b) { return a + b; }] on Numbers. *)
Definition add_fn : L.function (A := value) (R := value) :=
  {| L.fn_length := 2;
     L.fn_apply := fun args => L.plus (nth 0 args VUndefined) (nth 1 args VUndefined) |}.

(** ** Notions used in the statements *)

(** The one value that is not identical to itself. *)
Definition is_NaN (v : value) : bool :=
  match v with VNumber S754_nan => true | _ => false end.

Definition is_function (o : object) : bool :=
  match o with OFunction _ _ => true | _ => false end.

(** The first five rules of [eqv] do not decide: the call goes on to
    [objEquiv]. *)
Definition reaches_objEquiv (h : heap) (a b : value) : bool :=
  negb (strict_eq a b)
  && negb (L.hasBuffer && Buffer_isBuffer h a && Buffer_isBuffer h b)
  && negb (instanceof_Date h a && instanceof_Date h b)
  && negb (instanceof_RegExp h a && instanceof_RegExp h b)
  && negb (negb (typeof h a =? "object")%string && negb (typeof h b =? "object")%string).

(** The values that [eqv] can come to from [a]: [a] itself and, step by step,
    the values of the own enumerable properties. *)
Inductive reachable (h : heap) (a : value) : value -> Prop :=
| reachable_here : reachable h a a
| reachable_property (l : loc) (key : string) (v : value) :
    reachable h a (VObject l) ->
    In (key, v) (own_props (h l)) ->
    reachable h a v.

(** No argument list is [a] or is reachable from [a]. *)
Definition no_arguments_in (h : heap) (a : value) : Prop :=
  forall v, reachable h a v -> L.isArgumentsObject h v = false.

(** [p * 2^n], the shift that [shl_align] does. *)
Definition shiftl_pos (p : positive) (n : Z) : positive :=
  match n with Zpos k => Pos.iter xO p k | _ => p end.

(** The binary64 value of [(-1)^s * p] for [p] below [2^53]: [p], shifted to
    53 digits. *)
Definition canonical (s : bool) (p : positive) : number :=
  S754_finite s (shiftl_pos p (53 - Zpos (digits2_pos p))%Z)
              (Zpos (digits2_pos p) - 53)%Z.

(** Two answers of the ordering predicates that tell the same: the same
    boolean, an exception each, or no end within the depth each. *)
Definition agree (r r' : L.result) : Prop :=
  match r, r' with
  | Some (Return x), Some (Return y) => x = y
  | Some (Throw _), Some (Throw _) => True
  | None, None => True
  | _, _ => False
  end.

(** A later state of the store: the objects there were are as they were,
    objects may have been added. *)
Definition extends (st st' : L.state) : Prop :=
  L.next st <= L.next st'
  /\ forall l, l < L.next st -> L.heap_of st' l = L.heap_of st l.

(** [v] is an array made between [st] and [st'], with these elements. *)
Definition new_in (st st' : L.state) (v : value) (elems : list value) : Prop :=
  exists l, v = VObject l
            /\ L.next st <= l < L.next st'
            /\ L.heap_of st' l = OArray elems.

(** A value of the state [st]: a primitive value, or an object of its
    store. *)
Definition in_store (st : L.state) (v : value) : Prop :=
  match v with VObject l => l < L.next st | _ => True end.

(** Callbacks that compute their result from their first argument, or from
    their first two, and neither read nor write the store:
    [function (x) { return g(x); }]. *)
Definition unary (g : value -> value) : L.callback :=
  fun args => L.ret (g (L.arg 0 args)).

Definition binary (g : value -> value -> value) : L.callback :=
  fun args => L.ret (g (L.arg 0 args) (L.arg 1 args)).

(** A callback that computes its result from the list of its arguments. *)
Definition pure (g : list value -> value) : L.callback :=
  fun args => L.ret (g args).

(** What [nub] keeps: [x] joins the values seen when it is identical
    ([===]) to none of them. *)
Definition keep_new (seen : list value) (x : value) : list value :=
  if existsb (strict_eq x) seen then seen else seen ++ [x].

Definition first_occurrences (seen xs : list value) : list value :=
  fold_left keep_new xs seen.

(** The number of items at the head of a list on which [p] holds. *)
Fixpoint prefix_length (p : value -> bool) (xs : list value) : nat :=
  match xs with
  | x :: xs' => if p x then S (prefix_length p xs') else 0
  | [] => 0
  end.

(** A store of plain objects, arrays and dates in which no plain object has
    an own property [hasOwnProperty] or [__proto__], and every value kept
    in an object is a value of the store. *)
Definition tame (st : L.state) : Prop :=
  forall l,
    match L.heap_of st l with
    | OPlain props =>
        assoc "hasOwnProperty" props = None
        /\ assoc "__proto__" props = None
        /\ forall k v, In (k, v) props -> in_store st v
    | OArray elems => forall v, In v elems -> in_store st v
    | ODate _ => True
    | _ => False
    end.

(** What following the own properties [names] from [obj] leads to:
    [undefined] as soon as one is missing, a TypeError when it goes on from
    [null] or [undefined]. *)
Fixpoint lookup (h : heap) (obj : value) (names : list string) : completion value :=
  match names with
  | [] => Return obj
  | name :: rest =>
      match obj with
      | VUndefined =>
          Throw (TypeError "Cannot read property 'hasOwnProperty' of undefined")
      | VNull => Throw (TypeError "Cannot read property 'hasOwnProperty' of null")
      | _ =>
          match L.own_properties h obj with
          | Some props =>
              match assoc name props with
              | Some v => lookup h v rest
              | None => Return VUndefined
              end
          | None => Return VUndefined
          end
      end
  end.

Definition outcome_of (c : completion value) : L.outcome value :=
  match c with
  | Return v => L.Ok v
  | Throw e => L.Raise (L.Native e)
  end.

(** A store for the examples on objects: [{a: 1, b: {c: 2}}], [{c: 2}] and
    the paths [["b", "c"]] and [["b", "x", "y"]]. *)
Definition ex_objects : heap :=
  store [ OPlain [("a", num 1); ("b", VObject 1)];
          OPlain [("c", num 2)];
          OArray [VString "b"; VString "c"];
          OArray [VString "b"; VString "x"; VString "y"] ].

(** * Properties *)

Import List.
Open Scope list_scope.
Open Scope nat_scope.
Unset Implicit Arguments.

(** ** The examples of the documentation *)

Example eqv_records :
  L.eqv 3 ex_heap (VObject 9) (VObject 13) = Some (Return true)
  /\ L.eqv 3 ex_heap (VObject 9) (VObject 11) = Some (Return false).
Proof. split; reflexivity. Qed.

Example eqv_arrays :
  L.eqv 2 ex_heap (VObject 7) (VObject 7) = Some (Return true)
  /\ L.eqv 2 ex_heap (VObject 7) (VObject 15) = Some (Return false)
  /\ L.eqv 2 ex_heap (VObject 7) (VObject 8) = Some (Return false).
Proof. repeat split. Qed.

Example eqv_coerces_scalars :
  L.eqv 1 ex_heap (num 1) (VString "1") = Some (Return true)
  /\ L.eqv 1 ex_heap (VBool true) (num 1) = Some (Return true)
  /\ L.eqv 1 ex_heap (VString "a") (VString "b") = Some (Return false).
Proof. repeat split. Qed.

Example lt_gt_numbers :
  L.lt 1 ex_heap (num 2) (num 4) = Some (Return true)
  /\ L.lt 1 ex_heap (num 5) (num 1) = Some (Return false)
  /\ L.lt 1 ex_heap (num 3) (num 3) = Some (Return false)
  /\ L.gt 1 ex_heap (num 5) (num 1) = Some (Return true).
Proof. repeat split. Qed.

Example lt_arrays_lexicographic :
  L.lt 2 ex_heap (VObject 7) (VObject 8) = Some (Return true)
  /\ L.lt 2 ex_heap (VObject 15) (VObject 7) = Some (Return true)
  /\ L.gt 2 ex_heap (VObject 7) (VObject 15) = Some (Return true).
Proof. repeat split. Qed.

Example curry_three :
  L.curry_chain add_fn [] [[num 1]; [num 2]] = (Some (L.Result (num 3)), [[num 1; num 2]])
  /\ L.curry_chain add_fn [] [[num 1; num 2]] = (Some (L.Result (num 3)), [[num 1; num 2]])
  /\ L.curry_chain add_fn [num 1] [[num 2]] = (Some (L.Result (num 3)), [[num 1; num 2]]).
Proof. repeat split. Qed.

(** ** The curry engine *)

Section CurryFacts.
Context {A R : Type}.
Implicit Types (fn : L.function (A := A) (R := R)) (pre last : list A)
         (groups : list (list A)).

(** While fewer than [n] arguments have come the chain only grows the list
    it closes over, and the target is not applied. *)
Lemma call_chain_unsaturated groups : forall n fn pre,
    List.length (pre ++ concat groups)%list < n ->
    L.call_chain (L.Curried (L.Closure n fn pre)) groups
    = (Some (L.Curried (L.Closure n fn (pre ++ concat groups)%list)), []).
Proof.
  induction groups as [|g groups IH]; intros n fn pre Hlt; cbn [L.call_chain concat] in *.
  - now rewrite app_nil_r.
  - unfold L.call, L.ncurry; cbn [L.c_n L.c_fn L.c_largs].
    rewrite app_assoc in Hlt.
    assert (Hg : List.length (pre ++ g)%list < n)
      by (rewrite length_app in Hlt; lia).
    apply Nat.ltb_lt in Hg as Hg1. rewrite Hg1.
    apply Nat.leb_gt in Hg as Hg2. rewrite Hg2.
    rewrite (IH n fn (pre ++ g)%list Hlt). now rewrite <- app_assoc.
Qed.

(** The call that brings the [n]th argument applies the target, once, to
    the first [n] arguments. *)
Lemma call_saturates n fn pre last :
  List.length pre < n ->
  n <= List.length (pre ++ last)%list ->
  L.call (L.Closure n fn pre) last
  = (L.Result (L.fn_apply fn (firstn n (pre ++ last)%list)),
     [firstn n (pre ++ last)%list]).
Proof.
  intros _ Hle. unfold L.call; cbn [L.c_n L.c_fn L.c_largs].
  apply Nat.ltb_ge in Hle. now rewrite Hle.
Qed.

Lemma call_chain_saturates groups last n fn pre :
  List.length (pre ++ concat groups)%list < n ->
  n <= List.length (pre ++ concat groups ++ last)%list ->
  L.call_chain (L.Curried (L.Closure n fn pre)) (groups ++ [last])%list
  = (Some (L.Result (L.fn_apply fn (firstn n (pre ++ concat groups ++ last)%list))),
     [firstn n (pre ++ concat groups ++ last)%list]).
Proof.
  revert pre. induction groups as [|g groups IH]; intros pre Hlt Hle;
    cbn [L.call_chain concat app] in *.
  - rewrite app_nil_r in Hlt. now rewrite (call_saturates n fn pre last Hlt Hle).
  - rewrite app_assoc in Hlt. rewrite <- app_assoc, app_assoc in Hle.
    assert (Hg : List.length (pre ++ g)%list < n)
      by (rewrite length_app in Hlt; lia).
    unfold L.call at 1, L.ncurry; cbn [L.c_n L.c_fn L.c_largs].
    apply Nat.ltb_lt in Hg as Hg1. rewrite Hg1.
    apply Nat.leb_gt in Hg as Hg2. rewrite Hg2.
    rewrite (IH (pre ++ g)%list Hlt Hle).
    now rewrite <- !app_assoc.
Qed.

Lemma ncurry_unsaturated n fn pre :
  List.length pre < n ->
  L.ncurry n fn pre = (L.Curried (L.Closure n fn pre), []).
Proof.
  intros Hlt. unfold L.ncurry. apply Nat.leb_gt in Hlt. now rewrite Hlt.
Qed.

Lemma ncurry_saturated n fn pre :
  n <= List.length pre ->
  L.ncurry n fn pre
  = (L.Result (L.fn_apply fn (firstn n pre)), [firstn n pre]).
Proof.
  intros Hle. unfold L.ncurry. apply Nat.leb_le in Hle. now rewrite Hle.
Qed.

Lemma ncurry_chain_saturates n fn pre groups last :
  List.length (pre ++ concat groups)%list < n ->
  n <= List.length (pre ++ concat groups ++ last)%list ->
  L.ncurry_chain n fn pre (groups ++ [last])%list
  = (Some (L.Result (L.fn_apply fn (firstn n (pre ++ concat groups ++ last)%list))),
     [firstn n (pre ++ concat groups ++ last)%list]).
Proof.
  intros Hlt Hle. unfold L.ncurry_chain.
  rewrite ncurry_unsaturated by (rewrite length_app in Hlt; lia).
  now rewrite (call_chain_saturates groups last n fn pre Hlt Hle).
Qed.

(** A list of non-empty groups is empty or ends on a non-empty group. *)
Lemma groups_last groups :
  Forall (fun g => g <> []) groups ->
  groups = []
  \/ exists init last, groups = (init ++ [last])%list
                       /\ List.length (concat init) < List.length (concat groups).
Proof.
  intros Hne. induction groups as [|g0 init _] using rev_ind; [now left|right].
  exists init, g0. split; [reflexivity|].
  apply Forall_app in Hne as [_ Hlast]. inversion_clear Hlast as [|? ? Hg0 _].
  rewrite concat_app, length_app. cbn [concat]. rewrite app_nil_r.
  destruct g0; [congruence | cbn [List.length]; lia].
Qed.

End CurryFacts.

(** C1. For every target [fn] and every way of splitting [n] arguments into
    consecutive non-empty groups, calling the front end that [ncurry(n, fn)]
    returns with each group in turn gives what [fn] gives on all [n]
    arguments in their order, and [fn] is applied exactly once (the log of
    its applications is that one list of arguments).  The same holds of
    [curry(fn)] when [fn.length] is [n]. *)
Theorem curried_groups_same_as_direct_call {A R : Type}
        (fn : L.function (A := A) (R := R)) (n : nat) (groups : list (list A)) :
  Forall (fun g => g <> []) groups ->
  List.length (concat groups) = n ->
  L.ncurry_chain n fn [] groups
  = (Some (L.Result (L.fn_apply fn (concat groups))), [concat groups])
  /\ (L.fn_length fn = n ->
      L.curry_chain fn [] groups
      = (Some (L.Result (L.fn_apply fn (concat groups))), [concat groups])).
Proof.
  intros Hne Hn.
  assert (Hchain : L.ncurry_chain n fn [] groups
                   = (Some (L.Result (L.fn_apply fn (concat groups))), [concat groups])).
  { destruct (groups_last groups Hne) as [-> | (init & last & -> & Hlt)].
    - cbn in Hn. subst n. reflexivity.
    - rewrite Hn in Hlt.
      rewrite (ncurry_chain_saturates n fn [] init last); cbn [app].
      + rewrite concat_app in *. cbn [concat] in *. rewrite app_nil_r in *.
        rewrite <- Hn. now rewrite firstn_all.
      + exact Hlt.
      + rewrite concat_app in Hn. cbn [concat] in Hn. rewrite app_nil_r in Hn. lia. }
  split; [exact Hchain|].
  intros Hlen. unfold L.curry_chain. now rewrite Hlen.
Qed.

Lemma curried_groups_same_as_direct_call_witness :
  Forall (fun g : list value => g <> []) [[num 1]; [num 2]]
  /\ List.length (concat [[num 1]; [num 2]]) = 2
  /\ L.ncurry_chain 2 add_fn [] [[num 1]; [num 2]]
     = (Some (L.Result (num 3)), [[num 1; num 2]]).
Proof.
  assert (Hne : Forall (fun g : list value => g <> []) [[num 1]; [num 2]])
    by (repeat constructor; discriminate).
  split; [exact Hne|]. split; [reflexivity|].
  exact (proj1 (curried_groups_same_as_direct_call add_fn 2 [[num 1]; [num 2]]
                  Hne eq_refl)).
Defined.

(** C2. Whenever the arguments given to the engine, those pre-applied and
    those of the successive calls together, reach the declared arity [n],
    the target is applied to the first [n] of them and to nothing else, once,
    and the result is what it gives on those [n]: at once when the
    pre-applied arguments are already [n] or more, else at the call that
    brings the [n]th argument.  [ncurry(2, function (a, b) { return a + b;
    })(1, 2, 3)] is 3. *)
Theorem arguments_beyond_arity_discarded {A R : Type}
        (fn : L.function (A := A) (R := R)) (n : nat)
        (pre : list A) (groups : list (list A)) (last : list A) :
  (n <= List.length pre ->
   L.ncurry n fn pre
   = (L.Result (L.fn_apply fn (firstn n pre)), [firstn n pre]))
  /\ (List.length (pre ++ concat groups) < n ->
      n <= List.length (pre ++ concat groups ++ last) ->
      L.ncurry_chain n fn pre (groups ++ [last])
      = (Some (L.Result (L.fn_apply fn (firstn n (pre ++ concat groups ++ last)))),
         [firstn n (pre ++ concat groups ++ last)]))
  /\ L.ncurry_chain 2 add_fn [] [[num 1; num 2; num 3]]
     = (Some (L.Result (num 3)), [[num 1; num 2]]).
Proof.
  split; [apply ncurry_saturated|].
  split; [apply ncurry_chain_saturates|].
  vm_compute. reflexivity.
Qed.

Lemma arguments_beyond_arity_discarded_witness :
  L.ncurry 2 add_fn [num 1; num 2; num 3]
  = (L.Result (num 3), [[num 1; num 2]])
  /\ L.ncurry_chain 3 add_fn [num 1] [[]; [num 2]; [num 4; num 5]]
     = (Some (L.Result (num 3)), [[num 1; num 2; num 4]]).
Proof.
  destruct (arguments_beyond_arity_discarded
              add_fn 2 [num 1; num 2; num 3] [] []) as (H1 & _ & _).
  destruct (arguments_beyond_arity_discarded
              add_fn 3 [num 1] [[]; [num 2]] [num 4; num 5]) as (_ & H2 & _).
  split.
  - apply H1. cbn. lia.
  - apply H2; cbn; lia.
Defined.

(** ** Equality operators *)

Lemma num_eqb_refl (x : number) : x <> NaN -> num_eqb x x = true.
Proof.
  unfold num_eqb, SFeqb, NaN. destruct x as [s|s| |s m e]; cbn; intros Hx;
    try reflexivity; try congruence; destruct s; try reflexivity;
    rewrite Z.compare_refl; fold (Pos.compare m m); now rewrite Pos.compare_refl.
Qed.

Lemma num_eqb_sym (x y : number) : num_eqb x y = num_eqb y x.
Proof.
  unfold num_eqb, SFeqb.
  destruct x as [s|s| |s m e], y as [s'|s'| |s' m' e']; cbn; try reflexivity;
    try (destruct s; reflexivity); try (destruct s'; reflexivity);
    try (destruct s, s'; reflexivity).
  destruct s, s'; try reflexivity;
    rewrite (Z.compare_antisym e e'); destruct (e ?= e')%Z; cbn; try reflexivity;
    fold (Pos.compare m m') (Pos.compare m' m);
    rewrite (Pos.compare_antisym m m'); destruct (m ?= m')%positive; reflexivity.
Qed.

Lemma strict_eq_refl (x : value) : is_NaN x = false -> strict_eq x x = true.
Proof.
  destruct x as [| |b|n|s|l]; cbn; intros Hx; try reflexivity.
  - now destruct b.
  - apply num_eqb_refl. unfold NaN. destruct n; congruence.
  - apply String.eqb_refl.
  - apply Nat.eqb_refl.
Qed.

Lemma strict_eq_sym (x y : value) : strict_eq x y = strict_eq y x.
Proof.
  destruct x, y; cbn; try reflexivity.
  - now destruct b, b0.
  - apply num_eqb_sym.
  - apply String.eqb_sym.
  - apply Nat.eqb_sym.
Qed.

Lemma loose_eq_prim_sym (x y : value) : loose_eq_prim x y = loose_eq_prim y x.
Proof.
  destruct x, y; cbn; try reflexivity; try apply num_eqb_sym.
  - now destruct b, b0.
  - apply String.eqb_sym.
Qed.

Lemma loose_eq_sym (h : heap) (x y : value) : loose_eq h x y = loose_eq h y x.
Proof.
  unfold loose_eq.
  destruct x, y; try reflexivity; try apply loose_eq_prim_sym;
    try (destruct (ToPrimitive h l); [apply loose_eq_prim_sym|reflexivity]).
  apply Nat.eqb_sym.
Qed.

(** ** [eqv] *)

Lemma eqv_reaches_objEquiv (fuel : nat) (h : heap) (a b : value) :
  reaches_objEquiv h a b = true ->
  L.eqv (S fuel) h a b = L.objEquiv (L.eqv fuel h) h a b.
Proof.
  unfold reaches_objEquiv. intros H.
  repeat (apply andb_prop in H as [H ?]).
  cbn [L.eqv].
  repeat match goal with
         | H : negb ?c = true |- context [if ?c then _ else _] =>
             apply negb_true_iff in H; rewrite H
         end.
  reflexivity.
Qed.

Lemma eqv_identical (fuel : nat) (h : heap) (a b : value) :
  strict_eq a b = true -> L.eqv (S fuel) h a b = Some (Return true).
Proof. intros H. cbn [L.eqv]. now rewrite H. Qed.

(** C3, amended.  [eqv(x, x)] is true for every value [x] but NaN, primitive
    or composite, by the first rule and whatever the store holds at [x] (a
    value that contains itself included); [eqv(NaN, NaN)] is false. *)
Theorem eqv_reflexive_except_NaN (fuel : nat) (h : heap) (x : value) :
  (is_NaN x = false -> L.eqv (S fuel) h x x = Some (Return true))
  /\ (is_NaN x = true -> L.eqv (S fuel) h x x = Some (Return false)).
Proof.
  split; intros Hx.
  - apply eqv_identical. now apply strict_eq_refl.
  - destruct x as [| |b|n|s|l]; try discriminate. destruct n; try discriminate.
    reflexivity.
Qed.

(** C3, as stated, fails on NaN. *)
Lemma eqv_NaN_not_reflexive :
  L.eqv 1 ex_heap (VNumber NaN) (VNumber NaN) = Some (Return false).
Proof. reflexivity. Qed.

Lemma eqv_reflexive_except_NaN_witness :
  is_NaN (VObject 9) = false
  /\ L.eqv 1 ex_heap (VObject 9) (VObject 9) = Some (Return true)
  /\ is_NaN (VNumber NaN) = true
  /\ L.eqv 1 ex_heap (VNumber NaN) (VNumber NaN) = Some (Return false).
Proof.
  split; [reflexivity|]. split; [|split; [reflexivity|]].
  - apply (proj1 (eqv_reflexive_except_NaN 0 ex_heap (VObject 9))). reflexivity.
  - apply (proj2 (eqv_reflexive_except_NaN 0 ex_heap (VNumber NaN))). reflexivity.
Defined.

(** *** Symmetry *)

Lemma forallb_rev {X : Type} (f : X -> bool) (l : list X) :
  forallb f (rev l) = forallb f l.
Proof.
  induction l as [|x l IH]; [reflexivity|].
  cbn [rev forallb]. rewrite forallb_app, IH. cbn [forallb].
  rewrite andb_true_r. apply andb_comm.
Qed.

Lemma forallb_combine_sym {X : Type} (eqb : X -> X -> bool) :
  (forall x y, eqb x y = eqb y x) ->
  forall xs ys,
    forallb (fun '(x, y) => eqb x y) (combine xs ys)
    = forallb (fun '(x, y) => eqb x y) (combine ys xs).
Proof.
  intros Hsym. induction xs as [|x xs IH]; destruct ys as [|y ys]; try reflexivity.
  cbn [combine forallb]. now rewrite Hsym, IH.
Qed.

Lemma forallb_eqb_combine (ka : list string) : forall kb,
    List.length ka = List.length kb ->
    forallb (fun '(x, y) => String.eqb x y) (combine ka kb) = true ->
    ka = kb.
Proof.
  induction ka as [|x ka IH]; destruct kb as [|y kb]; cbn; try discriminate; [reflexivity|].
  intros Hlen H. apply andb_prop in H as [Hxy H].
  apply String.eqb_eq in Hxy. subst y. f_equal. apply IH; [lia|exact H].
Qed.

Lemma forallb_eqb_same (ks : list string) :
  forallb (fun '(x, y) => String.eqb x y) (combine ks ks) = true.
Proof.
  induction ks as [|k ks IH]; [reflexivity|].
  cbn [combine forallb]. now rewrite String.eqb_refl, IH.
Qed.

Lemma sort_length (ks : list string) : List.length (sort ks) = List.length ks.
Proof.
  assert (Hins : forall k l, List.length (insert_key k l) = S (List.length l)).
  { intros k l. induction l as [|k' l IH]; [reflexivity|].
    cbn [insert_key]. destruct (String.leb k k'); cbn [List.length]; [reflexivity|].
    now rewrite IH. }
  induction ks as [|k ks IH]; [reflexivity|].
  cbn [sort fold_right]. fold (sort ks). now rewrite Hins, IH.
Qed.

Lemma same_octets_sym (h : heap) (a b : value) : L.same_octets h a b = L.same_octets h b a.
Proof.
  unfold L.same_octets. destruct a as [| | | | |x], b as [| | | | |y]; try reflexivity.
  destruct (h x), (h y); try reflexivity.
  rewrite (Nat.eqb_sym (List.length octets)).
  destruct (negb _); [reflexivity|].
  apply (forallb_combine_sym N.eqb). intros; apply N.eqb_sym.
Qed.

Lemma same_time_sym (h : heap) (a b : value) : L.same_time h a b = L.same_time h b a.
Proof.
  unfold L.same_time. destruct a as [| | | | |x], b as [| | | | |y]; try reflexivity.
  destruct (h x), (h y); try reflexivity. apply strict_eq_sym.
Qed.

Lemma same_pattern_sym (h : heap) (a b : value) : L.same_pattern h a b = L.same_pattern h b a.
Proof.
  unfold L.same_pattern. destruct a as [| | | | |x], b as [| | | | |y]; try reflexivity.
  destruct (h x), (h y); try reflexivity.
  now rewrite (strict_eq_sym (VString source)), (strict_eq_sym (VBool global)),
    (strict_eq_sym (VBool multiline)), (strict_eq_sym lastIndex),
    (strict_eq_sym (VBool ignoreCase)).
Qed.

Lemma In_insert_key (k k' : string) (ks : list string) :
  In k (insert_key k' ks) -> k = k' \/ In k ks.
Proof.
  induction ks as [|k0 ks IH]; cbn [insert_key].
  - intros [->|[]]. now left.
  - destruct (String.leb k' k0).
    + intros [->|H]; [now left|now right].
    + intros [->|H]; [right; now left|].
      destruct (IH H) as [->|H']; [now left|right; now right].
Qed.

Lemma In_sort (k : string) (ks : list string) : In k (sort ks) -> In k ks.
Proof.
  induction ks as [|k' ks IH]; [trivial|].
  cbn [sort fold_right]. fold (sort ks). intros H.
  apply In_insert_key in H as [->|H]; [now left|right; now apply IH].
Qed.

Lemma assoc_In (key : string) (props : list (string * value)) :
  In key (map fst props) ->
  exists v, assoc key props = Some v /\ In (key, v) props.
Proof.
  induction props as [|[k v] props IH]; [intros []|].
  cbn [map fst assoc]. intros Hin.
  destruct (String.eqb_spec k key) as [->|Hne].
  - exists v. split; [reflexivity|now left].
  - destruct Hin as [Heq|Hin]; [congruence|].
    destruct (IH Hin) as (w & Hw & Hin'). exists w. split; [exact Hw|now right].
Qed.

Section Symmetry.
Variable h : heap.

Lemma reachable_trans (a v w : value) :
  reachable h a v -> reachable h v w -> reachable h a w.
Proof.
  intros Hav Hvw. induction Hvw as [|l key w Hvl IH Hin]; [exact Hav|].
  now apply reachable_property with (l := l) (key := key).
Qed.

(** The value that [objEquiv] reads at a key of an object has no argument
    list in it when the object has none. *)
Lemma no_arguments_in_Get (a : value) (keys : list string) (key : string) :
  no_arguments_in h a ->
  Object_keys h a = Return keys ->
  In key keys ->
  no_arguments_in h (Get h a key).
Proof.
  intros Hno Hkeys Hin. destruct a as [| | | | |l]; try discriminate.
  cbn [Object_keys] in Hkeys. injection Hkeys as <-.
  destruct (assoc_In key (own_props (h l)) Hin) as (v & Hv & Hin').
  unfold Get. rewrite Hv.
  intros w Hw. apply Hno. apply reachable_trans with (v := v); [|exact Hw].
  apply reachable_property with (l := l) (key := key); [constructor|exact Hin'].
Qed.

Lemma same_values_sym (eqv : value -> value -> L.result) (a b : value)
      (keys : list string) :
  (forall key, In key keys ->
               eqv (Get h a key) (Get h b key) = eqv (Get h b key) (Get h a key)) ->
  L.same_values eqv h a b keys = L.same_values eqv h b a keys.
Proof.
  induction keys as [|key keys IH]; intros Hsym; [reflexivity|].
  cbn [L.same_values]. rewrite (Hsym key) by now left.
  destruct (eqv (Get h b key) (Get h a key)) as [[[|]|]|]; try reflexivity.
  apply IH. intros key' Hin. apply Hsym. now right.
Qed.

Lemma objEquiv_sym (eqv : value -> value -> L.result) (a b : value) :
  L.isArgumentsObject h a = false ->
  L.isArgumentsObject h b = false ->
  (forall ka kb key,
      Object_keys h a = Return ka -> Object_keys h b = Return kb ->
      In key ka -> In key kb ->
      eqv (Get h a key) (Get h b key) = eqv (Get h b key) (Get h a key)) ->
  L.objEquiv eqv h a b = L.objEquiv eqv h b a.
Proof.
  intros Ha Hb Hsym. unfold L.objEquiv.
  rewrite (orb_comm (L.is_null_or_undefined a)).
  destruct (_ || _); [reflexivity|].
  rewrite (strict_eq_sym (Get h a "prototype")).
  destruct (negb _); [reflexivity|].
  rewrite Ha, Hb.
  destruct (Object_keys h a) as [ka|], (Object_keys h b) as [kb|]; try reflexivity.
  rewrite (Nat.eqb_sym (List.length ka)).
  destruct (List.length kb =? List.length ka) eqn:Hlen; cbn [negb]; [|reflexivity].
  rewrite !forallb_rev, (forallb_combine_sym String.eqb String.eqb_sym (sort ka)).
  destruct (forallb _ _) eqn:Hkeys; cbn [negb]; [|reflexivity].
  apply forallb_eqb_combine in Hkeys;
    [|apply Nat.eqb_eq in Hlen; now rewrite !sort_length].
  rewrite <- Hkeys. apply same_values_sym.
  intros key Hin. apply in_rev in Hin.
  apply (Hsym ka kb key eq_refl eq_refl).
  - apply In_sort. now rewrite <- Hkeys.
  - now apply In_sort.
Qed.

Lemma eqv_sym (fuel : nat) : forall a b,
    no_arguments_in h a -> no_arguments_in h b ->
    L.eqv fuel h a b = L.eqv fuel h b a.
Proof.
  induction fuel as [|fuel IH]; intros a b Ha Hb; [reflexivity|].
  cbn [L.eqv]. rewrite (strict_eq_sym a).
  destruct (strict_eq b a); [reflexivity|].
  rewrite <- !andb_assoc, (andb_comm (Buffer_isBuffer h a)), same_octets_sym.
  destruct (_ && _); [reflexivity|].
  rewrite (andb_comm (instanceof_Date h a)), same_time_sym.
  destruct (_ && _); [reflexivity|].
  rewrite (andb_comm (instanceof_RegExp h a)), same_pattern_sym.
  destruct (_ && _); [reflexivity|].
  rewrite (andb_comm (negb (typeof h a =? "object")%string)), loose_eq_sym.
  destruct (_ && _); [reflexivity|].
  apply objEquiv_sym.
  - apply Ha. constructor.
  - apply Hb. constructor.
  - intros ka kb key Hka Hkb Hina Hinb.
    apply IH; [now apply no_arguments_in_Get with (keys := ka)
              |now apply no_arguments_in_Get with (keys := kb)].
Qed.

End Symmetry.

(** C4, amended.  When no argument list is [a] or [b] or can be reached from
    them through properties, [eqv(a, b)] and [eqv(b, a)] are the same:
    the same boolean, or both a recursion deeper than the given depth. *)
Theorem eqv_symmetric_without_arguments (h : heap) (fuel : nat) (a b : value) :
  no_arguments_in h a ->
  no_arguments_in h b ->
  L.eqv fuel h a b = L.eqv fuel h b a.
Proof. intros Ha Hb. now apply eqv_sym. Qed.

(** C4, as stated, fails on an array and an argument list of the same
    elements: true with the array first, false with the argument list
    first. *)
Lemma eqv_not_symmetric :
  L.eqv 2 ex_heap (VObject 1) (VObject 0) = Some (Return true)
  /\ L.eqv 2 ex_heap (VObject 0) (VObject 1) = Some (Return false).
Proof. split; reflexivity. Qed.

Lemma eqv_symmetric_without_arguments_witness :
  no_arguments_in ex_heap (VObject 9)
  /\ no_arguments_in ex_heap (VObject 13)
  /\ L.eqv 3 ex_heap (VObject 9) (VObject 13) = Some (Return true)
  /\ L.eqv 3 ex_heap (VObject 13) (VObject 9) = Some (Return true).
Proof.
  assert (H9 : no_arguments_in ex_heap (VObject 9)).
  { intros v Hv.
    assert (Hin : In v [VObject 9; num 1; VObject 10; num 2]).
    { induction Hv as [|l key v _ IH Hin]; [now left|].
      destruct IH as [H|[H|[H|[H|[]]]]]; try discriminate H;
        injection H as <-; cbn in Hin;
        repeat (destruct Hin as [Hin|Hin]; [injection Hin as _ <-; cbn; tauto|]);
        destruct Hin. }
    destruct Hin as [<-|[<-|[<-|[<-|[]]]]]; reflexivity. }
  assert (H13 : no_arguments_in ex_heap (VObject 13)).
  { intros v Hv.
    assert (Hin : In v [VObject 13; num 1; VObject 14; num 2]).
    { induction Hv as [|l key v _ IH Hin]; [now left|].
      destruct IH as [H|[H|[H|[H|[]]]]]; try discriminate H;
        injection H as <-; cbn in Hin;
        repeat (destruct Hin as [Hin|Hin]; [injection Hin as _ <-; cbn; tauto|]);
        destruct Hin. }
    destruct Hin as [<-|[<-|[<-|[<-|[]]]]]; reflexivity. }
  split; [exact H9|]. split; [exact H13|]. split; [reflexivity|].
  rewrite (eqv_symmetric_without_arguments ex_heap 3 (VObject 13) (VObject 9) H13 H9).
  reflexivity.
Defined.

(** *** Objects with the same keys *)

Lemma index_key_not_prototype (i : nat) : index_key i <> "prototype"%string.
Proof. unfold index_key. destruct (Nat.to_uint i); discriminate. Qed.

Lemma assoc_absent (key : string) (keys : list string) : forall vs,
    ~ In key keys -> assoc key (combine keys vs) = None.
Proof.
  induction keys as [|k keys IH]; intros [|v vs] Hin; try reflexivity.
  cbn [combine assoc]. destruct (String.eqb_spec k key) as [->|_].
  - exfalso. apply Hin. now left.
  - apply IH. intros H. apply Hin. now right.
Qed.

Lemma indexed_no_prototype (vs : list value) : assoc "prototype" (indexed vs) = None.
Proof.
  unfold indexed. apply assoc_absent. intros Hin.
  apply in_map_iff in Hin as (i & Hi & _). now apply index_key_not_prototype in Hi.
Qed.

(** Looking a key up in two objects with the same list of keys finds it at
    the same place in both, or in neither. *)
Lemma assoc_combine_rel (P : value -> value -> Prop) (key : string) (keys : list string) :
  forall xs ys,
    Forall2 P xs ys ->
    match assoc key (combine keys xs), assoc key (combine keys ys) with
    | Some x, Some y => P x y
    | None, None => True
    | _, _ => False
    end.
Proof.
  induction keys as [|k keys IH]; intros xs ys HP; [exact I|].
  destruct HP as [|x y xs ys Hxy HP]; [exact I|].
  cbn [combine assoc]. destruct (String.eqb k key); [exact Hxy|]. now apply IH.
Qed.

Lemma map_fst_indexed (vs : list value) :
  map fst (indexed vs) = map index_key (seq 0 (List.length vs)).
Proof.
  unfold indexed.
  assert (H : forall (ks : list string) (xs : list value),
             List.length ks = List.length xs -> map fst (combine ks xs) = ks).
  { induction ks as [|k ks IH]; intros [|x xs]; cbn; try discriminate; [reflexivity|].
    intros Hlen. f_equal. apply IH. lia. }
  apply H. now rewrite length_map, length_seq.
Qed.

Lemma Get_own (h : heap) (l : loc) (key : string) :
  is_function (h l) = false ->
  Get h (VObject l) key
  = match assoc key (own_props (h l)) with Some v => v | None => VUndefined end.
Proof.
  intros Hf. unfold Get. destruct (assoc key (own_props (h l))); [reflexivity|].
  now destruct (h l).
Qed.

Lemma same_values_all (eqv : value -> value -> L.result) (h : heap) (a b : value) :
  (forall key, eqv (Get h a key) (Get h b key) = Some (Return true)) ->
  forall keys, L.same_values eqv h a b keys = Some (Return true).
Proof.
  intros Hall. induction keys as [|key keys IH]; [reflexivity|].
  cbn [L.same_values]. now rewrite Hall.
Qed.

(** Two objects that are not functions, the first not an argument list, with
    the indices of two lists of pairwise equivalent values as their
    enumerable keys: [objEquiv] finds them equivalent. *)
Lemma objEquiv_indexed (eqv : value -> value -> L.result) (h : heap)
      (la lb : loc) (xs ys : list value) :
  own_props (h la) = indexed xs ->
  own_props (h lb) = indexed ys ->
  is_function (h la) = false ->
  is_function (h lb) = false ->
  L.isArgumentsObject h (VObject la) = false ->
  eqv VUndefined VUndefined = Some (Return true) ->
  Forall2 (fun x y => eqv x y = Some (Return true)) xs ys ->
  L.objEquiv eqv h (VObject la) (VObject lb) = Some (Return true).
Proof.
  intros Ha Hb Hfa Hfb Hargs Hundef Hall.
  assert (Hlen : List.length xs = List.length ys) by now apply Forall2_length in Hall.
  unfold L.objEquiv. cbn [L.is_null_or_undefined strict_eq orb].
  rewrite !Get_own, Ha, Hb, !indexed_no_prototype by assumption.
  cbn [strict_eq negb]. rewrite Hargs.
  unfold Object_keys. rewrite Ha, Hb, !map_fst_indexed, <- Hlen.
  rewrite Nat.eqb_refl, forallb_rev, forallb_eqb_same. cbn [negb].
  apply same_values_all. intros key.
  rewrite !Get_own, Ha, Hb by assumption. unfold indexed. rewrite <- Hlen.
  pose proof (assoc_combine_rel (fun x y => eqv x y = Some (Return true)) key
                (map index_key (seq 0 (List.length xs))) xs ys Hall) as H.
  destruct (assoc key (combine _ xs)), (assoc key (combine _ ys)); tauto.
Qed.

Lemma Forall2_same_not_NaN (fuel : nat) (h : heap) (xs : list value) :
  Forall (fun x => is_NaN x = false) xs ->
  Forall2 (fun x y => L.eqv (S fuel) h x y = Some (Return true)) xs xs.
Proof.
  induction 1 as [|x xs Hx _ IH]; constructor; [|exact IH].
  apply eqv_identical. now apply strict_eq_refl.
Qed.

Lemma different_objects (h : heap) (la lb : loc) :
  h la <> h lb -> (la =? lb) = false.
Proof. intros H. apply Nat.eqb_neq. congruence. Qed.

(** C5, amended.  An argument list in the first place is equivalent to no
    value that is not an argument list, so not to the array of its elements:
    [objEquiv] returns false before it converts anything.  In the other
    order, an array and an argument list that holds the same elements (none
    of them NaN) in the same order are equivalent, through their keys. *)
Theorem eqv_arguments_and_array (fuel : nat) (h : heap) (la lb : loc)
        (xs : list value) (b : value) :
  (h la = OArguments xs ->
   L.isArgumentsObject h b = false ->
   L.eqv (S fuel) h (VObject la) b = Some (Return false))
  /\ (h la = OArray xs ->
      h lb = OArguments xs ->
      Forall (fun x => is_NaN x = false) xs ->
      L.eqv (S (S fuel)) h (VObject la) (VObject lb) = Some (Return true)).
Proof.
  split.
  - intros Ha Hb.
    assert (Hne : strict_eq (VObject la) b = false).
    { destruct b as [| | | | |l]; try reflexivity. cbn [strict_eq].
      apply (different_objects h). intros Heq.
      unfold L.isArgumentsObject in Hb. cbn [class_of] in Hb.
      rewrite <- Heq, Ha in Hb. discriminate. }
    rewrite eqv_reaches_objEquiv.
    + unfold L.objEquiv.
      destruct (L.is_null_or_undefined _ || _); [reflexivity|].
      destruct (negb (strict_eq _ _)); [reflexivity|].
      unfold L.isArgumentsObject at 1. cbn [class_of]. rewrite Ha. cbn.
      now rewrite Hb.
    + unfold reaches_objEquiv. rewrite Hne. cbn. now rewrite Ha.
  - intros Ha Hb Hxs.
    rewrite eqv_reaches_objEquiv.
    + apply objEquiv_indexed with (xs := xs) (ys := xs);
        try (rewrite ?Ha, ?Hb; reflexivity).
      * unfold L.isArgumentsObject. cbn [class_of]. now rewrite Ha.
      * now apply Forall2_same_not_NaN.
    + unfold reaches_objEquiv. cbn.
      rewrite (different_objects h) by (rewrite Ha, Hb; discriminate).
      now rewrite Ha, Hb.
Qed.

(** C5, as stated, fails with the argument list first: [eqv(arguments, [1])]
    inside [f(1)] is false. *)
Lemma eqv_arguments_array_false :
  ex_heap 0 = OArguments [num 1]
  /\ ex_heap 1 = OArray [num 1]
  /\ L.eqv 2 ex_heap (VObject 0) (VObject 1) = Some (Return false).
Proof. repeat split. Qed.

Lemma eqv_arguments_and_array_witness :
  L.eqv 2 ex_heap (VObject 0) (VObject 1) = Some (Return false)
  /\ L.eqv 2 ex_heap (VObject 1) (VObject 0) = Some (Return true).
Proof.
  split.
  - apply (proj1 (eqv_arguments_and_array 1 ex_heap 0 0 [num 1] (VObject 1)));
      reflexivity.
  - apply (proj2 (eqv_arguments_and_array 0 ex_heap 1 0 [num 1] VNull));
      try reflexivity.
    repeat constructor.
Defined.

(** C10.  [eqv] does not tell a record from an array that has the same
    enumerable keys and equivalent values: [eqv({}, [])] and
    [eqv({"0": 1}, [1])] are true, as is [eqv] of any record whose fields are
    the indices of a list of values and any array of values equivalent to
    them one by one.  The check before the keys reads the property
    [prototype] of both, which neither has, and finds [undefined] twice. *)
Theorem eqv_record_and_array (fuel : nat) (h : heap) (la lb : loc)
        (xs ys : list value) :
  L.eqv 1 ex_heap (VObject 3) (VObject 4) = Some (Return true)
  /\ L.eqv 2 ex_heap (VObject 5) (VObject 1) = Some (Return true)
  /\ (h la = OPlain (indexed xs) ->
      h lb = OArray ys ->
      Forall2 (fun x y => L.eqv (S fuel) h x y = Some (Return true)) xs ys ->
      Get h (VObject la) "prototype" = VUndefined
      /\ Get h (VObject lb) "prototype" = VUndefined
      /\ L.eqv (S (S fuel)) h (VObject la) (VObject lb) = Some (Return true)).
Proof.
  split; [reflexivity|]. split; [reflexivity|].
  intros Ha Hb Hall.
  assert (Hpa : Get h (VObject la) "prototype" = VUndefined)
    by (rewrite Get_own, Ha by (now rewrite Ha); cbn [own_props];
        now rewrite indexed_no_prototype).
  assert (Hpb : Get h (VObject lb) "prototype" = VUndefined)
    by (rewrite Get_own, Hb by (now rewrite Hb); cbn [own_props];
        now rewrite indexed_no_prototype).
  split; [exact Hpa|]. split; [exact Hpb|].
  rewrite eqv_reaches_objEquiv.
  - apply objEquiv_indexed with (xs := xs) (ys := ys);
      try (rewrite ?Ha, ?Hb; reflexivity); [|exact Hall].
    unfold L.isArgumentsObject. cbn [class_of]. now rewrite Ha.
  - unfold reaches_objEquiv. cbn.
    rewrite (different_objects h) by (rewrite Ha, Hb; discriminate).
    now rewrite Ha, Hb.
Qed.

Lemma eqv_record_and_array_witness :
  ex_heap 5 = OPlain (indexed [num 1])
  /\ ex_heap 1 = OArray [num 1]
  /\ L.eqv 2 ex_heap (VObject 5) (VObject 1) = Some (Return true).
Proof.
  split; [reflexivity|]. split; [reflexivity|].
  apply (proj2 (proj2 (eqv_record_and_array 0 ex_heap 5 1 [num 1] [num 1])));
    try reflexivity.
  repeat constructor.
Defined.

(** *** What [objEquiv] catches and what it lets through *)

Lemma primitive_not_arguments (h : heap) (a : value) (e : error) :
  Object_keys h a = Throw e -> L.isArgumentsObject h a = false.
Proof. destruct a; cbn; intros H; try reflexivity. discriminate. Qed.

Lemma objEquiv_keys_throw (eqv : value -> value -> L.result) (h : heap)
      (a b : value) (e : error) :
  Object_keys h a = Throw e \/ Object_keys h b = Throw e ->
  L.objEquiv eqv h a b = Some (Return false).
Proof.
  intros H. unfold L.objEquiv.
  destruct (L.is_null_or_undefined _ || _); [reflexivity|].
  destruct (negb (strict_eq _ _)); [reflexivity|].
  destruct H as [H|H].
  - rewrite (primitive_not_arguments h a e H), H. reflexivity.
  - rewrite (primitive_not_arguments h b e H), H. cbn [negb].
    destruct (L.isArgumentsObject h a); [reflexivity|].
    now destruct (Object_keys h a).
Qed.

Lemma same_values_throw (eqv : value -> value -> L.result) (h : heap)
      (a b : value) (e : error) (key : string) (after : list string) :
  forall before,
    (forall k, In k before -> eqv (Get h a k) (Get h b k) = Some (Return true)) ->
    eqv (Get h a key) (Get h b key) = Some (Throw e) ->
    L.same_values eqv h a b (before ++ key :: after) = Some (Throw e).
Proof.
  induction before as [|k before IH]; intros Hbefore Hkey; cbn [app L.same_values].
  - now rewrite Hkey.
  - rewrite (Hbefore k) by now left. apply IH; [|exact Hkey].
    intros k' Hin. apply Hbefore. now right.
Qed.

Lemma same_values_false (eqv : value -> value -> L.result) (h : heap)
      (a b : value) :
  forall keys,
    L.same_values eqv h a b keys = Some (Return false) ->
    exists before key after,
      keys = before ++ key :: after
      /\ (forall k, In k before -> eqv (Get h a k) (Get h b k) = Some (Return true))
      /\ eqv (Get h a key) (Get h b key) = Some (Return false).
Proof.
  induction keys as [|k keys IH]; cbn [L.same_values]; [discriminate|].
  destruct (eqv (Get h a k) (Get h b k)) as [[[|]|e]|] eqn:Hk; intros H;
    try discriminate.
  - destruct (IH H) as (before & key & after & -> & Hbefore & Hkey).
    exists (k :: before), key, after. split; [reflexivity|]. split; [|exact Hkey].
    intros k' [<-|Hin]; [exact Hk|now apply Hbefore].
  - exists [], k, keys. split; [reflexivity|]. split; [|exact Hk].
    intros k' [].
Qed.

Lemma objEquiv_value_loop (eqv : value -> value -> L.result) (h : heap)
      (a b : value) (ka kb : list string) :
  Object_keys h a = Return ka ->
  Object_keys h b = Return kb ->
  strict_eq (Get h a "prototype") (Get h b "prototype") = true ->
  L.isArgumentsObject h a = false ->
  sort ka = sort kb ->
  L.objEquiv eqv h a b = L.same_values eqv h a b (rev (sort ka)).
Proof.
  intros Ha Hb Hproto Hargs Hkeys. unfold L.objEquiv.
  assert (Hobj : L.is_null_or_undefined a || L.is_null_or_undefined b = false).
  { destruct a, b; try discriminate; reflexivity. }
  rewrite Hobj, Hproto, Hargs, Ha, Hb. cbn [negb].
  assert (Hlen : List.length ka = List.length kb).
  { now rewrite <- (sort_length ka), Hkeys, sort_length. }
  rewrite Hlen, Nat.eqb_refl. cbn [negb].
  now rewrite forallb_rev, Hkeys, forallb_eqb_same.
Qed.

Lemma objEquiv_false (eqv : value -> value -> L.result) (h : heap) (a b : value) :
  L.objEquiv eqv h a b = Some (Return false) ->
  L.is_null_or_undefined a = true \/ L.is_null_or_undefined b = true
  \/ strict_eq (Get h a "prototype") (Get h b "prototype") = false
  \/ (L.isArgumentsObject h a = true /\ L.isArgumentsObject h b = false)
  \/ (exists e, Object_keys h a = Throw e \/ Object_keys h b = Throw e)
  \/ exists ka kb,
       Object_keys h a = Return ka /\ Object_keys h b = Return kb
       /\ (List.length ka <> List.length kb
           \/ sort ka <> sort kb
           \/ exists before key after,
                rev (sort ka) = before ++ key :: after
                /\ (forall k, In k before ->
                              eqv (Get h a k) (Get h b k) = Some (Return true))
                /\ eqv (Get h a key) (Get h b key) = Some (Return false)).
Proof.
  unfold L.objEquiv.
  destruct (L.is_null_or_undefined a) eqn:Hna; [now left|].
  destruct (L.is_null_or_undefined b) eqn:Hnb; [now right; left|].
  cbn [orb].
  destruct (strict_eq _ _) eqn:Hproto; cbn [negb]; [|now right; right; left].
  destruct (L.isArgumentsObject h a) eqn:Haa.
  { destruct (L.isArgumentsObject h b) eqn:Hab; cbn [negb]; [discriminate|].
    intros _. right; right; right; left. now split. }
  destruct (Object_keys h a) as [ka|ea] eqn:Hka;
    [|intros _; right; right; right; right; left; exists ea; now left].
  destruct (Object_keys h b) as [kb|eb] eqn:Hkb;
    [|intros _; right; right; right; right; left; exists eb; now right].
  intros H. right; right; right; right; right. exists ka, kb.
  split; [reflexivity|]. split; [reflexivity|].
  destruct (List.length ka =? List.length kb) eqn:Hlen; cbn [negb] in H;
    [|left; now apply Nat.eqb_neq].
  right. rewrite forallb_rev in H.
  destruct (forallb _ _) eqn:Hsame; cbn [negb] in H.
  - right. now apply same_values_false.
  - left. intros Heq. rewrite Heq, forallb_eqb_same in Hsame. discriminate.
Qed.

(** C6.  Whenever [eqv(a, b)] comes to enumerate the keys of [a] and [b] and
    [Object.keys] throws on one of them, [eqv(a, b)] returns false and
    nothing is thrown.  No other failure is recovered from.  On two distinct
    argument lists the ReferenceError of the undeclared [pSlice] comes out
    of [eqv].  In the loop over the values, which is after the [try], what
    the nested [eqv] throws at the first pair of values that is not
    equivalent comes out of [eqv] as it is.  And when [eqv(a, b)] reaches
    [objEquiv] and returns false, it is for one of the tests of [objEquiv]
    or for the keys that could not be enumerated: when both lists of keys
    were enumerated and are the same, a nested [eqv] returned false, and
    every nested call before it returned true. *)
Theorem eqv_recovers_from_key_enumeration_only (fuel : nat) (h : heap)
        (a b : value) (e : error) :
  (Object_keys h a = Throw e \/ Object_keys h b = Throw e ->
   reaches_objEquiv h a b = true ->
   L.eqv (S fuel) h a b = Some (Return false))
  /\ (L.isArgumentsObject h a = true ->
      L.isArgumentsObject h b = true ->
      strict_eq a b = false ->
      L.eqv (S fuel) h a b = Some (Throw (ReferenceError "pSlice is not defined")))
  /\ (forall ka kb before key after,
         reaches_objEquiv h a b = true ->
         Object_keys h a = Return ka ->
         Object_keys h b = Return kb ->
         strict_eq (Get h a "prototype") (Get h b "prototype") = true ->
         L.isArgumentsObject h a = false ->
         sort ka = sort kb ->
         rev (sort ka) = before ++ key :: after ->
         (forall k, In k before ->
                    L.eqv fuel h (Get h a k) (Get h b k) = Some (Return true)) ->
         L.eqv fuel h (Get h a key) (Get h b key) = Some (Throw e) ->
         L.eqv (S fuel) h a b = Some (Throw e))
  /\ (reaches_objEquiv h a b = true ->
      L.eqv (S fuel) h a b = Some (Return false) ->
      L.is_null_or_undefined a = true \/ L.is_null_or_undefined b = true
      \/ strict_eq (Get h a "prototype") (Get h b "prototype") = false
      \/ (L.isArgumentsObject h a = true /\ L.isArgumentsObject h b = false)
      \/ (exists e', Object_keys h a = Throw e' \/ Object_keys h b = Throw e')
      \/ exists ka kb,
           Object_keys h a = Return ka /\ Object_keys h b = Return kb
           /\ (List.length ka <> List.length kb
               \/ sort ka <> sort kb
               \/ exists before key after,
                    rev (sort ka) = before ++ key :: after
                    /\ (forall k, In k before ->
                                  L.eqv fuel h (Get h a k) (Get h b k)
                                  = Some (Return true))
                    /\ L.eqv fuel h (Get h a key) (Get h b key)
                       = Some (Return false))).
Proof.
  split; [|split; [|split]].
  - intros Hkeys Hreach. rewrite (eqv_reaches_objEquiv fuel h a b Hreach).
    now apply objEquiv_keys_throw with (e := e).
  - intros Ha Hb Hne.
    assert (Hobj : exists la lb xs ys,
               a = VObject la /\ b = VObject lb
               /\ h la = OArguments xs /\ h lb = OArguments ys).
    { unfold L.isArgumentsObject in Ha, Hb.
      destruct a as [| | | | |la], b as [| | | | |lb]; try discriminate.
      cbn [class_of] in Ha, Hb.
      destruct (h la) as [| |xs| | | |] eqn:Hla; try discriminate.
      destruct (h lb) as [| |ys| | | |] eqn:Hlb; try discriminate.
      now exists la, lb, xs, ys. }
    destruct Hobj as (la & lb & xs & ys & -> & -> & Hla & Hlb).
    rewrite eqv_reaches_objEquiv.
    + unfold L.objEquiv. cbn [L.is_null_or_undefined strict_eq orb].
      rewrite !Get_own, Hla, Hlb by (rewrite ?Hla, ?Hlb; reflexivity).
      cbn [own_props]. rewrite !indexed_no_prototype. cbn [strict_eq negb].
      now rewrite Ha, Hb.
    + unfold reaches_objEquiv. rewrite Hne. cbn. now rewrite Hla, Hlb.
  - intros ka kb before key after Hreach Hka Hkb Hproto Hargs Hsame Hvisit
           Hbefore Hkey.
    rewrite (eqv_reaches_objEquiv fuel h a b Hreach).
    rewrite (objEquiv_value_loop _ h a b ka kb Hka Hkb Hproto Hargs Hsame), Hvisit.
    now apply same_values_throw.
  - intros Hreach. rewrite (eqv_reaches_objEquiv fuel h a b Hreach).
    apply objEquiv_false.
Qed.

Lemma eqv_recovers_from_key_enumeration_only_witness :
  L.eqv 1 ex_heap (num 1) (VObject 3) = Some (Return false)
  /\ L.eqv 1 ex_heap (VObject 3) (VString "a") = Some (Return false)
  /\ L.eqv 1 ex_heap (VObject 0) (VObject 2)
     = Some (Throw (ReferenceError "pSlice is not defined"))
  /\ L.eqv 2 ex_nested (VObject 2) (VObject 3)
     = Some (Throw (ReferenceError "pSlice is not defined"))
  /\ (exists ka kb,
         Object_keys ex_heap (VObject 9) = Return ka
         /\ Object_keys ex_heap (VObject 11) = Return kb
         /\ (List.length ka <> List.length kb
             \/ sort ka <> sort kb
             \/ exists before key after,
                  rev (sort ka) = before ++ key :: after
                  /\ (forall k, In k before ->
                                L.eqv 2 ex_heap (Get ex_heap (VObject 9) k)
                                      (Get ex_heap (VObject 11) k)
                                = Some (Return true))
                  /\ L.eqv 2 ex_heap (Get ex_heap (VObject 9) key)
                           (Get ex_heap (VObject 11) key)
                     = Some (Return false))).
Proof.
  pose (e := TypeError "Object.keys called on non-object").
  pose (e' := ReferenceError "pSlice is not defined").
  split; [|split; [|split; [|split]]].
  - apply (proj1 (eqv_recovers_from_key_enumeration_only
                    0 ex_heap (num 1) (VObject 3) e)); [now left|reflexivity].
  - apply (proj1 (eqv_recovers_from_key_enumeration_only
                    0 ex_heap (VObject 3) (VString "a") e)); [now right|reflexivity].
  - apply (proj1 (proj2 (eqv_recovers_from_key_enumeration_only
                           0 ex_heap (VObject 0) (VObject 2) e))); reflexivity.
  - apply (proj1 (proj2 (proj2 (eqv_recovers_from_key_enumeration_only
                                  1 ex_nested (VObject 2) (VObject 3) e')))
             ["a"; "x"] ["x"; "a"] ["x"] "a" []); try reflexivity.
    intros k [<-|[]]. reflexivity.
  - destruct (proj2 (proj2 (proj2 (eqv_recovers_from_key_enumeration_only
                                     2 ex_heap (VObject 9) (VObject 11) e)))
                eq_refl eq_refl)
      as [H|[H|[H|[[H _]|[[e0 [H|H]]|H]]]]]; try discriminate H.
    exact H.
Defined.

(** C9.  When [eqv(a, b)] reaches [objEquiv] and [a] or [b] is [null] or
    [undefined], it returns false; so do [eqv(null, undefined)] and
    [eqv(undefined, null)].  [eqv(null, null)] is true, by the first rule
    only: [objEquiv(null, null)] is false. *)
Theorem eqv_null_or_undefined (fuel : nat) (h : heap) (a b : value) :
  (L.is_null_or_undefined a = true \/ L.is_null_or_undefined b = true ->
   reaches_objEquiv h a b = true ->
   L.eqv (S fuel) h a b = Some (Return false))
  /\ L.eqv (S fuel) h VNull VUndefined = Some (Return false)
  /\ L.eqv (S fuel) h VUndefined VNull = Some (Return false)
  /\ L.eqv (S fuel) h VNull VNull = Some (Return true)
  /\ strict_eq VNull VNull = true
  /\ L.objEquiv (L.eqv fuel h) h VNull VNull = Some (Return false).
Proof.
  split; [|repeat split].
  intros Hnull Hreach. rewrite (eqv_reaches_objEquiv fuel h a b Hreach).
  unfold L.objEquiv. destruct Hnull as [-> | ->]; [reflexivity|].
  now rewrite orb_true_r.
Qed.

Lemma eqv_null_or_undefined_witness :
  L.is_null_or_undefined VUndefined = true
  /\ reaches_objEquiv ex_heap (VObject 3) VUndefined = true
  /\ L.eqv 1 ex_heap (VObject 3) VUndefined = Some (Return false).
Proof.
  split; [reflexivity|]. split; [reflexivity|].
  apply (proj1 (eqv_null_or_undefined 0 ex_heap (VObject 3) VUndefined));
    [now right|reflexivity].
Defined.

(** ** [lt] and [gt] *)




Section Ordering.
Variables (fuel : nat) (h : heap).





Lemma lt_scalars (t : string) (a b : value) :
  t = "number"%string \/ t = "string"%string ->
  L.type h a = t -> L.type h b = t ->
  L.lt (S fuel) h a b = Some (Return (less_than a b)).
Proof.
  intros Ht Ha Hb. cbn [L.lt]. rewrite Ha, Hb, String.eqb_refl.
  now destruct Ht as [-> | ->].
Qed.

Lemma gt_scalars (t : string) (a b : value) :
  t = "number"%string \/ t = "string"%string ->
  L.type h a = t -> L.type h b = t ->
  L.gt (S fuel) h a b = Some (Return (greater_than a b)).
Proof.
  intros Ht Ha Hb. cbn [L.gt]. rewrite Ha, Hb, String.eqb_refl.
  now destruct Ht as [-> | ->].
Qed.


End Ordering.









(** ** Binary64 arithmetic on integers *)

Section Binary64.
Local Open Scope Z_scope.

Lemma Zpos_shiftl_pos (p : positive) (n : Z) :
  0 <= n -> Zpos (shiftl_pos p n) = Zpos p * 2 ^ n.
Proof.
  destruct n as [|k|k]; intros Hn; cbn [shiftl_pos]; [lia| |lia].
  change (Pos.iter xO p k) with (shift_pos k p).
  rewrite shift_pos_correct. change (Z.pow_pos 2 k) with (2 ^ Zpos k).
  apply Z.mul_comm.
Qed.

Lemma shiftl_pos_inj (p q : positive) (n : Z) :
  0 <= n -> Zpos q = Zpos p * 2 ^ n -> q = shiftl_pos p n.
Proof.
  intros Hn Hq. rewrite <- (Zpos_shiftl_pos p n Hn) in Hq. congruence.
Qed.

Lemma shiftl_pos_add (p : positive) (m n : Z) :
  0 <= m -> 0 <= n -> shiftl_pos (shiftl_pos p m) n = shiftl_pos p (m + n).
Proof.
  intros Hm Hn. symmetry. apply shiftl_pos_inj; [exact Hn|].
  rewrite !Zpos_shiftl_pos, Z.pow_add_r by lia. ring.
Qed.

Lemma shiftl_pos_add' (p : positive) (m n : Z) :
  0 <= m -> shiftl_pos (shiftl_pos p m) n = shiftl_pos p (Z.max 0 n + m).
Proof.
  intros Hm. destruct n as [|k|k].
  - cbn [shiftl_pos Z.max Z.compare]. now rewrite Z.add_0_l.
  - rewrite shiftl_pos_add by lia. f_equal. lia.
  - cbn [shiftl_pos]. f_equal.
Qed.

Lemma digits2_pos_size (p : positive) : digits2_pos p = Pos.size p.
Proof. induction p as [p IH|p IH|]; cbn; now rewrite ?IH. Qed.

Lemma digits2_pos_shiftl (p : positive) (n : Z) :
  0 <= n -> Zpos (digits2_pos (shiftl_pos p n)) = Zpos (digits2_pos p) + n.
Proof.
  destruct n as [|k|k]; intros Hn; cbn [shiftl_pos]; [lia| |lia].
  induction k as [|k IH] using Pos.peano_ind.
  - cbn. lia.
  - rewrite Pos.iter_succ. cbn [digits2_pos]. lia.
Qed.

(** A positive number below [2^53] has at most 53 digits. *)
Lemma digits2_pos_bound (p : positive) :
  Zpos p < 2 ^ 53 -> Zpos (digits2_pos p) <= 53.
Proof.
  intros Hp. rewrite digits2_pos_size.
  destruct (Z.le_gt_cases (Zpos (Pos.size p)) 53) as [H|H]; [exact H|exfalso].
  pose proof (Pos.size_le p) as Hle.
  apply Pos2Z.pos_le_pos in Hle. rewrite Pos2Z.inj_pow in Hle.
  assert (H54 : 2 ^ 54 <= 2 ^ Zpos (Pos.size p)) by (apply Z.pow_le_mono_r; lia).
  lia.
Qed.

Lemma shl_align_shiftl (m : positive) (e e' : Z) :
  shl_align m e e' = (shiftl_pos m (e - e'), Z.min e e').
Proof.
  unfold shl_align.
  destruct (e' - e) as [|d|d] eqn:Hd.
  - replace (e - e') with 0 by lia. cbn. f_equal. lia.
  - replace (e - e') with (Zneg d) by lia. cbn. f_equal. lia.
  - replace (e - e') with (Zpos d) by lia. cbn. f_equal. lia.
Qed.

Lemma fexp_binary64 (x : Z) : -1021 <= x -> fexp prec emax x = x - 53.
Proof. unfold fexp, emin, prec, emax. lia. Qed.

Lemma iter_shr_1 (n : positive) : forall q,
    iter_pos shr_1 n (Build_shr_record (Zpos (Pos.iter xO q n)) false false)
    = Build_shr_record (Zpos q) false false.
Proof.
  induction n as [n IH|n IH|]; intros q; cbn [iter_pos Pos.iter].
  - cbn [shr_1 orb]. now rewrite !IH.
  - now rewrite !IH.
  - reflexivity.
Qed.

(** Shifting out the zeros that a shift to the left brought in loses
    nothing. *)
Lemma shr_shiftl_pos (q : positive) (n e : Z) :
  0 <= n ->
  shr (Build_shr_record (Zpos (shiftl_pos q n)) false false) e n
  = (Build_shr_record (Zpos q) false false, e + n).
Proof.
  destruct n as [|k|k]; intros Hn; cbn [shr shiftl_pos]; [|now rewrite iter_shr_1|lia].
  f_equal. lia.
Qed.

(** Rounding a mantissa of 53 digits followed by zeros gives back the 53
    digits. *)
Lemma binary_round_aux_shifted (s : bool) (q : positive) (n e : Z) :
  Zpos (digits2_pos q) = 53 ->
  0 <= n ->
  -1074 <= e + n <= 971 ->
  binary_round_aux prec emax s (Zpos (shiftl_pos q n)) e loc_Exact
  = S754_finite s q (e + n).
Proof.
  intros Hq Hn He. unfold binary_round_aux, shr_fexp.
  cbn [Zdigits2 shr_record_of_loc].
  rewrite digits2_pos_shiftl, Hq, fexp_binary64 by lia.
  replace (53 + n + e - 53 - e) with n by lia.
  rewrite shr_shiftl_pos by exact Hn.
  cbn [shr_m loc_of_shr_record round_nearest_even Zdigits2].
  rewrite Hq, fexp_binary64 by lia.
  replace (53 + (e + n) - 53 - (e + n)) with 0 by lia.
  cbn [shr shr_m].
  replace (e + n <=? emax - prec) with true; [reflexivity|].
  symmetry. apply Z.leb_le. unfold emax, prec. lia.
Qed.

Lemma binary_round_shifted (s : bool) (p : positive) (k : Z) :
  Zpos p < 2 ^ 53 ->
  0 <= k ->
  binary_round prec emax s (shiftl_pos p k) (- k) = canonical s p.
Proof.
  intros Hp Hk. apply digits2_pos_bound in Hp.
  pose proof (Pos2Z.is_pos (digits2_pos p)) as Hd.
  set (d := Zpos (digits2_pos p)) in *.
  set (q := shiftl_pos p (53 - d)).
  assert (Hq : Zpos (digits2_pos q) = 53)
    by (unfold q; rewrite digits2_pos_shiftl; fold d; lia).
  unfold binary_round, canonical. fold d. fold q.
  rewrite digits2_pos_shiftl by exact Hk. fold d.
  rewrite fexp_binary64, shl_align_shiftl by lia.
  rewrite shiftl_pos_add' by lia.
  destruct (Z.le_gt_cases (d + k) 53) as [Hle|Hgt].
  - replace (Z.max 0 (- k - (d + k + - k - 53)) + k) with (53 - d) by lia.
    replace (Z.min (- k) (d + k + - k - 53)) with (d - 53) by lia.
    fold q.
    pose proof (binary_round_aux_shifted s q 0 (d - 53) Hq) as H.
    cbn [shiftl_pos] in H. rewrite H by lia. f_equal. lia.
  - replace (Z.max 0 (- k - (d + k + - k - 53)) + k) with (53 - d + (d + k - 53)) by lia.
    replace (Z.min (- k) (d + k + - k - 53)) with (- k) by lia.
    rewrite <- shiftl_pos_add by lia. fold q.
    rewrite binary_round_aux_shifted by lia. f_equal. lia.
Qed.

Lemma binary_normalize_canonical (z : Z) (s : bool) :
  z <> 0 -> Z.abs z < 2 ^ 53 ->
  binary_normalize prec emax z 0 s = canonical (z <? 0) (Z.to_pos (Z.abs z)).
Proof.
  intros Hz Hlt. destruct z as [|p|p]; [congruence| |]; cbn [binary_normalize];
    apply (binary_round_shifted _ p 0); cbn in Hlt; lia.
Qed.

(** An integer below [2^53] in magnitude, written with [k] more binary
    digits than it needs, normalizes to the same Number. *)
Lemma binary_normalize_shifted (z k : Z) (s : bool) :
  Z.abs z < 2 ^ 53 ->
  0 <= k ->
  binary_normalize prec emax (z * 2 ^ k) (- k) s = binary_normalize prec emax z 0 s.
Proof.
  intros Hz Hk. destruct z as [|p|p].
  - reflexivity.
  - rewrite <- (Zpos_shiftl_pos p k Hk). cbn [binary_normalize].
    rewrite (binary_round_shifted false p k) by (cbn in Hz; lia).
    symmetry. apply (binary_round_shifted false p 0); cbn in Hz; lia.
  - replace (Zneg p * 2 ^ k) with (- (Zpos p * 2 ^ k)) by lia.
    rewrite <- (Zpos_shiftl_pos p k Hk). cbn [binary_normalize Z.opp].
    rewrite (binary_round_shifted true p k) by (cbn in Hz; lia).
    symmetry. apply (binary_round_shifted true p 0); cbn in Hz; lia.
Qed.

(** The mantissa of [canonical s p], aligned on an exponent [ez] that is
    not above its own, is [p * 2^(-ez)]. *)
Lemma canonical_aligned (p : positive) (ez : Z) :
  Zpos p < 2 ^ 53 ->
  ez <= Zpos (digits2_pos p) - 53 ->
  Zpos (fst (shl_align (shiftl_pos p (53 - Zpos (digits2_pos p)))
                       (Zpos (digits2_pos p) - 53) ez))
  = Zpos p * 2 ^ (- ez).
Proof.
  intros Hp Hez. apply digits2_pos_bound in Hp.
  rewrite shl_align_shiftl. cbn [fst].
  rewrite shiftl_pos_add, Zpos_shiftl_pos by lia. f_equal. f_equal. lia.
Qed.

Lemma cond_Zopp_abs (z : Z) : cond_Zopp (z <? 0) (Z.abs z) = z.
Proof. unfold cond_Zopp. destruct (Z.ltb_spec z 0); lia. Qed.

Lemma cond_Zopp_mul (s : bool) (z c : Z) : cond_Zopp s z * c = cond_Zopp s (z * c).
Proof. destruct s; cbn [cond_Zopp]; lia. Qed.

(** [x + y] is exact on integers while the sum stays below [2^53]. *)
Lemma num_add_integers (x y : Z) (s : bool) :
  Z.abs x < 2 ^ 53 -> 0 < y < 2 ^ 53 -> Z.abs (x + y) < 2 ^ 53 ->
  num_add (binary_normalize prec emax x 0 s) (num_of_Z y) = num_of_Z (x + y).
Proof.
  intros Hx Hy Hxy. unfold num_of_Z, num_add.
  rewrite (binary_normalize_canonical y false) by lia.
  destruct (Z.eq_dec x 0) as [->|Hx0].
  - cbn [binary_normalize Z.add]. unfold canonical. cbn [SFadd].
    now rewrite (binary_normalize_canonical y false) by lia.
  - rewrite (binary_normalize_canonical x s) by lia.
    set (p := Z.to_pos (Z.abs x)). set (q := Z.to_pos (Z.abs y)).
    assert (Hp : Zpos p = Z.abs x) by (unfold p; lia).
    assert (Hq : Zpos q = y) by (unfold q; lia).
    replace (y <? 0) with false by (symmetry; apply Z.ltb_ge; lia).
    unfold canonical. cbn [SFadd].
    set (ez := Z.min (Zpos (digits2_pos p) - 53) (Zpos (digits2_pos q) - 53)).
    pose proof (digits2_pos_bound p ltac:(lia)) as Hdp.
    pose proof (digits2_pos_bound q ltac:(lia)) as Hdq.
    rewrite !canonical_aligned by lia.
    rewrite Hp, Hq, <- !cond_Zopp_mul, cond_Zopp_abs. cbn [cond_Zopp].
    rewrite <- Z.mul_add_distr_r.
    replace ez with (- - ez) at 2 by lia.
    apply binary_normalize_shifted; lia.
Qed.

(** [x % y] on integers is the remainder of the truncating division, with
    the sign of [x] when it is zero. *)
Lemma num_rem_integers (x y : Z) (s : bool) :
  Z.abs x < 2 ^ 53 -> 0 < y < 2 ^ 53 ->
  num_rem (binary_normalize prec emax x 0 s) (num_of_Z y)
  = binary_normalize prec emax (Z.rem x y) 0 (if x =? 0 then s else x <? 0).
Proof.
  intros Hx Hy. unfold num_of_Z.
  rewrite (binary_normalize_canonical y false) by lia.
  destruct (Z.eq_dec x 0) as [->|Hx0]; [reflexivity|].
  rewrite (binary_normalize_canonical x s) by lia.
  replace (x =? 0) with false by (symmetry; apply Z.eqb_neq; exact Hx0).
  set (p := Z.to_pos (Z.abs x)). set (q := Z.to_pos (Z.abs y)).
  assert (Hp : Zpos p = Z.abs x) by (unfold p; lia).
  assert (Hq : Zpos q = y) by (unfold q; lia).
  unfold canonical. cbn [num_rem].
  set (ez := Z.min (Zpos (digits2_pos p) - 53) (Zpos (digits2_pos q) - 53)).
  pose proof (digits2_pos_bound p ltac:(lia)) as Hdp.
  pose proof (digits2_pos_bound q ltac:(lia)) as Hdq.
  rewrite !canonical_aligned by lia.
  rewrite Hp, Hq, Zmult_mod_distr_r, <- cond_Zopp_mul.
  replace ez with (- - ez) at 2 by lia.
  assert (Hmod : 0 <= Z.abs x mod y < y) by (apply Z.mod_pos_bound; lia).
  rewrite binary_normalize_shifted.
  - f_equal. unfold cond_Zopp.
    destruct (Z.ltb_spec x 0) as [Hneg|Hpos].
    + replace x with (- Z.abs x) at 2 by lia.
      rewrite Z.rem_opp_l by lia. f_equal. symmetry. apply Z.rem_mod_nonneg; lia.
    + replace (Z.abs x) with x by lia. symmetry. apply Z.rem_mod_nonneg; lia.
  - destruct (x <? 0); cbn [cond_Zopp]; lia.
  - lia.
Qed.

End Binary64.

(** ** [rem] and [mod] *)

Lemma rem_plus_mod (a b : Z) :
  (0 < b)%Z -> Z.rem (Z.rem a b + b) b = (a mod b)%Z.
Proof.
  intros Hb.
  pose proof (Z.rem_bound_abs a b ltac:(lia)) as Hr.
  rewrite Z.rem_mod_nonneg by lia.
  replace (Z.rem a b + b)%Z with (a + (1 - a ÷ b) * b)%Z
    by (rewrite (Z.quot_rem' a b) at 1; ring).
  apply Z_mod_plus_full.
Qed.

(** C7, amended.  For all integers [a] below [2^53] in magnitude and all
    integers [b] with [0 < b <= 2^52], [mod(a, b)] is the mathematical
    modulus [a mod b], which lies in [0, b), and [rem(a, b)] is the remainder
    [Z.rem a b] of the truncating division, which is zero or has the sign of
    [a] (a zero remainder of a negative [a] is the Number [-0]); [mod(-1, 5)]
    is 4 and [rem(-1, 5)] is -1. *)
Theorem mod_and_rem_on_integers (h : heap) (a b : Z) :
  (Z.abs a < 2 ^ 53)%Z ->
  (0 < b <= 2 ^ 52)%Z ->
  L.mod_ h (num a) (num b) = Return (num (a mod b))
  /\ (0 <= a mod b < b)%Z
  /\ L.rem h (num a) (num b)
     = Return (VNumber (binary_normalize prec emax (Z.rem a b) 0 (a <? 0)%Z))
  /\ (0 <= Z.rem a b * a)%Z
  /\ (Z.abs (Z.rem a b) < b)%Z
  /\ L.mod_ h (num (-1)) (num 5) = Return (num 4)
  /\ L.rem h (num (-1)) (num 5) = Return (num (-1)).
Proof.
  intros Ha Hb.
  assert (Hb' : (0 < b < 2 ^ 53)%Z) by lia.
  assert (Hrem : (Z.abs (Z.rem a b) < b)%Z).
  { pose proof (Z.rem_bound_abs a b ltac:(lia)). lia. }
  assert (Hsign : (0 <= Z.rem a b * a)%Z) by (apply Z.rem_sign_mul; lia).
  assert (Hr : num_rem (num_of_Z a) (num_of_Z b)
               = binary_normalize prec emax (Z.rem a b) 0 (a <? 0)%Z).
  { unfold num_of_Z at 1. rewrite (num_rem_integers a b false Ha Hb').
    f_equal. destruct (Z.eqb_spec a 0) as [->|_]; reflexivity. }
  assert (Hnum : L.isNumber h (num a) && L.isNumber h (num b) = true) by reflexivity.
  split; [|split; [apply Z.mod_pos_bound; lia|split; [|repeat split; assumption]]].
  - unfold L.mod_. rewrite Hnum. unfold num. cbn [L.remainder L.plus].
    rewrite Hr, num_add_integers by lia.
    unfold num_of_Z at 1. rewrite num_rem_integers by lia.
    rewrite rem_plus_mod by lia.
    replace (Z.rem a b + b =? 0)%Z with false by (symmetry; apply Z.eqb_neq; lia).
    replace (Z.rem a b + b <? 0)%Z with false by (symmetry; apply Z.ltb_ge; lia).
    reflexivity.
  - unfold L.rem. rewrite Hnum. unfold num. cbn [L.remainder]. now rewrite Hr.
Qed.

(** C7, as stated, fails on integers that a Number holds exactly:
    [mod(9007199254740990, 9007199254740991)] is [9007199254740989], one
    less than the modulus, because the sum inside it is rounded; and it
    fails on Numbers that are not finite: [mod(Infinity, 5)] is NaN. *)
Lemma mod_not_the_modulus :
  num 9007199254740990 = VNumber (S754_finite false 9007199254740990 0)
  /\ num 9007199254740991 = VNumber (S754_finite false 9007199254740991 0)
  /\ L.mod_ ex_heap (num 9007199254740990) (num 9007199254740991)
     = Return (VNumber (S754_finite false 9007199254740989 0))
  /\ (9007199254740990 mod 9007199254740991 = 9007199254740990)%Z
  /\ L.mod_ ex_heap (VNumber Infinity) (num 5) = Return (VNumber NaN).
Proof. repeat split. Qed.

Lemma mod_and_rem_on_integers_witness :
  (Z.abs (-7) < 2 ^ 53)%Z
  /\ (0 < 3 <= 2 ^ 52)%Z
  /\ L.mod_ ex_heap (num (-7)) (num 3) = Return (num 2)
  /\ L.rem ex_heap (num (-7)) (num 3) = Return (num (-1)).
Proof.
  assert (Ha : (Z.abs (-7) < 2 ^ 53)%Z) by (vm_compute; reflexivity).
  assert (Hb : (0 < 3 <= 2 ^ 52)%Z) by (split; vm_compute; [reflexivity|discriminate]).
  destruct (mod_and_rem_on_integers ex_heap (-7) 3 Ha Hb) as (Hmod & _ & Hrem & _).
  repeat split; try assumption. discriminate.
Defined.

(** * More of the library *)

(** ** The curry engine, whatever the calls *)

Section CurryChains.
Context {A R : Type}.
Implicit Types (fn : L.function (A := A) (R := R)) (pre : list A)
         (groups : list (list A)).

(** After the result, each further call leaves the log as it is and the
    chain without a value. *)
Lemma call_chain_after_result (r : R) (g : list A) groups :
  L.call_chain (L.Result (A := A) r) (g :: groups) = (None, []).
Proof. reflexivity. Qed.

Lemma call_chain_saturated_log groups : forall n fn pre,
    List.length pre < n ->
    n <= List.length (pre ++ concat groups) ->
    snd (L.call_chain (L.Curried (L.Closure n fn pre)) groups)
    = [firstn n (pre ++ concat groups)]
    /\ (fst (L.call_chain (L.Curried (L.Closure n fn pre)) groups) = None
        \/ fst (L.call_chain (L.Curried (L.Closure n fn pre)) groups)
           = Some (L.Result (L.fn_apply fn (firstn n (pre ++ concat groups))))).
Proof.
  induction groups as [|g groups IH]; intros n fn pre Hlt Hle.
  - cbn [concat] in Hle. rewrite app_nil_r in Hle. lia.
  - cbn [L.call_chain concat] in *. rewrite app_assoc in Hle. rewrite app_assoc.
    unfold L.call, L.ncurry; cbn [L.c_n L.c_fn L.c_largs].
    destruct (Nat.ltb_spec (List.length (pre ++ g)) n) as [Hg|Hg].
    + apply Nat.leb_gt in Hg as Hg'. rewrite Hg'.
      destruct (IH n fn (pre ++ g) Hg Hle) as [Hlog Hval].
      destruct (L.call_chain _ groups) as [r log]. cbn [fst snd] in *.
      split; [exact Hlog|exact Hval].
    + unfold L.fn_call, L.slice0.
      assert (Hfirst : firstn n ((pre ++ g) ++ concat groups) = firstn n (pre ++ g)).
      { rewrite firstn_app.
        replace (n - List.length (pre ++ g)) with 0 by lia.
        cbn [firstn]. now rewrite app_nil_r. }
      rewrite Hfirst. destruct groups as [|g' groups].
      * cbn [L.call_chain fst snd app]. split; [reflexivity|now right].
      * rewrite call_chain_after_result. cbn [fst snd app]. split; [reflexivity|now left].
Qed.

End CurryChains.

(** X1.  However the arguments are split over the calls (calls without
    arguments and calls after the result included): while fewer than [n]
    arguments have been given the chain is a front end that holds them all,
    in order, and the target has not been applied; once [n] have been given
    the target has been applied exactly once, to the first [n] of them, and
    the chain is its result or, when calls follow the result, has no value. *)
Theorem ncurry_chain_applies_once {A R : Type}
        (fn : L.function (A := A) (R := R)) (n : nat)
        (pre : list A) (groups : list (list A)) :
  (List.length (pre ++ concat groups) < n ->
   L.ncurry_chain n fn pre groups
   = (Some (L.Curried (L.Closure n fn (pre ++ concat groups))), []))
  /\ (n <= List.length (pre ++ concat groups) ->
      snd (L.ncurry_chain n fn pre groups) = [firstn n (pre ++ concat groups)]
      /\ List.length (firstn n (pre ++ concat groups)) = n
      /\ (fst (L.ncurry_chain n fn pre groups) = None
          \/ fst (L.ncurry_chain n fn pre groups)
             = Some (L.Result (L.fn_apply fn (firstn n (pre ++ concat groups)))))).
Proof.
  split.
  - intros Hlt. unfold L.ncurry_chain.
    rewrite ncurry_unsaturated by (rewrite length_app in Hlt; lia).
    now rewrite call_chain_unsaturated.
  - intros Hle. split; [|split; [apply firstn_length_le; exact Hle|]];
      unfold L.ncurry_chain, L.ncurry, L.apply, L.fn_call, L.slice0;
      destruct (Nat.leb_spec n (List.length pre)) as [Hpre|Hpre].
    + assert (Hfirst : firstn n (pre ++ concat groups) = firstn n pre).
      { rewrite firstn_app. replace (n - List.length pre) with 0 by lia.
        cbn [firstn]. now rewrite app_nil_r. }
      rewrite Hfirst. destruct groups; reflexivity.
    + destruct (call_chain_saturated_log groups n fn pre Hpre Hle) as [Hlog _].
      destruct (L.call_chain _ groups) as [r log]. exact Hlog.
    + assert (Hfirst : firstn n (pre ++ concat groups) = firstn n pre).
      { rewrite firstn_app. replace (n - List.length pre) with 0 by lia.
        cbn [firstn]. now rewrite app_nil_r. }
      rewrite Hfirst. destruct groups; [now right|now left].
    + destruct (call_chain_saturated_log groups n fn pre Hpre Hle) as [_ Hval].
      destruct (L.call_chain _ groups) as [r log]. exact Hval.
Qed.

Lemma ncurry_chain_applies_once_witness :
  L.ncurry_chain 3 add_fn [num 1] [[]; [num 2]]
  = (Some (L.Curried (L.Closure 3 add_fn [num 1; num 2])), [])
  /\ snd (L.ncurry_chain 2 add_fn [num 1] [[]; [num 2; num 3]; [num 4]])
     = [[num 1; num 2]].
Proof.
  split.
  - apply (proj1 (ncurry_chain_applies_once add_fn 3 [num 1] [[]; [num 2]])).
    cbn. lia.
  - apply (proj2 (ncurry_chain_applies_once add_fn 2 [num 1]
                    [[]; [num 2; num 3]; [num 4]])).
    cbn. lia.
Defined.

(** ** [lt] and [gt] are converse *)

Lemma min_comm (x y : nat) : L.min x y = L.min y x.
Proof.
  unfold L.min. destruct (Nat.ltb_spec y x), (Nat.ltb_spec x y); cbn [negb]; lia.
Qed.

Lemma In_indexed (x : value) (vs : list value) :
  In x vs -> exists key, In (key, x) (indexed vs).
Proof.
  unfold indexed.
  assert (H : forall (ks : list string) (xs : list value),
             List.length ks = List.length xs -> In x xs ->
             exists key, In (key, x) (combine ks xs)).
  { induction ks as [|k ks IH]; intros [|y xs] Hlen Hin; try discriminate;
      try contradiction.
    destruct Hin as [->|Hin].
    - exists k. now left.
    - destruct (IH xs ltac:(cbn in Hlen; lia) Hin) as [key Hkey].
      exists key. now right. }
  apply H. now rewrite length_map, length_seq.
Qed.

Lemma no_arguments_in_element (h : heap) (a x : value) :
  no_arguments_in h a -> In x (L.elements h a) -> no_arguments_in h x.
Proof.
  intros Hno Hin. unfold L.elements in Hin.
  destruct a as [| | | | |l]; try contradiction.
  destruct (h l) as [|elems| | | | |] eqn:Hl; try contradiction.
  destruct (In_indexed x elems Hin) as [key Hkey].
  intros w Hw. apply Hno. apply reachable_trans with (v := x); [|exact Hw].
  apply reachable_property with (l := l) (key := key); [constructor|].
  now rewrite Hl.
Qed.

Lemma In_firstn_In {X : Type} (n : nat) (x : X) (l : list X) :
  In x (firstn n l) -> In x l.
Proof.
  intros H. rewrite <- (firstn_skipn n l). apply in_or_app. now left.
Qed.

Lemma scan_converse (before after eqv : value -> value -> L.result) (lengths : bool) :
  forall xs ys,
    (forall x y, In x xs -> In y ys ->
                 agree (before x y) (after y x) /\ eqv x y = eqv y x) ->
    agree (L.scan before eqv (combine xs ys) lengths)
          (L.scan after eqv (combine ys xs) lengths).
Proof.
  induction xs as [|x xs IH]; intros [|y ys] H; try (cbn; reflexivity).
  cbn [combine L.scan].
  destruct (H x y ltac:(now left) ltac:(now left)) as [Hxy Heqv].
  rewrite <- Heqv. unfold agree in Hxy.
  destruct (before x y) as [[[|]|]|], (after y x) as [[[|]|]|];
    try contradiction; try discriminate; try exact I; try reflexivity.
  destruct (eqv x y) as [[[|]|]|]; try exact I; try reflexivity.
  apply IH. intros x' y' Hx' Hy'. apply H; now right.
Qed.

Lemma lt_gt_converse (h : heap) (fuel : nat) : forall a b,
    no_arguments_in h a -> no_arguments_in h b ->
    agree (L.lt fuel h a b) (L.gt fuel h b a).
Proof.
  induction fuel as [|fuel IH]; intros a b Ha Hb; [exact I|].
  cbn [L.lt L.gt]. rewrite (String.eqb_sym (L.type h b)).
  destruct (String.eqb_spec (L.type h a) (L.type h b)) as [Heq|Hne];
    cbn [negb]; [|exact I].
  rewrite <- Heq.
  destruct (_ || _); [reflexivity|].
  destruct (L.type h a =? "array")%string; [|exact I].
  rewrite (min_comm (List.length (L.elements h b))).
  apply scan_converse. intros x y Hx Hy.
  apply In_firstn_In in Hx, Hy.
  pose proof (no_arguments_in_element h a x Ha Hx).
  pose proof (no_arguments_in_element h b y Hb Hy).
  split; [now apply IH | now apply eqv_sym].
Qed.

(** X2.  On values that hold no argument list, [lt(a, b)] and [gt(b, a)]
    tell the same: the same boolean, or both raise, or both recurse deeper
    than the given depth. *)
Theorem lt_is_converse_of_gt (h : heap) (fuel : nat) (a b : value) :
  no_arguments_in h a ->
  no_arguments_in h b ->
  agree (L.lt fuel h a b) (L.gt fuel h b a)
  /\ agree (L.gt fuel h a b) (L.lt fuel h b a).
Proof.
  intros Ha Hb. split; [now apply lt_gt_converse|].
  pose proof (lt_gt_converse h fuel b a Hb Ha) as H. unfold agree in *.
  destruct (L.lt fuel h b a) as [[|]|], (L.gt fuel h a b) as [[|]|];
    try contradiction; try exact I. now symmetry.
Qed.

Lemma lt_is_converse_of_gt_witness :
  no_arguments_in ex_heap (VObject 7)
  /\ no_arguments_in ex_heap (VObject 8)
  /\ L.lt 2 ex_heap (VObject 7) (VObject 8) = Some (Return true)
  /\ L.gt 2 ex_heap (VObject 8) (VObject 7) = Some (Return true).
Proof.
  assert (H7 : no_arguments_in ex_heap (VObject 7)).
  { intros v Hv.
    assert (Hin : In v [VObject 7; num 1; num 2; num 3]).
    { induction Hv as [|l key v _ IH Hin]; [now left|].
      destruct IH as [H|[H|[H|[H|[]]]]]; try discriminate H;
        injection H as <-; cbn in Hin;
        repeat (destruct Hin as [Hin|Hin]; [injection Hin as _ <-; cbn; tauto|]);
        destruct Hin. }
    destruct Hin as [<-|[<-|[<-|[<-|[]]]]]; reflexivity. }
  assert (H8 : no_arguments_in ex_heap (VObject 8)).
  { intros v Hv.
    assert (Hin : In v [VObject 8; num 1; num 2; num 4]).
    { induction Hv as [|l key v _ IH Hin]; [now left|].
      destruct IH as [H|[H|[H|[H|[]]]]]; try discriminate H;
        injection H as <-; cbn in Hin;
        repeat (destruct Hin as [Hin|Hin]; [injection Hin as _ <-; cbn; tauto|]);
        destruct Hin. }
    destruct Hin as [<-|[<-|[<-|[<-|[]]]]]; reflexivity. }
  split; [exact H7|]. split; [exact H8|]. split; [reflexivity|].
  destruct (lt_is_converse_of_gt ex_heap 2 (VObject 7) (VObject 8) H7 H8) as [H _].
  change (L.lt 2 ex_heap (VObject 7) (VObject 8)) with (Some (Return true)) in H.
  unfold agree in H.
  destruct (L.gt 2 ex_heap (VObject 8) (VObject 7)) as [[r|e]|];
    try contradiction. now rewrite H.
Defined.

(** ** [le], [ge], [max], [min] and [compare] on Numbers *)

Lemma SFcompare_antisym (x y : number) :
  SFcompare y x = option_map CompOpp (SFcompare x y).
Proof.
  destruct x as [s|s| |s m e], y as [s'|s'| |s' m' e']; cbn; try reflexivity;
    try (destruct s; reflexivity); try (destruct s'; reflexivity);
    try (destruct s, s'; reflexivity).
  destruct s, s'; try reflexivity;
    rewrite (Z.compare_antisym e e'); destruct (e ?= e')%Z; cbn; try reflexivity;
    fold (Pos.compare m m') (Pos.compare m' m);
    rewrite (Pos.compare_antisym m m'); destruct (m ?= m')%positive; reflexivity.
Qed.

Lemma num_gtb_not_leb (x y : number) :
  x <> NaN -> y <> NaN -> negb (num_gtb x y) = SFleb x y.
Proof.
  unfold num_gtb, num_ltb, SFltb, SFleb, NaN. intros Hx Hy.
  rewrite (SFcompare_antisym x y).
  destruct (SFcompare x y) as [[| |]|] eqn:Hc; cbn; try reflexivity.
  destruct x, y; cbn in Hc; congruence.
Qed.

Lemma num_ltb_NaN (x y : number) :
  x = NaN \/ y = NaN ->
  num_ltb x y = false /\ num_gtb x y = false /\ num_eqb x y = false.
Proof.
  unfold num_ltb, num_gtb, num_eqb, SFltb, SFeqb, NaN.
  intros [-> | ->]; [destruct y|destruct x]; cbn; auto.
Qed.

Lemma type_of_number (h : heap) (x : number) : L.type h (VNumber x) = "number"%string.
Proof. reflexivity. Qed.

Lemma le_numbers (installed : bool) (fuel : nat) (h : heap) (x y : number) :
  L.le installed (S fuel) h (VNumber x) (VNumber y)
  = Some (Return (VBool (negb (num_gtb x y)))).
Proof.
  unfold L.le.
  rewrite (gt_scalars fuel h "number" (VNumber x) (VNumber y)) by auto.
  unfold greater_than, less_than, num_gtb, num_ltb.
  destruct (SFltb y x); reflexivity.
Qed.

Lemma ge_numbers (installed : bool) (fuel : nat) (h : heap) (x y : number) :
  L.ge installed (S fuel) h (VNumber x) (VNumber y)
  = Some (Return (VBool (negb (num_ltb x y)))).
Proof.
  unfold L.ge.
  rewrite (lt_scalars fuel h "number" (VNumber x) (VNumber y)) by auto.
  unfold less_than, num_ltb. destruct (SFltb x y); reflexivity.
Qed.

(** X3.  On two Numbers [le] and [ge] never raise and are the negations of
    [>] and of [<].  When neither Number is NaN that is [<=] and [>=]; when
    one is NaN, [le] and [ge] are both true although [lt], [gt] and [eqv] are
    all false. *)
Theorem le_ge_on_numbers (installed : bool) (fuel : nat) (h : heap) (x y : number) :
  L.le installed (S fuel) h (VNumber x) (VNumber y)
  = Some (Return (VBool (negb (num_gtb x y))))
  /\ L.ge installed (S fuel) h (VNumber x) (VNumber y)
     = Some (Return (VBool (negb (num_ltb x y))))
  /\ (x <> NaN -> y <> NaN ->
      negb (num_gtb x y) = SFleb x y /\ negb (num_ltb x y) = SFleb y x)
  /\ (x = NaN \/ y = NaN ->
      L.le installed (S fuel) h (VNumber x) (VNumber y) = Some (Return (VBool true))
      /\ L.ge installed (S fuel) h (VNumber x) (VNumber y) = Some (Return (VBool true))
      /\ L.lt (S fuel) h (VNumber x) (VNumber y) = Some (Return false)
      /\ L.gt (S fuel) h (VNumber x) (VNumber y) = Some (Return false)
      /\ L.eqv (S fuel) h (VNumber x) (VNumber y) = Some (Return false)).
Proof.
  split; [apply le_numbers|]. split; [apply ge_numbers|]. split.
  - intros Hx Hy. split; [now apply num_gtb_not_leb|].
    unfold num_gtb in *. now apply (num_gtb_not_leb y x).
  - intros HNaN. destruct (num_ltb_NaN x y HNaN) as (Hlt & Hgt & Heq).
    repeat split.
    + rewrite le_numbers. now rewrite Hgt.
    + rewrite ge_numbers. now rewrite Hlt.
    + rewrite (lt_scalars fuel h "number" (VNumber x) (VNumber y)) by auto.
      unfold less_than. now rewrite Hlt.
    + rewrite (gt_scalars fuel h "number" (VNumber x) (VNumber y)) by auto.
      unfold greater_than, less_than. change (num_ltb y x) with (num_gtb x y).
      now rewrite Hgt.
    + cbn [L.eqv strict_eq]. rewrite Heq.
      change (Some (Return (num_eqb x y)) = Some (Return false)).
      now rewrite Heq.
Qed.

Lemma le_ge_on_numbers_witness :
  L.le false 1 ex_heap (VNumber NaN) (num 1) = Some (Return (VBool true))
  /\ L.ge false 1 ex_heap (VNumber NaN) (num 1) = Some (Return (VBool true))
  /\ negb (num_gtb (num_of_Z 2) (num_of_Z 3)) = SFleb (num_of_Z 2) (num_of_Z 3).
Proof.
  destruct (le_ge_on_numbers false 0 ex_heap NaN (num_of_Z 1))
    as (_ & _ & _ & HNaN).
  destruct (HNaN (or_introl eq_refl)) as (Hle & Hge & _).
  destruct (le_ge_on_numbers false 0 ex_heap (num_of_Z 2) (num_of_Z 3))
    as (_ & _ & Hnum & _).
  split; [exact Hle|]. split; [exact Hge|].
  apply Hnum; discriminate.
Defined.

Lemma compare_numbers (fuel : nat) (h : heap) (x y : number) :
  L.compare (S fuel) h (VNumber x) (VNumber y)
  = Some (Return (num (match SFcompare x y with
                       | Some Lt => -1 | Some Gt => 1 | _ => 0
                       end))).
Proof.
  unfold L.compare.
  rewrite (lt_scalars fuel h "number" (VNumber x) (VNumber y)),
    (gt_scalars fuel h "number" (VNumber x) (VNumber y)) by auto.
  unfold greater_than, less_than, num_ltb, SFltb.
  rewrite (SFcompare_antisym x y).
  destruct (SFcompare x y) as [[| |]|]; reflexivity.
Qed.

(** X4.  On two Numbers [compare] never raises and returns -1, 1 or 0 as
    [x < y], [x > y] or neither; swapping the operands negates it; it is 0
    when one of them is NaN. *)
Theorem compare_on_numbers (fuel : nat) (h : heap) (x y : number) :
  exists c : Z,
    L.compare (S fuel) h (VNumber x) (VNumber y) = Some (Return (num c))
    /\ L.compare (S fuel) h (VNumber y) (VNumber x) = Some (Return (num (- c)))
    /\ ((c = -1 /\ num_ltb x y = true)%Z
        \/ (c = 1 /\ num_gtb x y = true)%Z
        \/ (c = 0 /\ num_ltb x y = false /\ num_gtb x y = false)%Z)
    /\ (x = NaN \/ y = NaN -> c = 0%Z).
Proof.
  exists (match SFcompare x y with Some Lt => -1 | Some Gt => 1 | _ => 0 end)%Z.
  rewrite !compare_numbers.
  unfold num_gtb, num_ltb, SFltb. rewrite (SFcompare_antisym x y).
  split; [reflexivity|]. split; [|split].
  - destruct (SFcompare x y) as [[| |]|]; reflexivity.
  - destruct (SFcompare x y) as [[| |]|]; cbn; tauto.
  - unfold NaN. intros [-> | ->]; [reflexivity|]. now destruct x.
Qed.

Lemma SFltb_irrefl (x : number) : SFltb x x = false.
Proof.
  unfold SFltb. pose proof (SFcompare_antisym x x) as H.
  destruct (SFcompare x x) as [[| |]|]; try reflexivity. discriminate.
Qed.

Lemma SFltb_asym (x y : number) : SFltb x y = true -> SFltb y x = false.
Proof.
  unfold SFltb. rewrite (SFcompare_antisym x y).
  destruct (SFcompare x y) as [[| |]|]; cbn; congruence.
Qed.

Lemma max_min_numbers (installed : bool) (fuel : nat) (h : heap) (x y : number) :
  L.max installed (S fuel) h (VNumber x) (VNumber y)
  = Some (Return (VNumber (if num_ltb x y then y else x)))
  /\ L.min_ installed (S fuel) h (VNumber x) (VNumber y)
     = Some (Return (VNumber (if num_gtb x y then y else x))).
Proof.
  unfold L.max, L.min_. rewrite le_numbers, ge_numbers.
  unfold num_gtb, num_ltb.
  split; [now destruct (SFltb x y)|now destruct (SFltb y x)].
Qed.

(** X5.  On two Numbers [max] and [min] never raise and return one of the
    operands: [max(x, y)] is [y] when [x < y] and else [x], [min(x, y)] is
    [y] when [x > y] and else [x].  Neither operand is greater than the
    maximum or less than the minimum; when one operand is NaN both return
    the first operand. *)
Theorem max_min_on_numbers (installed : bool) (fuel : nat) (h : heap) (x y : number) :
  L.max installed (S fuel) h (VNumber x) (VNumber y)
  = Some (Return (VNumber (if num_ltb x y then y else x)))
  /\ L.min_ installed (S fuel) h (VNumber x) (VNumber y)
     = Some (Return (VNumber (if num_gtb x y then y else x)))
  /\ num_ltb (if num_ltb x y then y else x) x = false
  /\ num_ltb (if num_ltb x y then y else x) y = false
  /\ num_gtb (if num_gtb x y then y else x) x = false
  /\ num_gtb (if num_gtb x y then y else x) y = false
  /\ (x = NaN \/ y = NaN ->
      (if num_ltb x y then y else x) = x /\ (if num_gtb x y then y else x) = x).
Proof.
  unfold L.max, L.min_. rewrite le_numbers, ge_numbers.
  unfold num_gtb, num_ltb.
  split; [now destruct (SFltb x y)|]. split; [now destruct (SFltb y x)|].
  split; [|split; [|split; [|split]]].
  - destruct (SFltb x y) eqn:H; [now apply SFltb_asym|apply SFltb_irrefl].
  - destruct (SFltb x y) eqn:H; [apply SFltb_irrefl|exact H].
  - destruct (SFltb y x) eqn:H; [now apply SFltb_asym|apply SFltb_irrefl].
  - destruct (SFltb y x) eqn:H; [apply SFltb_irrefl|exact H].
  - intros HNaN. destruct (num_ltb_NaN x y HNaN) as (Hlt & Hgt & _).
    unfold num_gtb, num_ltb in Hlt, Hgt. now rewrite Hlt, Hgt.
Qed.

Lemma max_min_on_numbers_witness :
  L.max false 1 ex_heap (VNumber NaN) (num 1) = Some (Return (VNumber NaN))
  /\ L.max false 1 ex_heap (num 1) (VNumber NaN) = Some (Return (num 1))
  /\ (if num_ltb NaN (num_of_Z 1) then num_of_Z 1 else NaN) = NaN.
Proof.
  destruct (max_min_on_numbers false 0 ex_heap NaN (num_of_Z 1))
    as (H1 & _ & _ & _ & _ & _ & HNaN).
  destruct (max_min_on_numbers false 0 ex_heap (num_of_Z 1) NaN) as (H2 & _).
  split; [exact H1|]. split; [exact H2|].
  exact (proj1 (HNaN (or_introl eq_refl))).
Defined.

Lemma compare_on_numbers_witness :
  L.compare 1 ex_heap (VNumber NaN) (num 1) = Some (Return (num 0)).
Proof.
  destruct (compare_on_numbers 0 ex_heap NaN (num_of_Z 1)) as (c & Hc & _ & _ & HNaN).
  rewrite (HNaN (or_introl eq_refl)) in Hc. exact Hc.
Defined.

(** ** Comparing integers as Numbers *)

Section Binary64Order.
Local Open Scope Z_scope.

Lemma digits2_pos_lower (p : positive) : 2 ^ (Zpos (digits2_pos p) - 1) <= Zpos p.
Proof.
  rewrite digits2_pos_size.
  pose proof (Pos.size_le p) as Hle.
  apply Pos2Z.pos_le_pos in Hle. rewrite Pos2Z.inj_pow in Hle.
  replace (Zpos (Pos.size p)) with (Zpos (Pos.size p) - 1 + 1) in Hle by lia.
  rewrite Z.pow_add_r in Hle by lia. lia.
Qed.

Lemma digits2_pos_upper (p : positive) : Zpos p < 2 ^ Zpos (digits2_pos p).
Proof.
  rewrite digits2_pos_size.
  pose proof (Pos.size_gt p) as Hgt.
  apply Pos2Z.pos_lt_pos in Hgt. now rewrite Pos2Z.inj_pow in Hgt.
Qed.

Lemma digits2_pos_lt (p q : positive) :
  Zpos (digits2_pos p) < Zpos (digits2_pos q) -> Zpos p < Zpos q.
Proof.
  intros Hd.
  pose proof (digits2_pos_upper p). pose proof (digits2_pos_lower q).
  assert (2 ^ Zpos (digits2_pos p) <= 2 ^ (Zpos (digits2_pos q) - 1))
    by (apply Z.pow_le_mono_r; lia).
  lia.
Qed.

(** The order of two canonical mantissas with their exponents is the order
    of the integers. *)
Lemma canonical_compare (p q : positive) :
  Zpos p < 2 ^ 53 -> Zpos q < 2 ^ 53 ->
  match Zpos (digits2_pos p) - 53 ?= Zpos (digits2_pos q) - 53 with
  | Lt => Lt
  | Gt => Gt
  | Eq => Pos.compare_cont Eq (shiftl_pos p (53 - Zpos (digits2_pos p)))
                           (shiftl_pos q (53 - Zpos (digits2_pos q)))
  end = (p ?= q)%positive.
Proof.
  intros Hp Hq.
  pose proof (digits2_pos_bound p Hp) as Hdp.
  pose proof (digits2_pos_bound q Hq) as Hdq.
  destruct (Z.compare_spec (Zpos (digits2_pos p) - 53) (Zpos (digits2_pos q) - 53))
    as [Heq|Hlt|Hgt].
  - fold (Pos.compare (shiftl_pos p (53 - Zpos (digits2_pos p)))
                      (shiftl_pos q (53 - Zpos (digits2_pos q)))).
    rewrite !Pos2Z.inj_compare, !Zpos_shiftl_pos by lia.
    replace (Zpos (digits2_pos q)) with (Zpos (digits2_pos p)) by lia.
    symmetry. apply Zmult_compare_compat_r. apply Z.lt_gt.
    apply Z.pow_pos_nonneg; lia.
  - symmetry. apply Pos.compare_lt_iff.
    apply Pos2Z.pos_lt_pos. apply digits2_pos_lt. lia.
  - symmetry. apply Pos.compare_gt_iff.
    apply Pos2Z.pos_lt_pos. apply digits2_pos_lt. lia.
Qed.

Lemma SFcompare_integers (x y : Z) :
  Z.abs x < 2 ^ 53 -> Z.abs y < 2 ^ 53 ->
  SFcompare (num_of_Z x) (num_of_Z y) = Some (x ?= y).
Proof.
  intros Hx Hy. unfold num_of_Z.
  destruct (Z.eq_dec x 0) as [->|Hx0], (Z.eq_dec y 0) as [->|Hy0].
  - reflexivity.
  - rewrite (binary_normalize_canonical y false) by lia.
    cbn [binary_normalize canonical SFcompare].
    destruct (Z.ltb_spec y 0); f_equal; symmetry;
      [apply Z.compare_gt_iff|apply Z.compare_lt_iff]; lia.
  - rewrite (binary_normalize_canonical x false) by lia.
    cbn [binary_normalize canonical SFcompare].
    destruct (Z.ltb_spec x 0); f_equal; symmetry;
      [apply Z.compare_lt_iff|apply Z.compare_gt_iff]; lia.
  - rewrite (binary_normalize_canonical x false), (binary_normalize_canonical y false)
      by lia.
    set (p := Z.to_pos (Z.abs x)). set (q := Z.to_pos (Z.abs y)).
    assert (Hp : Zpos p = Z.abs x) by (unfold p; lia).
    assert (Hq : Zpos q = Z.abs y) by (unfold q; lia).
    unfold canonical. cbn [SFcompare].
    destruct (Z.ltb_spec x 0) as [Hxn|Hxp], (Z.ltb_spec y 0) as [Hyn|Hyp]; f_equal.
    + transitivity
        (CompOpp
           match Zpos (digits2_pos p) - 53 ?= Zpos (digits2_pos q) - 53 with
           | Lt => Lt
           | Gt => Gt
           | Eq => Pos.compare_cont Eq (shiftl_pos p (53 - Zpos (digits2_pos p)))
                                    (shiftl_pos q (53 - Zpos (digits2_pos q)))
           end);
        [destruct (Zpos (digits2_pos p) - 53 ?= Zpos (digits2_pos q) - 53);
         reflexivity|].
      rewrite (canonical_compare p q) by lia.
      rewrite Pos2Z.inj_compare, Hp, Hq.
      replace (Z.abs x) with (- x) by lia. replace (Z.abs y) with (- y) by lia.
      rewrite Z.compare_opp, (Z.compare_antisym x y). apply CompOpp_involutive.
    + symmetry. apply Z.compare_lt_iff. lia.
    + symmetry. apply Z.compare_gt_iff. lia.
    + rewrite (canonical_compare p q) by lia.
      rewrite Pos2Z.inj_compare, Hp, Hq.
      now replace (Z.abs x) with x by lia; replace (Z.abs y) with y by lia.
Qed.

End Binary64Order.

(** X6.  [L.min] of two lengths, through [L.le], [L.not] and [L.gt], is the
    smaller of them: what [lt], [gt] and [zipWith] take as the number of
    indices to visit. *)
Theorem min_on_lengths (installed : bool) (fuel : nat) (h : heap) (x y : nat) :
  (Z.of_nat x < 2 ^ 53)%Z ->
  (Z.of_nat y < 2 ^ 53)%Z ->
  L.min_ installed (S fuel) h (num (Z.of_nat x)) (num (Z.of_nat y))
  = Some (Return (num (Z.of_nat (L.min x y))))
  /\ L.min x y = Nat.min x y.
Proof.
  intros Hx Hy. split.
  - destruct (max_min_numbers installed fuel h (num_of_Z (Z.of_nat x))
                              (num_of_Z (Z.of_nat y))) as (_ & Hmin).
    unfold num. rewrite Hmin. unfold num_gtb, num_ltb, SFltb.
    rewrite SFcompare_integers by lia. unfold L.min.
    destruct (Nat.ltb_spec y x) as [Hlt|Hge]; cbn [negb].
    + apply Nat2Z.inj_lt in Hlt. apply Z.compare_lt_iff in Hlt. now rewrite Hlt.
    + apply Nat2Z.inj_le in Hge. apply Z.compare_ge_iff in Hge.
      destruct (Z.of_nat y ?= Z.of_nat x)%Z; try reflexivity. now contradiction Hge.
  - unfold L.min. destruct (Nat.ltb_spec y x); cbn [negb]; lia.
Qed.

Lemma min_on_lengths_witness :
  L.min_ false 1 ex_heap (num 3) (num 2) = Some (Return (num 2)).
Proof.
  apply (proj1 (min_on_lengths false 0 ex_heap 3 2 eq_refl eq_refl)).
Defined.

(** ** The arithmetic and the boolean wrappers *)

Lemma SFadd_comm (x y : number) : SFadd prec emax x y = SFadd prec emax y x.
Proof.
  destruct x as [s|s| |s m e], y as [s'|s'| |s' m' e']; cbn [SFadd];
    try reflexivity; try (destruct s, s'; reflexivity).
  now rewrite (Z.min_comm e' e), Z.add_comm.
Qed.

Lemma SFmul_comm (x y : number) : SFmul prec emax x y = SFmul prec emax y x.
Proof.
  destruct x as [s|s| |s m e], y as [s'|s'| |s' m' e']; cbn [SFmul];
    try reflexivity; try (destruct s, s'; reflexivity).
  now rewrite (xorb_comm s' s), (Pos.mul_comm m' m), (Z.add_comm e' e).
Qed.

Lemma not_a_number (h : heap) (a : value) :
  (forall x, a <> VNumber x) -> L.isNumber h a = false.
Proof.
  intros Ha. destruct a as [| | |n| |l]; try reflexivity.
  - now contradiction (Ha n).
  - unfold L.isNumber. cbn [class_of]. now destruct (h l).
Qed.

(** X7.  The six arithmetic wrappers never raise on two Numbers (a division
    by zero gives an infinity or NaN) and return the Number of the operator;
    they raise the TypeError that names the types of both operands as soon
    as one operand is not a Number.  [add] and [mul] do not depend on the
    order of their operands. *)
Theorem arithmetic_wrappers (h : heap) (a b : value) :
  (forall x y, a = VNumber x -> b = VNumber y ->
               L.add h a b = Return (VNumber (num_add x y))
               /\ L.sub h a b = Return (VNumber (SFsub prec emax x y))
               /\ L.mul h a b = Return (VNumber (SFmul prec emax x y))
               /\ L.div h a b = Return (VNumber (SFdiv prec emax x y))
               /\ L.rem h a b = Return (VNumber (num_rem x y))
               /\ L.mod_ h a b = Return (VNumber (num_rem (num_add (num_rem x y) y) y))
               /\ L.add h b a = L.add h a b
               /\ L.mul h b a = L.mul h a b)
  /\ ((forall x, a <> VNumber x) \/ (forall y, b <> VNumber y) ->
      L.add h a b = Throw (L.expecting_numbers h a b)
      /\ L.sub h a b = Throw (L.expecting_numbers h a b)
      /\ L.mul h a b = Throw (L.expecting_numbers h a b)
      /\ L.div h a b = Throw (L.expecting_numbers h a b)
      /\ L.rem h a b = Throw (L.expecting_numbers h a b)
      /\ L.mod_ h a b = Throw (L.expecting_numbers h a b)).
Proof.
  split.
  - intros x y -> ->. repeat split.
    + unfold L.add. cbn. unfold num_add. now rewrite SFadd_comm.
    + unfold L.mul. cbn. now rewrite SFmul_comm.
  - intros Hnot.
    assert (Hn : L.isNumber h a && L.isNumber h b = false).
    { destruct Hnot as [Ha|Hb].
      - now rewrite (not_a_number h a Ha).
      - rewrite (not_a_number h b Hb). apply andb_false_r. }
    unfold L.add, L.sub, L.mul, L.div, L.rem, L.mod_. rewrite Hn. repeat split.
Qed.

Lemma arithmetic_wrappers_witness :
  L.div ex_heap (num 1) (num 0) = Return (VNumber Infinity)
  /\ L.add ex_heap (num 1) (VString "1")
     = Throw (TypeError "Expecting two Number arguments, got: number, string").
Proof.
  split.
  - apply (proj1 (arithmetic_wrappers ex_heap (num 1) (num 0))
                 (num_of_Z 1) (num_of_Z 0) eq_refl eq_refl).
  - apply (proj2 (arithmetic_wrappers ex_heap (num 1) (VString "1"))).
    right. discriminate.
Defined.

(** X8.  On the Booleans [true] and [false], [and], [or] and [not] are the
    conjunction, the disjunction and the negation.  [and] and [or] raise
    the TypeError that names both types as soon as [isBoolean] rejects one
    operand.  [not] of a value that [isBoolean] rejects raises too, but
    which error depends on the global object: its message calls [type], so
    it is that TypeError after [L.install()] and a ReferenceError before.
    [isBoolean] rejects every value that is neither [true] nor [false] nor
    of class Boolean. *)
Theorem boolean_wrappers (installed : bool) (h : heap) (a b : value) :
  (forall x y, a = VBool x -> b = VBool y ->
               L.and h a b = Return (VBool (x && y))
               /\ L.or h a b = Return (VBool (x || y))
               /\ L.not installed h a = Return (VBool (negb x)))
  /\ (L.isBoolean h a = false \/ L.isBoolean h b = false ->
      L.and h a b = Throw (L.expecting_booleans h a b)
      /\ L.or h a b = Throw (L.expecting_booleans h a b))
  /\ (L.isBoolean h a = false ->
      L.not true h a
      = Throw (TypeError ("Expected Boolean value, got: " ++ L.type h a)%string)
      /\ L.not false h a = Throw (ReferenceError "type is not defined"))
  /\ ((forall x, a <> VBool x) ->
      class_of h a <> "[object Boolean]"%string ->
      L.isBoolean h a = false).
Proof.
  split; [|split; [|split]].
  - intros x y -> ->. destruct x, y; repeat split.
  - intros Hnot.
    assert (Hn : L.isBoolean h a && L.isBoolean h b = false).
    { destruct Hnot as [-> | ->]; [reflexivity|apply andb_false_r]. }
    unfold L.and, L.or. rewrite Hn. split; reflexivity.
  - intros Ha. unfold L.not. rewrite Ha. split; reflexivity.
  - intros Ha Hclass. unfold L.isBoolean.
    apply String.eqb_neq in Hclass. rewrite Hclass, orb_false_r.
    destruct a as [| |x| | |l]; try reflexivity. now contradiction (Ha x).
Qed.

Lemma boolean_wrappers_witness :
  L.and ex_heap (VBool true) (VBool false) = Return (VBool false)
  /\ L.or ex_heap (num 1) (VBool true)
     = Throw (TypeError "Expecting two Boolean arguments, got: number, boolean")
  /\ L.not false ex_heap (num 1) = Throw (ReferenceError "type is not defined")
  /\ L.isBoolean ex_heap (VObject 1) = false.
Proof.
  split; [|split; [|split]].
  - apply (proj1 (boolean_wrappers false ex_heap (VBool true) (VBool false))
                 true false eq_refl eq_refl).
  - apply (proj1 (proj2 (boolean_wrappers false ex_heap (num 1) (VBool true)))).
    left. reflexivity.
  - apply (proj1 (proj2 (proj2 (boolean_wrappers false ex_heap (num 1) (VBool true))))).
    reflexivity.
  - apply (proj2 (proj2 (proj2 (boolean_wrappers false ex_heap (VObject 1) VNull))));
      discriminate.
Defined.

(** ** [type] *)

(** X9.  The eight type tests cover the values, wrapper objects included:
    for every value at least one of [isArray], [isFunction], [isObject],
    [isString], [isNumber], [isBoolean], [isNull] and [isUndefined] holds,
    and [type] returns the name of the first one that does, in this order
    (never the [false] that ends its chain of [||]).  Exactly one test
    holds, except for the objects that [new Number] and [new Boolean] make:
    of these [isObject] holds as well as [isNumber] or [isBoolean], and
    their [type] is ['object'].  An object that [new String] makes passes
    [isString] only.  On the values of the store the tests are those used
    everywhere else. *)
Theorem type_tests_cover (h : heap) (x : L.tested) :
  (exists i,
      nth_error (type_tests h x) i = Some true
      /\ (forall j, j < i -> nth_error (type_tests h x) j = Some false)
      /\ nth_error type_names i = Some (L.Tested.type h x))
  /\ List.length (filter (fun b : bool => b) (type_tests h x))
     = match x with
       | L.Wrapper (L.NumberObject _) | L.Wrapper (L.BooleanObject _) => 2
       | _ => 1
       end
  /\ (forall n, x = L.Wrapper (L.NumberObject n) ->
                L.Tested.isObject h x = true /\ L.Tested.isNumber h x = true
                /\ L.Tested.type h x = "object"%string)
  /\ (forall b, x = L.Wrapper (L.BooleanObject b) ->
                L.Tested.isObject h x = true /\ L.Tested.isBoolean h x = true
                /\ L.Tested.type h x = "object"%string)
  /\ (forall s, x = L.Wrapper (L.StringObject s) ->
                L.Tested.isObject h x = false /\ L.Tested.isString h x = true
                /\ L.Tested.type h x = "string"%string)
  /\ (forall v, x = L.Value v ->
                type_tests h x
                = [L.isArray h v; L.isFunction h v; L.isObject h v; L.isString h v;
                   L.isNumber h v; L.isBoolean h v; L.isNull v; L.isUndefined v]
                /\ L.Tested.type h x = L.type h v).
Proof.
  assert (Hvalue : forall v,
             type_tests h (L.Value v)
             = [L.isArray h v; L.isFunction h v; L.isObject h v; L.isString h v;
                L.isNumber h v; L.isBoolean h v; L.isNull v; L.isUndefined v]
             /\ L.Tested.type h (L.Value v) = L.type h v).
  { intros v. split; [|unfold L.Tested.type, L.type];
      destruct v; reflexivity. }
  split; [|split; [|split; [|split; [|split]]]].
  - unfold type_tests, type_names, L.Tested.type, L.Tested.isObject, L.Tested.isArray,
      L.Tested.isFunction, L.Tested.isString, L.Tested.isNumber, L.Tested.isBoolean,
      L.Tested.isNull, L.Tested.isUndefined.
    destruct x as [[| |[|]|n|s|l]|[n|b|s]];
      cbn [L.Tested.class_of class_of]; [| | | | | |destruct (h l)| | |];
      cbn;
      first [ exists 0; split; [reflexivity|]; split; [|reflexivity]
            | exists 1; split; [reflexivity|]; split; [|reflexivity]
            | exists 2; split; [reflexivity|]; split; [|reflexivity]
            | exists 3; split; [reflexivity|]; split; [|reflexivity]
            | exists 4; split; [reflexivity|]; split; [|reflexivity]
            | exists 5; split; [reflexivity|]; split; [|reflexivity]
            | exists 6; split; [reflexivity|]; split; [|reflexivity]
            | exists 7; split; [reflexivity|]; split; [|reflexivity] ];
      intros j Hj;
      repeat (destruct j as [|j]; [reflexivity|]); lia.
  - unfold type_tests, L.Tested.isObject, L.Tested.isArray,
      L.Tested.isFunction, L.Tested.isString, L.Tested.isNumber, L.Tested.isBoolean,
      L.Tested.isNull, L.Tested.isUndefined.
    destruct x as [[| |[|]|n|s|l]|[n|b|s]];
      cbn [L.Tested.class_of class_of]; [| | | | | |destruct (h l)| | |];
      reflexivity.
  - intros y ->. repeat split.
  - intros y ->. repeat split.
  - intros y ->. repeat split.
  - intros y ->. apply Hvalue.
Qed.

Lemma type_tests_cover_witness :
  L.Tested.type ex_heap (L.Wrapper (L.NumberObject (num_of_Z 1))) = "object"%string
  /\ L.Tested.isNumber ex_heap (L.Wrapper (L.NumberObject (num_of_Z 1))) = true
  /\ L.Tested.type ex_heap (L.Wrapper (L.StringObject "a")) = "string"%string
  /\ L.Tested.type ex_heap (L.Value (VObject 1)) = L.type ex_heap (VObject 1).
Proof.
  split; [|split; [|split]].
  - apply (proj1 (proj2 (proj2 (type_tests_cover
             ex_heap (L.Wrapper (L.NumberObject (num_of_Z 1))))))
             (num_of_Z 1) eq_refl).
  - apply (proj1 (proj2 (proj2 (type_tests_cover
             ex_heap (L.Wrapper (L.NumberObject (num_of_Z 1))))))
             (num_of_Z 1) eq_refl).
  - apply (proj1 (proj2 (proj2 (proj2 (proj2 (type_tests_cover
             ex_heap (L.Wrapper (L.StringObject "a")))))))
             "a"%string eq_refl).
  - apply (proj2 (proj2 (proj2 (proj2 (proj2 (type_tests_cover
             ex_heap (L.Value (VObject 1))))))) (VObject 1) eq_refl).
Defined.

(** ** Lists: [head], [last], [tail], [init] *)

Lemma num_eqb_integers (x y : Z) :
  (Z.abs x < 2 ^ 53)%Z -> (Z.abs y < 2 ^ 53)%Z ->
  num_eqb (num_of_Z x) (num_of_Z y) = (x =? y)%Z.
Proof.
  intros Hx Hy. unfold num_eqb, SFeqb. rewrite (SFcompare_integers x y Hx Hy).
  destruct (Z.compare_spec x y) as [H|H|H]; symmetry;
    [apply Z.eqb_eq|apply Z.eqb_neq|apply Z.eqb_neq]; lia.
Qed.

Lemma shape_of_sized (h : heap) (xs : value) (sh : L.shape) :
  L.shape_of h xs = Some sh -> (Z.of_nat (length (L.items sh)) < 2 ^ 53)%Z.
Proof.
  unfold L.shape_of. destruct xs as [| | | |s|l]; try discriminate.
  - destruct (L.sized (L.IsString s)) eqn:Hs; [|discriminate].
    intros [= <-]. apply Z.ltb_lt. exact Hs.
  - destruct (h l); try discriminate.
    destruct (L.sized (L.IsArray elems)) eqn:Hs; [|discriminate].
    intros [= <-]. apply Z.ltb_lt in Hs. cbn [L.items].
    eapply Z.lt_trans; [exact Hs|reflexivity].
Qed.

Lemma empty_on_list (st : L.state) (xs : value) (sh : L.shape) :
  L.shape_of (L.heap_of st) xs = Some sh ->
  L.empty xs st
  = Some (L.Ok (VBool (match L.items sh with [] => true | _ :: _ => false end)), st).
Proof.
  intros Hsh. pose proof (shape_of_sized _ _ _ Hsh) as Hlen.
  unfold L.empty, L.length, L.with_shape, L.bind, L.store_now, L.ret.
  rewrite Hsh. cbn [strict_eq].
  rewrite num_eqb_integers by lia.
  destruct (L.items sh); reflexivity.
Qed.

Lemma length_chars (s : string) : length (L.chars s) = String.length s.
Proof.
  unfold L.chars. rewrite length_map.
  induction s as [|c s IH]; cbn; [reflexivity|now rewrite IH].
Qed.

Lemma chars_substring (n : nat) (s : string) :
  L.chars (substring 0 n s) = firstn n (L.chars s).
Proof.
  revert n. induction s as [|c s IH]; intros [|n]; try reflexivity.
  cbn [substring]. unfold L.chars in *. cbn [list_ascii_of_string map firstn].
  now rewrite IH.
Qed.

Lemma substring_all (s : string) : substring 0 (String.length s) s = s.
Proof. induction s as [|c s IH]; cbn; [reflexivity|now rewrite IH]. Qed.

Lemma tl_firstn_skipn {A : Type} (l : list A) :
  firstn (length l - 1) (skipn 1 l) = tl l.
Proof.
  destruct l as [|x l]; [reflexivity|]. cbn [length skipn tl].
  rewrite Nat.sub_succ, Nat.sub_0_r. apply firstn_all.
Qed.

Lemma removelast_firstn_skipn {A : Type} (l : list A) :
  firstn (length l - 1 - 0) (skipn 0 l) = removelast l.
Proof.
  rewrite Nat.sub_0_r. cbn [skipn].
  destruct l as [|x l]; [reflexivity|].
  rewrite removelast_firstn_len. now rewrite Nat.sub_1_r.
Qed.

Lemma nth_last {A : Type} (l : list A) (d : A) :
  nth (length l - 1) l d = List.last l d.
Proof.
  induction l as [|x l IH]; [reflexivity|].
  destruct l as [|y l]; [reflexivity|].
  cbn [length] in *. rewrite Nat.sub_succ, Nat.sub_0_r in *.
  cbn [nth List.last]. exact IH.
Qed.

(** What the four return on an Array or a String. *)
Lemma list_parts (st : L.state) (xs : value) (sh : L.shape) :
  L.shape_of (L.heap_of st) xs = Some sh ->
  (L.items sh = [] ->
   L.head xs st = Some (L.Raise (L.Error "head of empty array"), st)
   /\ L.last xs st = Some (L.Raise (L.Error "last of empty array"), st)
   /\ L.tail xs st = Some (L.Raise (L.Error "tail of empty array"), st)
   /\ L.init xs st = Some (L.Raise (L.Error "init of empty array"), st))
  /\ (L.items sh <> [] ->
      L.head xs st = Some (L.Ok (hd VUndefined (L.items sh)), st)
      /\ L.last xs st = Some (L.Ok (List.last (L.items sh) VUndefined), st)
      /\ match sh with
         | L.IsArray elems =>
             L.tail xs st = L.new_array (tl elems) st
             /\ L.init xs st = L.new_array (removelast elems) st
         | L.IsString s =>
             exists t i : string,
               L.tail xs st = Some (L.Ok (VString t), st)
               /\ L.init xs st = Some (L.Ok (VString i), st)
               /\ L.chars t = tl (L.chars s)
               /\ L.chars i = removelast (L.chars s)
         end).
Proof.
  intros Hsh. pose proof (empty_on_list st xs sh Hsh) as He.
  unfold L.head, L.last, L.tail, L.init, L.bind. rewrite He.
  split.
  - intros ->. repeat split.
  - intros Hne. destruct (L.items sh) as [|x rest] eqn:Hitems; [congruence|].
    cbn [L.cond L.ToBoolean].
    unfold L.slice, L.item, L.with_shape, L.bind, L.store_now, L.ret.
    rewrite !Hsh, Hitems. cbn [hd]. split; [reflexivity|]. split.
    { now rewrite <- nth_last. }
    destruct sh as [elems|s]; cbn [L.items] in Hitems.
    + rewrite <- Hitems, tl_firstn_skipn, removelast_firstn_skipn. split; reflexivity.
    + exists (substring 1 (length (x :: rest) - 1) s),
             (substring 0 (length (x :: rest) - 1 - 0) s).
      split; [reflexivity|]. split; [reflexivity|].
      rewrite <- Hitems, length_chars. split.
      * destruct s as [|c s]; [discriminate Hitems|].
        cbn [String.length substring]. rewrite Nat.sub_succ, Nat.sub_0_r.
        now rewrite substring_all.
      * rewrite chars_substring, <- length_chars.
        apply removelast_firstn_skipn.
Qed.

(** X10.  On an Array or a String [head], [last], [tail] and [init] raise
    the Error that names them exactly when it is empty, and leave the store
    as it is.  On a non-empty one [head] and [last] return the first and
    the last item; [tail] and [init] return a new array of the other items
    for an Array and, without touching the store, the String of the other
    characters for a String. *)
Theorem head_last_tail_init (st : L.state) (xs : value) (sh : L.shape) :
  L.shape_of (L.heap_of st) xs = Some sh ->
  (L.items sh = [] ->
   L.head xs st = Some (L.Raise (L.Error "head of empty array"), st)
   /\ L.last xs st = Some (L.Raise (L.Error "last of empty array"), st)
   /\ L.tail xs st = Some (L.Raise (L.Error "tail of empty array"), st)
   /\ L.init xs st = Some (L.Raise (L.Error "init of empty array"), st))
  /\ (L.items sh <> [] ->
      L.head xs st = Some (L.Ok (hd VUndefined (L.items sh)), st)
      /\ L.last xs st = Some (L.Ok (List.last (L.items sh) VUndefined), st)
      /\ match sh with
         | L.IsArray elems =>
             L.tail xs st = L.new_array (tl elems) st
             /\ L.init xs st = L.new_array (removelast elems) st
         | L.IsString s =>
             exists t i : string,
               L.tail xs st = Some (L.Ok (VString t), st)
               /\ L.init xs st = Some (L.Ok (VString i), st)
               /\ L.chars t = tl (L.chars s)
               /\ L.chars i = removelast (L.chars s)
         end).
Proof. exact (list_parts st xs sh). Qed.

Lemma head_last_tail_init_witness :
  L.head (VObject 4) (L.State ex_heap 16)
  = Some (L.Raise (L.Error "head of empty array"), L.State ex_heap 16)
  /\ L.last (VString "abc") (L.State ex_heap 16)
     = Some (L.Ok (VString "c"), L.State ex_heap 16).
Proof.
  split.
  - apply (proj1 (head_last_tail_init (L.State ex_heap 16) (VObject 4) (L.IsArray [])
                    eq_refl) eq_refl).
  - apply (proj2 (head_last_tail_init (L.State ex_heap 16) (VString "abc")
                    (L.IsString "abc") eq_refl)).
    discriminate.
Defined.

(** ** Lists: [cons] and [append] *)

Lemma chars_app (s t : string) : L.chars (s ++ t) = L.chars s ++ L.chars t.
Proof.
  unfold L.chars. induction s as [|c s IH]; [reflexivity|].
  cbn [String.append list_ascii_of_string map app]. now rewrite IH.
Qed.

Lemma chars_inj (s t : string) : L.chars s = L.chars t -> s = t.
Proof.
  unfold L.chars. revert t.
  induction s as [|c s IH]; intros [|d t]; cbn; try discriminate; [reflexivity|].
  intros [= -> H]. now rewrite (IH t H).
Qed.

Lemma extends_refl (st : L.state) : extends st st.
Proof. split; [apply Nat.le_refl|reflexivity]. Qed.

Lemma extends_trans (st1 st2 st3 : L.state) :
  extends st1 st2 -> extends st2 st3 -> extends st1 st3.
Proof.
  intros [Hn H] [Hn' H']. split; [lia|].
  intros l Hl. rewrite H' by lia. now apply H.
Qed.

Lemma extends_alloc (o : object) (st : L.state) : extends st (snd (L.alloc o st)).
Proof.
  split; cbn; [lia|]. intros l Hl.
  destruct (Nat.eqb_spec l (L.next st)); [lia|reflexivity].
Qed.

Lemma isString_String (h : heap) (v : value) :
  L.isString h v = match v with VString _ => true | _ => false end.
Proof.
  unfold L.isString. destruct v as [| | | | |l]; try reflexivity.
  cbn [class_of]. destruct (h l); reflexivity.
Qed.

Lemma isArray_Array (h : heap) (v : value) :
  L.isArray h v
  = match v with
    | VObject l => match h l with OArray _ => true | _ => false end
    | _ => false
    end.
Proof.
  unfold L.isArray. destruct v as [| | | | |l]; try reflexivity.
  cbn [class_of]. destruct (h l); reflexivity.
Qed.

Lemma new_array_spec (elems : list value) (st : L.state) :
  exists st',
    L.new_array elems st = Some (L.Ok (VObject (L.next st)), st')
    /\ L.next st' = S (L.next st)
    /\ L.heap_of st' (L.next st) = OArray elems
    /\ forall l, l <> L.next st -> L.heap_of st' l = L.heap_of st l.
Proof.
  eexists. split; [reflexivity|]. cbn. rewrite Nat.eqb_refl.
  repeat split. intros l Hl. now destruct (Nat.eqb_spec l (L.next st)).
Qed.

(** [cons] and [append] on an array of the store. *)
Lemma cons_array (installed : bool) (st : L.state) (x : value) (l : loc)
      (elems : list value) :
  l < L.next st ->
  L.heap_of st l = OArray elems ->
  exists st',
    L.cons installed x (VObject l) st = Some (L.Ok (VObject (S (L.next st))), st')
    /\ L.next st' = S (S (L.next st))
    /\ L.heap_of st' (S (L.next st)) = OArray (x :: elems)
    /\ forall k, k < L.next st -> L.heap_of st' k = L.heap_of st k.
Proof.
  intros Hl Hh. unfold L.cons, L.bind, L.store_now. rewrite isString_String.
  destruct (new_array_spec [x] st) as (st1 & -> & Hn1 & Hx1 & Hf1).
  destruct (new_array_spec (L.elements (L.heap_of st1) (VObject (L.next st))
                            ++ L.spread (L.heap_of st1) (VObject l)) st1)
    as (st2 & -> & Hn2 & Hx2 & Hf2).
  rewrite Hn1 in *. exists st2. split; [reflexivity|].
  split; [exact Hn2|]. split.
  - rewrite Hx2. unfold L.spread. rewrite isArray_Array. cbn [L.elements].
    rewrite Hx1, Hf1, Hh by lia. reflexivity.
  - intros k Hk. rewrite Hf2, Hf1 by lia. reflexivity.
Qed.

Lemma append_array (installed : bool) (st : L.state) (x : value) (l : loc)
      (elems : list value) :
  l < L.next st ->
  L.heap_of st l = OArray elems ->
  exists st',
    L.append installed x (VObject l) st = Some (L.Ok (VObject (S (L.next st))), st')
    /\ L.next st' = S (S (L.next st))
    /\ L.heap_of st' (S (L.next st)) = OArray (elems ++ [x])
    /\ forall k, k < L.next st -> L.heap_of st' k = L.heap_of st k.
Proof.
  intros Hl Hh. unfold L.append, L.bind, L.store_now.
  rewrite isString_String, isArray_Array, Hh.
  destruct (new_array_spec [x] st) as (st1 & -> & Hn1 & Hx1 & Hf1).
  destruct (new_array_spec (L.elements (L.heap_of st1) (VObject l)
                            ++ L.spread (L.heap_of st1) (VObject (L.next st))) st1)
    as (st2 & -> & Hn2 & Hx2 & Hf2).
  rewrite Hn1 in *. exists st2. split; [reflexivity|].
  split; [exact Hn2|]. split.
  - rewrite Hx2. unfold L.spread. rewrite isArray_Array. cbn [L.elements].
    rewrite Hx1, Hf1, Hh by lia. reflexivity.
  - intros k Hk. rewrite Hf2, Hf1 by lia. reflexivity.
Qed.

(** X11.  Taking a non-empty list apart and putting it together again gives
    the list back: [cons(head(xs), tail(xs))] and [append(last(xs),
    init(xs))] are, for an Array, a new array of the same elements, the
    objects of the store being left as they were, and for a String the same
    String. *)
Theorem cons_head_tail_append_last_init
        (installed : bool) (st : L.state) (xs : value) (sh : L.shape) :
  L.shape_of (L.heap_of st) xs = Some sh ->
  L.items sh <> [] ->
  forall parts : L.M value,
    parts = L.bind (L.head xs) (fun x =>
            L.bind (L.tail xs) (fun t => L.cons installed x t))
    \/ parts = L.bind (L.last xs) (fun x =>
               L.bind (L.init xs) (fun i => L.append installed x i)) ->
    exists (v : value) (st' : L.state),
      parts st = Some (L.Ok v, st')
      /\ extends st st'
      /\ match sh with
         | L.IsArray elems => new_in st st' v elems
         | L.IsString _ => v = xs /\ st' = st
         end.
Proof.
  intros Hsh Hne parts Hparts.
  destruct (list_parts st xs sh Hsh) as [_ H].
  destruct (H Hne) as (Hhead & Hlast & Hrest). clear H.
  destruct sh as [elems|s]; cbn [L.items] in *.
  - destruct Hrest as [Htail Hinit].
    destruct elems as [|x rest]; [congruence|].
    destruct Hparts as [-> | ->]; unfold L.bind.
    + rewrite Hhead, Htail. cbn [hd tl].
      destruct (new_array_spec rest st) as (st1 & -> & Hn1 & Hx1 & Hf1).
      destruct (cons_array installed st1 x (L.next st) rest) as (st2 & -> & Hn2 & Hx2 & Hf2);
        [lia|exact Hx1|].
      rewrite Hn1 in *. exists (VObject (S (S (L.next st)))), st2.
      split; [reflexivity|]. split.
      * split; [lia|]. intros l Hl. rewrite Hf2, Hf1 by lia. reflexivity.
      * exists (S (S (L.next st))). repeat split; [lia|lia|exact Hx2].
    + rewrite Hlast, Hinit.
      destruct (new_array_spec (removelast (x :: rest)) st) as (st1 & -> & Hn1 & Hx1 & Hf1).
      destruct (append_array installed st1 (last (x :: rest) VUndefined) (L.next st)
                             (removelast (x :: rest)))
        as (st2 & -> & Hn2 & Hx2 & Hf2); [lia|exact Hx1|].
      rewrite Hn1 in *. exists (VObject (S (S (L.next st)))), st2.
      split; [reflexivity|]. split.
      * split; [lia|]. intros l Hl. rewrite Hf2, Hf1 by lia. reflexivity.
      * exists (S (S (L.next st))). repeat split; [lia|lia|].
        rewrite Hx2, <- app_removelast_last by discriminate. reflexivity.
  - destruct Hrest as (t & i & Htail & Hinit & Ht & Hi).
    assert (Hxs : xs = VString s).
    { unfold L.shape_of in Hsh. destruct xs as [| | | |s'|l]; try discriminate.
      - destruct (L.sized (L.IsString s')); congruence.
      - destruct (L.heap_of st l); try discriminate.
        destruct (L.sized (L.IsArray elems)); discriminate. }
    destruct (L.chars s) as [|x rest] eqn:Hchars; [congruence|].
    assert (Hx : forall y, In y (x :: rest) -> exists c, y = VString (String c EmptyString)).
    { intros y Hy. rewrite <- Hchars in Hy. unfold L.chars in Hy.
      apply in_map_iff in Hy. destruct Hy as (c & <- & _). now exists c. }
    exists xs, st. split; [|split; [apply extends_refl|split; reflexivity]].
    destruct Hparts as [-> | ->]; unfold L.bind.
    + rewrite Hhead, Htail. cbn [hd].
      destruct (Hx x (or_introl eq_refl)) as (c & ->).
      unfold L.cons, L.bind, L.store_now, L.ret. rewrite !isString_String.
      cbn. do 3 f_equal. rewrite Hxs. f_equal. apply chars_inj.
      rewrite Hchars. change (String c t) with (String c EmptyString ++ t)%string.
      rewrite chars_app, Ht. reflexivity.
    + rewrite Hlast, Hinit.
      destruct (Hx (List.last (x :: rest) VUndefined)) as (c & Hc).
      { destruct (exists_last (l := x :: rest)) as (l' & a & Hl'); [discriminate|].
        rewrite Hl', last_last. apply in_or_app. right. now left. }
      rewrite Hc.
      unfold L.append, L.bind, L.store_now, L.ret. rewrite !isString_String.
      cbn. do 3 f_equal. rewrite Hxs. f_equal. apply chars_inj.
      rewrite chars_app, Hi, Hchars.
      change (L.chars (String c EmptyString)) with [VString (String c EmptyString)].
      rewrite <- Hc. symmetry. apply app_removelast_last. discriminate.
Qed.

Lemma cons_head_tail_append_last_init_witness :
  exists (v : value) (st' : L.state),
    L.bind (L.head (VObject 7)) (fun x =>
      L.bind (L.tail (VObject 7)) (fun t => L.cons false x t)) (L.State ex_heap 16)
    = Some (L.Ok v, st')
    /\ extends (L.State ex_heap 16) st'
    /\ new_in (L.State ex_heap 16) st' v [num 1; num 2; num 3].
Proof.
  apply (cons_head_tail_append_last_init false (L.State ex_heap 16) (VObject 7)
           (L.IsArray [num 1; num 2; num 3]) eq_refl).
  - discriminate.
  - left. reflexivity.
Defined.

(** X12.  [cons(x, xs)] and [append(x, xs)] on an Array return a new array,
    [x] before or after the elements of [xs] ([x] is one element even when
    it is an Array itself), and leave the objects of the store as they were.
    On two Strings they return the joined String.  When [xs] is a String and
    [x] is not, both raise: the TypeError that names the types after
    [L.install()], a ReferenceError before, since the message calls [type].
    [cons] on a second operand that is neither String nor Array puts it
    after [x] in a new array of two elements. *)
Theorem cons_append_results (installed : bool) (st : L.state) (x xs : value) :
  in_store st xs ->
  (forall elems,
      L.shape_of (L.heap_of st) xs = Some (L.IsArray elems) ->
      exists v v' st1 st2,
        L.cons installed x xs st = Some (L.Ok v, st1)
        /\ L.append installed x xs st = Some (L.Ok v', st2)
        /\ new_in st st1 v (x :: elems) /\ extends st st1
        /\ new_in st st2 v' (elems ++ [x]) /\ extends st st2)
  /\ (forall s t,
         xs = VString s -> x = VString t ->
         L.cons installed x xs st = Some (L.Ok (VString (t ++ s)), st)
         /\ L.append installed x xs st = Some (L.Ok (VString (s ++ t)), st))
  /\ (forall s,
         xs = VString s -> (forall t, x <> VString t) ->
         L.cons installed x xs st
         = Some (L.Raise (L.expecting_string installed (L.heap_of st) x xs), st)
         /\ L.append installed x xs st
            = Some (L.Raise (L.expecting_string installed (L.heap_of st) x xs), st)
         /\ L.expecting_string false (L.heap_of st) x xs
            = L.Native (ReferenceError "type is not defined")
         /\ L.expecting_string true (L.heap_of st) x xs
            = L.Native (TypeError
                ("When second argument is String, first argument should alsobe String, got: "
                   ++ L.type (L.heap_of st) x ++ ", string")))
  /\ (L.isString (L.heap_of st) xs = false ->
      L.isArray (L.heap_of st) xs = false ->
      exists v st1,
        L.cons installed x xs st = Some (L.Ok v, st1)
        /\ new_in st st1 v [x; xs] /\ extends st st1).
Proof.
  intros Hin. split; [|split; [|split]].
  - intros elems Hsh.
    assert (Hl : exists l, xs = VObject l /\ L.heap_of st l = OArray elems).
    { unfold L.shape_of in Hsh. destruct xs as [| | | |s|l]; try discriminate.
      - destruct (L.sized (L.IsString s)); discriminate.
      - exists l. split; [reflexivity|]. destruct (L.heap_of st l); try discriminate.
        destruct (L.sized (L.IsArray elems0)); congruence. }
    destruct Hl as (l & -> & Hh). cbn [in_store] in Hin.
    destruct (cons_array installed st x l elems Hin Hh) as (st1 & Hc & Hn1 & Hx1 & Hf1).
    destruct (append_array installed st x l elems Hin Hh) as (st2 & Ha & Hn2 & Hx2 & Hf2).
    exists (VObject (S (L.next st))), (VObject (S (L.next st))), st1, st2.
    split; [exact Hc|]. split; [exact Ha|].
    split; [exists (S (L.next st)); repeat split; [lia|lia|exact Hx1]|].
    split; [split; [lia|exact Hf1]|].
    split; [exists (S (L.next st)); repeat split; [lia|lia|exact Hx2]|].
    split; [lia|exact Hf2].
  - intros s t -> ->. split; reflexivity.
  - intros s -> Hx.
    assert (Hns : L.isString (L.heap_of st) x = false).
    { rewrite isString_String. destruct x; try reflexivity. now destruct (Hx s0). }
    unfold L.cons, L.append, L.bind, L.store_now. rewrite Hns.
    repeat split.
  - intros Hs Ha. unfold L.cons, L.bind, L.store_now. rewrite Hs.
    destruct (new_array_spec [x] st) as (st1 & -> & Hn1 & Hx1 & Hf1).
    destruct (new_array_spec (L.elements (L.heap_of st1) (VObject (L.next st))
                              ++ L.spread (L.heap_of st1) xs) st1)
      as (st2 & -> & Hn2 & Hx2 & Hf2).
    rewrite Hn1 in *. exists (VObject (S (L.next st))), st2.
    split; [reflexivity|]. split.
    + exists (S (L.next st)). repeat split; [lia|lia|].
      rewrite Hx2. cbn [L.elements]. rewrite Hx1. unfold L.spread.
      replace (L.isArray (L.heap_of st1) xs) with false; [reflexivity|].
      rewrite isArray_Array in *. destruct xs as [| | | | |l]; try reflexivity.
      cbn [in_store] in Hin. rewrite Hf1 by lia. now rewrite Ha.
    + split; [lia|]. intros k Hk. rewrite Hf2, Hf1 by lia. reflexivity.
Qed.

Lemma cons_append_results_witness :
  L.cons false (num 1) (VString "abc") (L.State ex_heap 16)
  = Some (L.Raise (L.Native (ReferenceError "type is not defined")), L.State ex_heap 16)
  /\ exists v st1,
       L.cons false (VObject 4) (VObject 15) (L.State ex_heap 16) = Some (L.Ok v, st1)
       /\ new_in (L.State ex_heap 16) st1 v [VObject 4; num 1; num 2].
Proof.
  split.
  - apply (proj1 (proj2 (proj2 (cons_append_results false (L.State ex_heap 16) (num 1)
                                  (VString "abc") I))) "abc" eq_refl).
    discriminate.
  - destruct (proj1 (cons_append_results false (L.State ex_heap 16) (VObject 4)
                       (VObject 15) (Nat.lt_succ_diag_r 15)) [num 1; num 2] eq_refl)
      as (v & _ & st1 & _ & Hc & _ & Hnew & _).
    exists v, st1. split; [exact Hc|exact Hnew].
Defined.

(** ** Lists: [concat] *)

Lemma no_arrays_spread (h : heap) (ys : list value) :
  (forall y, In y ys -> L.isArray h y = false) ->
  concat (map (L.spread h) ys) = ys.
Proof.
  induction ys as [|y ys IH]; intros Hno; [reflexivity|].
  cbn [map concat]. unfold L.spread at 1.
  rewrite (Hno y (or_introl eq_refl)), IH; [reflexivity|].
  intros z Hz. apply Hno. now right.
Qed.

(** X13.  [concat(a, b)] on two Arrays returns a new array: the elements of
    [a], then those of [b] where each element of [b] that is itself an Array
    is replaced by its own elements (the elements of [b] are given to
    [Array.prototype.concat] as so many arguments); so it is [a] followed by
    [b] when no element of [b] is an Array.  On two Strings it returns the
    joined String.  In every other case it raises the Error that quotes the
    [typeof] of both operands, and the store is as it was. *)
Theorem concat_results (st : L.state) (a b : value) :
  (forall xs ys,
      L.shape_of (L.heap_of st) a = Some (L.IsArray xs) ->
      L.shape_of (L.heap_of st) b = Some (L.IsArray ys) ->
      exists v st',
        L.concat a b st = Some (L.Ok v, st')
        /\ new_in st st' v (xs ++ flat_map (L.spread (L.heap_of st)) ys)
        /\ extends st st'
        /\ ((forall y, In y ys -> L.isArray (L.heap_of st) y = false) ->
            flat_map (L.spread (L.heap_of st)) ys = ys))
  /\ (forall s t,
         a = VString s -> b = VString t ->
         L.concat a b st = Some (L.Ok (VString (s ++ t)), st))
  /\ (L.isArray (L.heap_of st) a && L.isArray (L.heap_of st) b = false ->
      L.isString (L.heap_of st) a && L.isString (L.heap_of st) b = false ->
      L.concat a b st
      = Some (L.Raise (L.Error ("Cannot concat types "
                                  ++ L.quoted (typeof (L.heap_of st) a) ++ " and "
                                  ++ L.quoted (typeof (L.heap_of st) b))), st)).
Proof.
  split; [|split].
  - intros xs ys Ha Hb.
    assert (Hel : forall v zs, L.shape_of (L.heap_of st) v = Some (L.IsArray zs) ->
                               L.isArray (L.heap_of st) v = true
                               /\ L.elements (L.heap_of st) v = zs).
    { intros v zs Hsh. rewrite isArray_Array. unfold L.shape_of in Hsh.
      destruct v as [| | | |s|l]; try discriminate.
      - destruct (L.sized (L.IsString s)); discriminate.
      - cbn [L.elements]. destruct (L.heap_of st l); try discriminate.
        destruct (L.sized (L.IsArray elems)); [|discriminate].
        injection Hsh as ->. split; reflexivity. }
    destruct (Hel a xs Ha) as [Haa Hea]. destruct (Hel b ys Hb) as [Hab Heb].
    unfold L.concat, L.bind, L.store_now. rewrite Haa, Hab, Hea, Heb. cbn [andb].
    rewrite <- flat_map_concat_map.
    destruct (new_array_spec (xs ++ flat_map (L.spread (L.heap_of st)) ys) st)
      as (st' & -> & Hn & Hx & Hf).
    exists (VObject (L.next st)), st'. split; [reflexivity|]. split.
    + exists (L.next st). repeat split; [lia|lia|exact Hx].
    + split.
      * split; [lia|]. intros l Hl. apply Hf. lia.
      * intros Hno. rewrite flat_map_concat_map. now apply no_arrays_spread.
  - intros s t -> ->. reflexivity.
  - intros Ha Hs. unfold L.concat, L.bind, L.store_now. rewrite Ha, Hs. reflexivity.
Qed.

Lemma concat_results_witness :
  L.concat (VObject 7) (VString "abc") (L.State ex_heap 16)
  = Some (L.Raise (L.Error (String.concat (String (ascii_of_nat 34) EmptyString)
                              ["Cannot concat types "; "object"; " and "; "string";
                               EmptyString])),
          L.State ex_heap 16)
  /\ exists v st',
       L.concat (VObject 15) (VObject 15) (L.State ex_heap 16) = Some (L.Ok v, st')
       /\ new_in (L.State ex_heap 16) st' v [num 1; num 2; num 1; num 2].
Proof.
  split.
  - apply (proj2 (proj2 (concat_results (L.State ex_heap 16) (VObject 7) (VString "abc")))
             eq_refl eq_refl).
  - destruct (proj1 (concat_results (L.State ex_heap 16) (VObject 15) (VObject 15))
                    [num 1; num 2] [num 1; num 2] eq_refl eq_refl)
      as (v & st' & Hc & Hnew & _).
    exists v, st'. split; [exact Hc|exact Hnew].
Defined.

(** ** Lists: folds *)

Lemma shape_array (h : heap) (xs : value) (elems : list value) :
  L.shape_of h xs = Some (L.IsArray elems) ->
  exists l, xs = VObject l /\ h l = OArray elems
            /\ (Z.of_nat (length elems) < 2 ^ 32)%Z.
Proof.
  unfold L.shape_of. destruct xs as [| | | |s|l]; try discriminate.
  - destruct (L.sized (L.IsString s)); discriminate.
  - intros H. exists l. destruct (h l); try discriminate.
    destruct (L.sized (L.IsArray elems0)) eqn:Hs; [|discriminate].
    injection H as ->. repeat split. now apply Z.ltb_lt.
Qed.

Lemma shape_string (h : heap) (xs : value) (s : string) :
  L.shape_of h xs = Some (L.IsString s) -> xs = VString s.
Proof.
  unfold L.shape_of. destruct xs as [| | | |s'|l]; try discriminate.
  - destruct (L.sized (L.IsString s')); congruence.
  - destruct (h l); try discriminate.
    destruct (L.sized (L.IsArray elems)); discriminate.
Qed.

Lemma array_shape (h : heap) (l : loc) (elems : list value) :
  h l = OArray elems -> (Z.of_nat (length elems) < 2 ^ 32)%Z ->
  L.shape_of h (VObject l) = Some (L.IsArray elems).
Proof.
  intros Hh Hlen. unfold L.shape_of. rewrite Hh. unfold L.sized.
  now apply Z.ltb_lt in Hlen as ->.
Qed.

Lemma skipn_nth_error {A : Type} (l : list A) (k : nat) :
  k < length l ->
  exists x, nth_error l k = Some x /\ skipn k l = x :: skipn (S k) l.
Proof.
  revert k. induction l as [|a l IH]; intros k Hk; [cbn in Hk; lia|].
  destruct k as [|k]; [now exists a|].
  cbn [length] in Hk. destruct (IH k) as (x & Hx & Hs); [lia|].
  exists x. split; [exact Hx|exact Hs].
Qed.

Lemma reduce_loop_binary (g : value -> value -> value) (xs : value) (st : L.state)
      (n k : nat) (acc : value) :
  k + n = length (L.elements (L.heap_of st) xs) ->
  L.reduce_loop (binary g) xs (seq k n) acc st
  = Some (L.Ok (fold_left g (skipn k (L.elements (L.heap_of st) xs)) acc), st).
Proof.
  revert k acc. induction n as [|n IH]; intros k acc Hk.
  - cbn [seq L.reduce_loop]. rewrite skipn_all2 by lia. reflexivity.
  - cbn [seq L.reduce_loop]. unfold L.bind at 1, L.store_now at 1.
    destruct (skipn_nth_error (L.elements (L.heap_of st) xs) k) as (x & -> & ->); [lia|].
    unfold L.bind, binary at 1, L.ret at 1. cbn [L.arg nth fold_left].
    apply IH. lia.
Qed.

Lemma firstn_S_nth {A : Type} (l : list A) (n : nat) (d : A) :
  n < length l -> firstn (S n) l = firstn n l ++ [nth n l d].
Proof.
  revert n. induction l as [|a l IH]; intros n Hn; [cbn in Hn; lia|].
  destruct n as [|n]; [reflexivity|].
  cbn [length] in Hn. cbn [firstn nth app]. f_equal. apply IH. lia.
Qed.

Lemma item_on_list (st : L.state) (xs : value) (sh : L.shape) (i : nat) :
  L.shape_of (L.heap_of st) xs = Some sh ->
  L.item xs i st = Some (L.Ok (nth i (L.items sh) VUndefined), st).
Proof.
  intros Hsh. unfold L.item, L.with_shape, L.bind, L.store_now, L.ret.
  now rewrite Hsh.
Qed.

Lemma foldr_loop_binary (g : value -> value -> value) (xs : value) (st : L.state)
      (sh : L.shape) (n : nat) (z : value) :
  L.shape_of (L.heap_of st) xs = Some sh ->
  n <= length (L.items sh) ->
  L.foldr_loop (binary g) xs (rev (seq 0 n)) z st
  = Some (L.Ok (fold_right g z (firstn n (L.items sh))), st).
Proof.
  intros Hsh. revert z. induction n as [|n IH]; intros z Hn; [reflexivity|].
  rewrite seq_S, rev_app_distr. cbn [rev app L.foldr_loop Nat.add].
  unfold L.bind at 1. rewrite (item_on_list st xs sh n Hsh).
  unfold L.bind, binary at 1, L.ret at 1. cbn [L.arg nth].
  rewrite IH by lia.
  rewrite (firstn_S_nth (L.items sh) n VUndefined) by lia.
  now rewrite fold_right_app.
Qed.

(** [foldl] and [foldr] with a callback that computes [g] of its first two
    arguments. *)
Lemma foldr_binary (g : value -> value -> value) (st : L.state) (z xs : value)
      (sh : L.shape) :
  L.shape_of (L.heap_of st) xs = Some sh ->
  L.foldr (binary g) z xs st = Some (L.Ok (fold_right g z (L.items sh)), st).
Proof.
  intros Hsh. unfold L.foldr, L.with_shape, L.bind, L.store_now. rewrite Hsh.
  rewrite (foldr_loop_binary g xs st sh _ z Hsh (Nat.le_refl _)).
  now rewrite firstn_all.
Qed.

Lemma foldl_binary (g : value -> value -> value) (st : L.state) (z xs : value)
      (sh : L.shape) :
  L.shape_of (L.heap_of st) xs = Some sh ->
  exists st',
    L.foldl (binary g) z xs st = Some (L.Ok (fold_left g (L.items sh) z), st')
    /\ extends st st'
    /\ (forall elems, sh = L.IsArray elems -> st' = st).
Proof.
  intros Hsh. unfold L.foldl, L.bind at 1, L.store_now at 1.
  rewrite isString_String. destruct sh as [elems|s].
  - destruct (shape_array _ _ _ Hsh) as (l & -> & Hh & _).
    exists st. split; [|split; [apply extends_refl|reflexivity]].
    unfold L.array_method, L.bind, L.store_now. rewrite isArray_Array, Hh.
    unfold L.reduce, L.bind, L.store_now.
    rewrite (reduce_loop_binary g (VObject l) st _ 0 z eq_refl).
    cbn [L.elements skipn L.items]. now rewrite Hh.
  - rewrite (shape_string _ _ _ Hsh). unfold L.split, L.bind.
    destruct (new_array_spec (L.chars s) st) as (st' & -> & Hn & Hx & Hf).
    exists st'. split; [|split; [|discriminate]].
    + unfold L.reduce, L.bind, L.store_now.
      rewrite (reduce_loop_binary g (VObject (L.next st)) st' _ 0 z eq_refl).
      cbn [L.elements skipn L.items]. now rewrite Hx.
    + split; [lia|]. intros l Hl. apply Hf. lia.
Qed.

Lemma shape_of_extends (st st' : L.state) (xs : value) (sh : L.shape) :
  extends st st' -> in_store st xs ->
  L.shape_of (L.heap_of st) xs = Some sh ->
  L.shape_of (L.heap_of st') xs = Some sh.
Proof.
  intros [_ Hf] Hin. unfold L.shape_of. destruct xs as [| | | |s|l]; try discriminate.
  - trivial.
  - cbn [in_store] in Hin. now rewrite (Hf l Hin).
Qed.

Lemma string_shape (h : heap) (s : string) :
  (Z.of_nat (length (L.chars s)) < 2 ^ 53)%Z ->
  L.shape_of h (VString s) = Some (L.IsString s).
Proof. intros Hlen. unfold L.shape_of, L.sized. now apply Z.ltb_lt in Hlen as ->. Qed.

(** X14.  With a callback that computes [g] of its first two arguments,
    [foldl] and [foldr] over an Array or a String (character by character)
    are the left fold [g(...g(g(z, x1), x2)..., xn)] and the right fold
    [g(x1, g(x2, ... g(xn, z)))]; [foldl1] and [foldr1] start from the first
    and from the last item, and raise the Error of [head] and of [last] on
    an empty list.  None of them changes an object of the store. *)
Theorem folds_with_binary_callback
        (g : value -> value -> value) (st : L.state) (z xs : value) (sh : L.shape) :
  L.shape_of (L.heap_of st) xs = Some sh ->
  L.foldr (binary g) z xs st = Some (L.Ok (fold_right g z (L.items sh)), st)
  /\ (exists st',
         L.foldl (binary g) z xs st = Some (L.Ok (fold_left g (L.items sh) z), st')
         /\ extends st st')
  /\ (L.items sh = [] ->
      L.foldl1 (binary g) xs st = Some (L.Raise (L.Error "head of empty array"), st)
      /\ L.foldr1 (binary g) xs st = Some (L.Raise (L.Error "last of empty array"), st))
  /\ (L.items sh <> [] ->
      exists st1 st2,
        L.foldl1 (binary g) xs st
        = Some (L.Ok (fold_left g (tl (L.items sh)) (hd VUndefined (L.items sh))), st1)
        /\ L.foldr1 (binary g) xs st
           = Some (L.Ok (fold_right g (last (L.items sh) VUndefined)
                                    (removelast (L.items sh))), st2)
        /\ extends st st1 /\ extends st st2).
Proof.
  intros Hsh. pose proof (shape_of_sized _ _ _ Hsh) as Hlen.
  split; [exact (foldr_binary g st z xs sh Hsh)|].
  split.
  { destruct (foldl_binary g st z xs sh Hsh) as (st' & H & He & _). now exists st'. }
  destruct (list_parts st xs sh Hsh) as [Hempty Hfull].
  split.
  - intros He. destruct (Hempty He) as (Hhead & Hlast & _).
    unfold L.foldl1, L.foldr1, L.bind. now rewrite Hhead, Hlast.
  - intros Hne. destruct (Hfull Hne) as (Hhead & Hlast & Hrest).
    unfold L.foldl1, L.foldr1, L.bind. rewrite Hhead, Hlast.
    destruct sh as [elems|s]; cbn [L.items] in *.
    + destruct Hrest as [-> ->].
      destruct (shape_array _ _ _ Hsh) as (l & -> & Hh & Hlen32).
      destruct (new_array_spec (tl elems) st) as (st1 & -> & Hn1 & Hx1 & Hf1).
      destruct (new_array_spec (removelast elems) st) as (st2 & -> & Hn2 & Hx2 & Hf2).
      assert (Htl : (Z.of_nat (length (tl elems)) < 2 ^ 32)%Z).
      { destruct elems; cbn [tl length] in *; lia. }
      assert (Hrl : (Z.of_nat (length (removelast elems)) < 2 ^ 32)%Z).
      { rewrite removelast_firstn_len, length_firstn. lia. }
      destruct (foldl_binary g st1 (hd VUndefined elems) (VObject (L.next st))
                             (L.IsArray (tl elems)) (array_shape _ _ _ Hx1 Htl))
        as (st1' & Hfl & _ & Hsame).
      rewrite (Hsame _ eq_refl) in Hfl.
      exists st1, st2. split; [exact Hfl|]. split.
      * apply (foldr_binary g st2 _ (VObject (L.next st)) (L.IsArray (removelast elems))).
        now apply array_shape.
      * split; (split; [lia|]); intros k Hk; [apply Hf1|apply Hf2]; lia.
    + destruct Hrest as (t & i & -> & -> & Ht & Hi).
      assert (Hts : L.shape_of (L.heap_of st) (VString t) = Some (L.IsString t)).
      { apply string_shape. rewrite Ht. destruct (L.chars s); cbn [tl length] in *; lia. }
      assert (His : L.shape_of (L.heap_of st) (VString i) = Some (L.IsString i)).
      { apply string_shape. rewrite Hi, removelast_firstn_len, length_firstn. lia. }
      destruct (foldl_binary g st (hd VUndefined (L.chars s)) (VString t)
                             (L.IsString t) Hts) as (st1 & Hfl & He1 & _).
      exists st1, st. cbn [L.items] in Hfl. rewrite Ht in Hfl.
      split; [exact Hfl|]. split.
      * rewrite (foldr_binary g st _ (VString i) (L.IsString i) His).
        cbn [L.items]. now rewrite Hi.
      * split; [exact He1|apply extends_refl].
Qed.

Lemma folds_with_binary_callback_witness :
  L.foldr (binary L.string_plus) (VString "z") (VString "abc") (L.State ex_heap 16)
  = Some (L.Ok (VString "abcz"), L.State ex_heap 16)
  /\ L.foldr1 (binary L.plus) (VObject 4) (L.State ex_heap 16)
     = Some (L.Raise (L.Error "last of empty array"), L.State ex_heap 16).
Proof.
  split.
  - apply (proj1 (folds_with_binary_callback L.string_plus (L.State ex_heap 16)
                    (VString "z") (VString "abc") (L.IsString "abc") eq_refl)).
  - apply (proj1 (proj2 (proj2 (folds_with_binary_callback L.plus (L.State ex_heap 16)
                                  VUndefined (VObject 4) (L.IsArray []) eq_refl)))
                 eq_refl).
Defined.

(** ** Lists: [map] and [filter] *)

(** A curried function of the library called with enough arguments. *)
Lemma curried_saturated (n : nat) (f : L.callback) (pre args : list value) :
  length pre < n -> n <= length (pre ++ args) ->
  L.curried n f pre args = f (firstn n (pre ++ args)).
Proof.
  intros Hpre Hn. unfold L.curried, L.curry_chain, L.ncurry_chain, L.ncurry.
  cbn [L.fn_length]. destruct (Nat.leb_spec n (length pre)) as [H|_]; [lia|].
  cbn [L.call_chain]. unfold L.call. cbn [L.c_largs L.c_n L.c_fn].
  destruct (Nat.ltb_spec (length (pre ++ args)) n) as [H|_]; [lia|].
  reflexivity.
Qed.

Lemma map_nth_seq {A B : Type} (f : A -> B) (l : list A) (d : A) :
  map (fun i => f (nth i l d)) (seq 0 (length l)) = map f l.
Proof.
  induction l as [|a l IH]; [reflexivity|].
  cbn [length seq map nth]. f_equal. rewrite <- seq_shift, map_map. exact IH.
Qed.

(** The calls of [map] and [filter] with a callback that answers [g] of the
    arguments it is given and leaves the state as it is. *)
Lemma map_loop_pure (p : L.callback) (g : list value -> value) (xs : value)
      (st : L.state) (n k : nat) :
  (forall x i, p [x; i; xs] st = Some (L.Ok (g [x; i; xs]), st)) ->
  k + n = length (L.elements (L.heap_of st) xs) ->
  L.map_loop p xs (seq k n) st
  = Some (L.Ok (map (fun i => g [nth i (L.elements (L.heap_of st) xs) VUndefined;
                                 L.index i; xs]) (seq k n)), st).
Proof.
  intros Hp. revert k. induction n as [|n IH]; intros k Hk; [reflexivity|].
  cbn [seq L.map_loop map]. unfold L.bind at 1, L.store_now at 1.
  destruct (skipn_nth_error (L.elements (L.heap_of st) xs) k) as (x & Hx & _); [lia|].
  rewrite Hx. unfold L.bind. rewrite Hp, IH by lia.
  now rewrite (nth_error_nth _ _ VUndefined Hx).
Qed.

Lemma filter_loop_pure (p : L.callback) (g : list value -> value) (xs : value)
      (st : L.state) (n k : nat) :
  (forall x i, p [x; i; xs] st = Some (L.Ok (g [x; i; xs]), st)) ->
  k + n = length (L.elements (L.heap_of st) xs) ->
  L.filter_loop p xs (seq k n) st
  = Some (L.Ok (map (fun i => nth i (L.elements (L.heap_of st) xs) VUndefined)
                    (filter (fun i => L.ToBoolean
                                        (g [nth i (L.elements (L.heap_of st) xs) VUndefined;
                                            L.index i; xs]))
                            (seq k n))), st).
Proof.
  intros Hp. revert k. induction n as [|n IH]; intros k Hk; [reflexivity|].
  cbn [seq L.filter_loop filter]. unfold L.bind at 1, L.store_now at 1.
  destruct (skipn_nth_error (L.elements (L.heap_of st) xs) k) as (x & Hx & _); [lia|].
  rewrite Hx. unfold L.bind. rewrite Hp, IH by lia.
  rewrite (nth_error_nth _ _ VUndefined Hx).
  destruct (L.ToBoolean _); cbn [map];
    rewrite ?(nth_error_nth _ _ VUndefined Hx); reflexivity.
Qed.

Lemma map_on_array (p : L.callback) (g : list value -> value) (st : L.state)
      (l : loc) (elems : list value) :
  (forall x i, p [x; i; VObject l] st = Some (L.Ok (g [x; i; VObject l]), st)) ->
  L.heap_of st l = OArray elems ->
  exists st',
    L.map p (VObject l) st = Some (L.Ok (VObject (L.next st)), st')
    /\ L.next st' = S (L.next st)
    /\ L.heap_of st' (L.next st)
       = OArray (map (fun i => g [nth i elems VUndefined; L.index i; VObject l])
                     (seq 0 (length elems)))
    /\ forall k, k <> L.next st -> L.heap_of st' k = L.heap_of st k.
Proof.
  intros Hp Hh. unfold L.map, L.array_method, L.bind at 1, L.store_now at 1.
  rewrite isArray_Array, Hh. unfold L.array_map, L.bind, L.store_now.
  rewrite (map_loop_pure p g (VObject l) st _ 0 Hp eq_refl).
  cbn [L.elements]. rewrite Hh. apply new_array_spec.
Qed.

Lemma filter_on_array (p : L.callback) (g : list value -> value) (st : L.state)
      (l : loc) (elems : list value) :
  (forall x i, p [x; i; VObject l] st = Some (L.Ok (g [x; i; VObject l]), st)) ->
  L.heap_of st l = OArray elems ->
  exists st',
    L.filter p (VObject l) st = Some (L.Ok (VObject (L.next st)), st')
    /\ L.next st' = S (L.next st)
    /\ L.heap_of st' (L.next st)
       = OArray (map (fun i => nth i elems VUndefined)
                     (filter (fun i => L.ToBoolean
                                (g [nth i elems VUndefined; L.index i; VObject l]))
                             (seq 0 (length elems))))
    /\ forall k, k <> L.next st -> L.heap_of st' k = L.heap_of st k.
Proof.
  intros Hp Hh. unfold L.filter, L.array_method, L.bind at 1, L.store_now at 1.
  rewrite isArray_Array, Hh. unfold L.array_filter, L.bind, L.store_now.
  rewrite (filter_loop_pure p g (VObject l) st _ 0 Hp eq_refl).
  cbn [L.elements]. rewrite Hh. apply new_array_spec.
Qed.

Lemma filter_nth_seq {A : Type} (f : A -> bool) (l : list A) (d : A) :
  map (fun i => nth i l d) (filter (fun i => f (nth i l d)) (seq 0 (length l)))
  = filter f l.
Proof.
  induction l as [|a l IH]; [reflexivity|].
  cbn [length seq filter nth]. rewrite <- seq_shift.
  assert (H : forall ks,
             map (fun i => nth i (a :: l) d)
                 (filter (fun i => f (nth i (a :: l) d)) (map S ks))
             = map (fun i => nth i l d) (filter (fun i => f (nth i l d)) ks)).
  { induction ks as [|k ks IHk]; [reflexivity|].
    cbn [map filter]. change (nth (S k) (a :: l) d) with (nth k l d).
    destruct (f (nth k l d)); cbn [map]; rewrite IHk; reflexivity. }
  destruct (f a); cbn [map nth]; now rewrite H, IH.
Qed.

(** X15.  On an Array [map] returns a new array of the results of the
    callback and [filter] a new array of the elements on which the result
    counts as true, in order; no object of the store is changed.  The
    callback is called with the element, its index and the array: with a
    callback that looks at its first argument only these are the usual map
    and filter.  On a String both raise a TypeError (a String has no [map]
    and no [filter]) and never call the callback. *)
Theorem map_filter_results
        (p : L.callback) (g : list value -> value) (f : value -> value)
        (st : L.state) (xs : value) :
  (forall elems,
      L.shape_of (L.heap_of st) xs = Some (L.IsArray elems) ->
      exists v v1 v2 st' st1 st2,
        L.map (pure g) xs st = Some (L.Ok v, st')
        /\ new_in st st' v (map (fun i => g [nth i elems VUndefined; L.index i; xs])
                                (seq 0 (length elems)))
        /\ L.map (unary f) xs st = Some (L.Ok v1, st1)
        /\ new_in st st1 v1 (map f elems)
        /\ L.filter (unary f) xs st = Some (L.Ok v2, st2)
        /\ new_in st st2 v2 (filter (fun x => L.ToBoolean (f x)) elems)
        /\ extends st st' /\ extends st st1 /\ extends st st2)
  /\ (forall s,
         xs = VString s ->
         L.map p xs st = Some (L.Raise (L.not_a_function "map"), st)
         /\ L.filter p xs st = Some (L.Raise (L.not_a_function "filter"), st)).
Proof.
  split.
  - intros elems Hsh. destruct (shape_array _ _ _ Hsh) as (l & -> & Hh & _).
    destruct (map_on_array (pure g) g st l elems (fun _ _ => eq_refl) Hh)
      as (st' & Hm & Hn & Hx & Hf).
    destruct (map_on_array (unary f) (fun args => f (L.arg 0 args)) st l elems
                           (fun _ _ => eq_refl) Hh)
      as (st1 & Hm1 & Hn1 & Hx1 & Hf1).
    destruct (filter_on_array (unary f) (fun args => f (L.arg 0 args)) st l elems
                              (fun _ _ => eq_refl) Hh)
      as (st2 & Hm2 & Hn2 & Hx2 & Hf2).
    cbn [L.arg nth] in Hx1, Hx2.
    rewrite (map_nth_seq f elems VUndefined) in Hx1.
    rewrite (filter_nth_seq (fun x => L.ToBoolean (f x)) elems VUndefined) in Hx2.
    exists (VObject (L.next st)), (VObject (L.next st)), (VObject (L.next st)), st', st1, st2.
    split; [exact Hm|]. split; [exists (L.next st); repeat split; [lia|lia|exact Hx]|].
    split; [exact Hm1|]. split; [exists (L.next st); repeat split; [lia|lia|exact Hx1]|].
    split; [exact Hm2|]. split; [exists (L.next st); repeat split; [lia|lia|exact Hx2]|].
    repeat split; try lia; intros k Hk; [apply Hf|apply Hf1|apply Hf2]; lia.
  - intros s ->. split; reflexivity.
Qed.

Lemma map_filter_results_witness :
  exists v st',
    L.map (pure (fun args => L.arg 1 args)) (VObject 7) (L.State ex_heap 16)
    = Some (L.Ok v, st')
    /\ new_in (L.State ex_heap 16) st' v [num 0; num 1; num 2].
Proof.
  destruct (proj1 (map_filter_results (pure (fun _ => VUndefined))
                     (fun args => L.arg 1 args) (fun x => x)
                     (L.State ex_heap 16) (VObject 7))
                  [num 1; num 2; num 3] eq_refl)
    as (v & _ & _ & st' & _ & _ & Hm & Hnew & _).
  exists v, st'. split; [exact Hm|exact Hnew].
Defined.

(** ** Lists: [all], [any], [elem] *)

Lemma reduce_loop_step (f : L.callback) (xs : value) (k : nat) (rest : list nat)
      (acc x : value) (st : L.state) :
  nth_error (L.elements (L.heap_of st) xs) k = Some x ->
  L.reduce_loop f xs (k :: rest) acc st
  = L.bind (f [acc; x; L.index k; xs]) (fun acc' => L.reduce_loop f xs rest acc') st.
Proof.
  intros Hx. cbn [L.reduce_loop]. unfold L.bind at 1, L.store_now at 1.
  now rewrite Hx.
Qed.

Lemma and_or_step (acc b : bool) (i ys : value) (st : L.state) :
  L.and_fn [VBool acc; VBool b; i; ys] st = Some (L.Ok (VBool (acc && b)), st)
  /\ L.or_fn [VBool acc; VBool b; i; ys] st = Some (L.Ok (VBool (acc || b)), st).
Proof. now destruct acc, b. Qed.

Lemma and_or_step_raise (acc : bool) (x i ys : value) (st : L.state) :
  L.isBoolean (L.heap_of st) x = false ->
  L.and_fn [VBool acc; x; i; ys] st
  = Some (L.Raise (L.Native (L.expecting_booleans (L.heap_of st) (VBool acc) x)), st)
  /\ L.or_fn [VBool acc; x; i; ys] st
     = Some (L.Raise (L.Native (L.expecting_booleans (L.heap_of st) (VBool acc) x)), st).
Proof.
  intros Hx.
  change (L.and_fn [VBool acc; x; i; ys] st)
    with (L.lift (L.and (L.heap_of st) (VBool acc) x) st).
  change (L.or_fn [VBool acc; x; i; ys] st)
    with (L.lift (L.or (L.heap_of st) (VBool acc) x) st).
  unfold L.and, L.or. rewrite Hx, andb_false_r.
  split; reflexivity.
Qed.

Lemma reduce_and_or (ys : value) (st : L.state) (n k : nat) (acc : bool) :
  k + n = length (L.elements (L.heap_of st) ys) ->
  (forall r, In r (skipn k (L.elements (L.heap_of st) ys)) -> exists b, r = VBool b) ->
  L.reduce_loop L.and_fn ys (seq k n) (VBool acc) st
  = Some (L.Ok (VBool (acc && forallb L.ToBoolean
                                      (skipn k (L.elements (L.heap_of st) ys)))), st)
  /\ L.reduce_loop L.or_fn ys (seq k n) (VBool acc) st
     = Some (L.Ok (VBool (acc || existsb L.ToBoolean
                                         (skipn k (L.elements (L.heap_of st) ys)))), st).
Proof.
  revert k acc. induction n as [|n IH]; intros k acc Hk Hb.
  - cbn [seq L.reduce_loop]. rewrite skipn_all2 by lia. cbn [forallb existsb].
    now rewrite andb_true_r, orb_false_r.
  - cbn [seq].
    destruct (skipn_nth_error (L.elements (L.heap_of st) ys) k) as (x & Hx & Hs); [lia|].
    rewrite !(reduce_loop_step _ _ _ _ _ _ _ Hx). rewrite Hs in *.
    destruct (Hb x (or_introl eq_refl)) as (b & ->).
    destruct (and_or_step acc b (L.index k) ys st) as [Ha Ho].
    unfold L.bind. rewrite Ha, Ho.
    assert (Hb' : forall r, In r (skipn (S k) (L.elements (L.heap_of st) ys)) ->
                            exists b, r = VBool b).
    { intros r Hr. apply Hb. now right. }
    destruct (IH (S k) (acc && b) ltac:(lia) Hb') as [-> _].
    destruct (IH (S k) (acc || b) ltac:(lia) Hb') as [_ ->].
    cbn [forallb existsb L.ToBoolean]. now rewrite andb_assoc, orb_assoc.
Qed.

Lemma reduce_and_or_raise (ys : value) (st : L.state) (n k : nat) (acc : bool) :
  k + n = length (L.elements (L.heap_of st) ys) ->
  (exists r, In r (skipn k (L.elements (L.heap_of st) ys))
             /\ L.isBoolean (L.heap_of st) r = false) ->
  exists msg msg',
    L.reduce_loop L.and_fn ys (seq k n) (VBool acc) st
    = Some (L.Raise (L.Native (TypeError msg)), st)
    /\ L.reduce_loop L.or_fn ys (seq k n) (VBool acc) st
       = Some (L.Raise (L.Native (TypeError msg')), st).
Proof.
  revert k acc. induction n as [|n IH]; intros k acc Hk (r & Hr & Hnb).
  - rewrite skipn_all2 in Hr by lia. destruct Hr.
  - cbn [seq].
    destruct (skipn_nth_error (L.elements (L.heap_of st) ys) k) as (x & Hx & Hs); [lia|].
    rewrite !(reduce_loop_step _ _ _ _ _ _ _ Hx). rewrite Hs in Hr.
    assert (Hx' : (exists b, x = VBool b) \/ L.isBoolean (L.heap_of st) x = false).
    { destruct (L.isBoolean (L.heap_of st) x) eqn:Hbx; [left|now right].
      destruct x as [| |b| | |l]; try discriminate Hbx; [now exists b|].
      unfold L.isBoolean in Hbx. cbn [strict_eq class_of orb] in Hbx.
      now destruct (L.heap_of st l). }
    unfold L.bind. destruct Hx' as [(b & ->)|Hxnb].
    + destruct Hr as [<-|Hr]; [now destruct b|].
      destruct (and_or_step acc b (L.index k) ys st) as [-> ->].
      destruct (IH (S k) (acc && b) ltac:(lia)) as (msg & _ & IHa & _);
        [now exists r|].
      destruct (IH (S k) (acc || b) ltac:(lia)) as (_ & msg' & _ & IHo);
        [now exists r|].
      exists msg, msg'. split; assumption.
    + destruct (and_or_step_raise acc x (L.index k) ys st Hxnb) as [-> ->].
      eexists _, _. split; reflexivity.
Qed.

Lemma foldl_on_array (f : L.callback) (z : value) (l : loc) (st : L.state)
      (elems : list value) :
  L.heap_of st l = OArray elems ->
  L.foldl f z (VObject l) st
  = L.reduce_loop f (VObject l) (seq 0 (length elems)) z st.
Proof.
  intros Hh. unfold L.foldl, L.bind at 1, L.store_now at 1.
  rewrite isString_String.
  unfold L.array_method, L.bind at 1, L.store_now at 1. rewrite isArray_Array, Hh.
  unfold L.reduce, L.bind, L.store_now. cbn [L.elements]. now rewrite Hh.
Qed.

(** [all] and [any] with a callback that answers [g] of its arguments and
    leaves the state as it is: [rs] are its answers. *)
Lemma all_any_on_array (p : L.callback) (g : list value -> value) (st : L.state)
      (l : loc) (elems rs : list value) :
  (forall x i, p [x; i; VObject l] st = Some (L.Ok (g [x; i; VObject l]), st)) ->
  L.heap_of st l = OArray elems ->
  rs = map (fun i => g [nth i elems VUndefined; L.index i; VObject l])
           (seq 0 (length elems)) ->
  exists st',
    extends st st'
    /\ ((forall r, In r rs -> exists b, r = VBool b) ->
        L.all p (VObject l) st = Some (L.Ok (VBool (forallb L.ToBoolean rs)), st')
        /\ L.any p (VObject l) st = Some (L.Ok (VBool (existsb L.ToBoolean rs)), st'))
    /\ ((exists r, In r rs /\ L.isBoolean (L.heap_of st') r = false) ->
        exists msg msg',
          L.all p (VObject l) st = Some (L.Raise (L.Native (TypeError msg)), st')
          /\ L.any p (VObject l) st = Some (L.Raise (L.Native (TypeError msg')), st')).
Proof.
  intros Hp Hh Hrs.
  destruct (map_on_array p g st l elems Hp Hh) as (st' & Hm & Hn & Hx & Hf).
  rewrite <- Hrs in Hx.
  assert (Hel : L.elements (L.heap_of st') (VObject (L.next st)) = rs).
  { cbn [L.elements]. now rewrite Hx. }
  exists st'. split; [split; [lia|intros k Hk; apply Hf; lia]|].
  unfold L.all, L.any, L.bind. rewrite Hm.
  rewrite !(foldl_on_array _ _ _ _ _ Hx). split.
  - intros Hb.
    destruct (reduce_and_or (VObject (L.next st)) st' (length rs) 0 true) as [Ha _];
      [now rewrite Hel|now rewrite Hel|].
    destruct (reduce_and_or (VObject (L.next st)) st' (length rs) 0 false) as [_ Ho];
      [now rewrite Hel|now rewrite Hel|].
    rewrite Hel in Ha, Ho. cbn [skipn andb orb] in Ha, Ho. split; assumption.
  - intros Hr.
    destruct (reduce_and_or_raise (VObject (L.next st)) st' (length rs) 0 true)
      as (msg & _ & Ha & _); [now rewrite Hel|now rewrite Hel|].
    destruct (reduce_and_or_raise (VObject (L.next st)) st' (length rs) 0 false)
      as (_ & msg' & _ & Ho); [now rewrite Hel|now rewrite Hel|].
    exists msg, msg'. split; assumption.
Qed.

Lemma forallb_map {A B : Type} (f : B -> bool) (g : A -> B) (l : list A) :
  forallb f (map g l) = forallb (fun x => f (g x)) l.
Proof. induction l as [|a l IH]; [reflexivity|]. cbn. now rewrite IH. Qed.

Lemma existsb_map {A B : Type} (f : B -> bool) (g : A -> B) (l : list A) :
  existsb f (map g l) = existsb (fun x => f (g x)) l.
Proof. induction l as [|a l IH]; [reflexivity|]. cbn. now rewrite IH. Qed.

(** X16.  On an Array, with a callback that computes [g] of the element:
    when every answer is [true] or [false], [all] is their conjunction and
    [any] their disjunction (true and false on the empty array); as soon as
    [isBoolean] rejects one answer, anywhere, both raise a TypeError,
    whatever the answers before it: the callback is called on every element
    first, and [and] and [or] refuse what [isBoolean] rejects.  No object
    of the store is changed.  On a String both raise the TypeError of
    [map]. *)
Theorem all_any_results (p : L.callback) (g : value -> value) (st : L.state) (xs : value) :
  (forall elems,
      L.shape_of (L.heap_of st) xs = Some (L.IsArray elems) ->
      exists st',
        extends st st'
        /\ ((forall x, In x elems -> exists b, g x = VBool b) ->
            L.all (unary g) xs st
            = Some (L.Ok (VBool (forallb (fun x => L.ToBoolean (g x)) elems)), st')
            /\ L.any (unary g) xs st
               = Some (L.Ok (VBool (existsb (fun x => L.ToBoolean (g x)) elems)), st'))
        /\ ((exists x, In x elems /\ L.isBoolean (L.heap_of st') (g x) = false) ->
            exists msg msg',
              L.all (unary g) xs st = Some (L.Raise (L.Native (TypeError msg)), st')
              /\ L.any (unary g) xs st = Some (L.Raise (L.Native (TypeError msg')), st')))
  /\ (forall s,
         xs = VString s ->
         L.all p xs st = Some (L.Raise (L.not_a_function "map"), st)
         /\ L.any p xs st = Some (L.Raise (L.not_a_function "map"), st)).
Proof.
  split.
  - intros elems Hsh. destruct (shape_array _ _ _ Hsh) as (l & -> & Hh & _).
    destruct (all_any_on_array (unary g) (fun args => g (L.arg 0 args)) st l elems
                               (map g elems) (fun _ _ => eq_refl) Hh)
      as (st' & He & Hok & Hraise).
    { cbn [L.arg nth]. symmetry. apply map_nth_seq. }
    exists st'. split; [exact He|]. split.
    + intros Hb. rewrite <- forallb_map, <- existsb_map. apply Hok.
      intros r Hr. apply in_map_iff in Hr. destruct Hr as (x & <- & Hx). now apply Hb.
    + intros (x & Hx & Hnb). apply Hraise. exists (g x). split; [|exact Hnb].
      now apply in_map.
  - intros s ->. split; reflexivity.
Qed.

Lemma all_any_results_witness :
  (exists st',
      L.all (unary (fun x => VBool (strict_eq x (num 1)))) (VObject 15)
            (L.State ex_heap 16)
      = Some (L.Ok (VBool false), st'))
  /\ (exists msg st',
         L.any (unary (fun x => x)) (VObject 15) (L.State ex_heap 16)
         = Some (L.Raise (L.Native (TypeError msg)), st')).
Proof.
  split.
  - destruct (proj1 (all_any_results (unary (fun x => x))
                       (fun x => VBool (strict_eq x (num 1)))
                       (L.State ex_heap 16) (VObject 15)) [num 1; num 2] eq_refl)
      as (st' & _ & Hok & _).
    exists st'. apply Hok. intros x _. eexists. reflexivity.
  - destruct (proj1 (all_any_results (unary (fun x => x)) (fun x => x)
                       (L.State ex_heap 16) (VObject 15)) [num 1; num 2] eq_refl)
      as (st' & _ & _ & Hraise).
    destruct Hraise as (_ & msg & _ & Hany).
    + exists (num 1). split; [now left|reflexivity].
    + exists msg, st'. exact Hany.
Defined.

Lemma elem_on_array (x : value) (st : L.state) (l : loc) (elems : list value) :
  L.heap_of st l = OArray elems ->
  exists st',
    L.elem x (VObject l) st = Some (L.Ok (VBool (existsb (strict_eq x) elems)), st')
    /\ L.next st' = S (L.next st)
    /\ forall k, k < L.next st -> L.heap_of st' k = L.heap_of st k.
Proof.
  intros Hh.
  destruct (map_on_array (L.eq_fn x)
                         (fun args => VBool (strict_eq x (L.arg 0 args))) st l elems
                         (fun _ _ => eq_refl) Hh) as (st' & Hm & Hn & Hx & Hf).
  cbn [L.arg nth] in Hx.
  rewrite (map_nth_seq (fun el => VBool (strict_eq x el)) elems VUndefined) in Hx.
  exists st'. split; [|split; [exact Hn|intros k Hk; apply Hf; lia]].
  unfold L.elem, L.any, L.bind. rewrite Hm, (foldl_on_array _ _ _ _ _ Hx).
  destruct (reduce_and_or (VObject (L.next st)) st'
                          (length (map (fun el => VBool (strict_eq x el)) elems)) 0 false)
    as [_ Ho].
  - cbn [L.elements]. now rewrite Hx.
  - cbn [L.elements skipn]. rewrite Hx. intros r Hr.
    apply in_map_iff in Hr. destruct Hr as (el & <- & _). now eexists.
  - rewrite Ho. cbn [L.elements skipn orb]. rewrite Hx, existsb_map. reflexivity.
Qed.

Lemma strict_eq_NaN (y : value) : strict_eq (VNumber NaN) y = false.
Proof. now destruct y. Qed.

(** X17.  On an Array [elem(x, xs)] tells whether some element is identical
    ([===]) to [x], and [notElem] the contrary; so NaN is an element of no
    array.  They change no object of the store.  On a String both raise the
    TypeError of [map]. *)
Theorem elem_results (installed : bool) (st : L.state) (x xs : value) :
  (forall elems,
      L.shape_of (L.heap_of st) xs = Some (L.IsArray elems) ->
      exists st',
        extends st st'
        /\ L.elem x xs st = Some (L.Ok (VBool (existsb (strict_eq x) elems)), st')
        /\ L.notElem installed x xs st
           = Some (L.Ok (VBool (negb (existsb (strict_eq x) elems))), st')
        /\ (x = VNumber NaN -> existsb (strict_eq x) elems = false))
  /\ (forall s,
         xs = VString s ->
         L.elem x xs st = Some (L.Raise (L.not_a_function "map"), st)
         /\ L.notElem installed x xs st = Some (L.Raise (L.not_a_function "map"), st)).
Proof.
  split.
  - intros elems Hsh. destruct (shape_array _ _ _ Hsh) as (l & -> & Hh & _).
    destruct (elem_on_array x st l elems Hh) as (st' & He & Hn & Hf).
    exists st'. split; [split; [lia|exact Hf]|]. split; [exact He|]. split.
    + unfold L.notElem, L.bind. rewrite He. unfold L.store_now, L.not.
      now destruct (existsb (strict_eq x) elems).
    + intros ->. clear. induction elems as [|y ys IH]; [reflexivity|].
      cbn [existsb]. now rewrite strict_eq_NaN.
  - intros s ->. split; reflexivity.
Qed.

Lemma elem_results_witness :
  exists st',
    L.elem (num 2) (VObject 7) (L.State ex_heap 16) = Some (L.Ok (VBool true), st')
    /\ L.notElem false (num 2) (VObject 7) (L.State ex_heap 16)
       = Some (L.Ok (VBool false), st').
Proof.
  destruct (proj1 (elem_results false (L.State ex_heap 16) (num 2) (VObject 7))
                  [num 1; num 2; num 3] eq_refl) as (st' & _ & He & Hn & _).
  exists st'. split; [exact He|exact Hn].
Defined.

(** ** Lists: [reverse] *)

(** [reduce] with a callback that may add objects to the store: [R k] is
    what holds of the accumulator and of the state before index [k]. *)
Lemma reduce_loop_inv (f : L.callback) (l : loc) (elems : list value)
      (R : nat -> value -> L.state -> Prop) :
  (forall k x acc st,
      nth_error elems k = Some x -> R k acc st -> L.heap_of st l = OArray elems ->
      exists acc' st',
        f [acc; x; L.index k; VObject l] st = Some (L.Ok acc', st')
        /\ R (S k) acc' st' /\ L.heap_of st' l = OArray elems) ->
  forall n k acc st,
    k + n = length elems -> R k acc st -> L.heap_of st l = OArray elems ->
    exists v st',
      L.reduce_loop f (VObject l) (seq k n) acc st = Some (L.Ok v, st')
      /\ R (length elems) v st' /\ L.heap_of st' l = OArray elems.
Proof.
  intros Hstep. induction n as [|n IH]; intros k acc st Hk HR Hh.
  - exists acc, st. replace (length elems) with k by lia. now repeat split.
  - cbn [seq]. destruct (skipn_nth_error elems k) as (x & Hx & _); [lia|].
    rewrite (reduce_loop_step f (VObject l) k _ acc x st).
    2:{ cbn [L.elements]. now rewrite Hh. }
    destruct (Hstep k x acc st Hx HR Hh) as (acc' & st' & Hf & HR' & Hh').
    unfold L.bind. rewrite Hf. apply IH; [lia|assumption|assumption].
Qed.

Lemma reverse_on_array (installed : bool) (st : L.state) (l lz : loc)
      (elems zs : list value) :
  l < L.next st -> lz < L.next st ->
  L.heap_of st l = OArray elems -> L.heap_of st lz = OArray zs ->
  exists v st',
    L.reduce_loop (L.flip (L.cons_fn installed)) (VObject l) (seq 0 (length elems))
                  (VObject lz) st
    = Some (L.Ok v, st')
    /\ extends st st'
    /\ (elems = [] -> v = VObject lz /\ st' = st)
    /\ (elems <> [] -> new_in st st' v (rev elems ++ zs)).
Proof.
  intros Hl Hlz Hh Hz.
  pose (R := fun (k : nat) (acc : value) (s : L.state) =>
               extends st s
               /\ exists la, acc = VObject la /\ la < L.next s
                             /\ L.heap_of s la = OArray (rev (firstn k elems) ++ zs)
                             /\ (k = 0 -> la = lz /\ s = st)
                             /\ (0 < k -> L.next st <= la)).
  destruct (reduce_loop_inv (L.flip (L.cons_fn installed)) l elems R) with
    (n := length elems) (k := 0) (acc := VObject lz) (st := st)
    as (v & st' & Hred & (Hext & la & -> & Hla & Hcontent & Hzero & Hpos) & _).
  - intros k x acc s Hx (Hext & la & -> & Hla & Hcontent & _) Hhs.
    change (L.flip (L.cons_fn installed) [VObject la; x; L.index k; VObject l] s)
      with (L.cons installed x (VObject la) s).
    destruct (cons_array installed s x la _ Hla Hcontent) as (s' & -> & Hn & Hx' & Hf).
    exists (VObject (S (L.next s))), s'. split; [reflexivity|]. split.
    + split.
      * apply (extends_trans st s s' Hext). split; [lia|exact Hf].
      * exists (S (L.next s)). split; [reflexivity|]. split; [lia|]. split.
        -- rewrite Hx', (firstn_S_nth elems k VUndefined).
           ++ rewrite (nth_error_nth _ _ VUndefined Hx), rev_app_distr. reflexivity.
           ++ apply nth_error_Some. congruence.
        -- split; [discriminate|]. intros _. destruct Hext as [Hle _]. lia.
    + rewrite Hf; [exact Hhs|]. destruct Hext as [Hle _]. lia.
  - reflexivity.
  - split; [apply extends_refl|]. exists lz. repeat split; try assumption. lia.
  - exact Hh.
  - exists (VObject la), st'. split; [exact Hred|]. split; [exact Hext|]. split.
    + intros ->. destruct (Hzero eq_refl) as [-> ->]. split; reflexivity.
    + intros Hne. exists la. split; [reflexivity|]. split.
      * split; [|exact Hla]. apply Hpos. destruct elems; [congruence|cbn; lia].
      * rewrite Hcontent, firstn_all. reflexivity.
Qed.

(** X18.  [reverse] folds with [flip(cons)] from the one array [z0] that
    the library made when it was loaded.  On a non-empty Array it returns a
    new array: the elements in reverse order, followed by whatever [z0]
    holds (nothing, as long as no caller has written to it); on a String it
    returns such an array of the characters, not a String; on an empty Array
    or String it returns [z0] itself, not a new array.  No object of the
    store is changed. *)
Theorem reverse_results (installed : bool) (st : L.state) (z0 xs : value)
        (sh : L.shape) (zs : list value) :
  in_store st xs -> in_store st z0 ->
  L.shape_of (L.heap_of st) xs = Some sh ->
  L.shape_of (L.heap_of st) z0 = Some (L.IsArray zs) ->
  exists v st',
    L.reverse installed z0 xs st = Some (L.Ok v, st')
    /\ extends st st'
    /\ (L.items sh = [] -> v = z0)
    /\ (L.items sh <> [] -> new_in st st' v (rev (L.items sh) ++ zs)).
Proof.
  intros Hxs Hz0 Hsh Hz.
  destruct (shape_array _ _ _ Hz) as (lz & -> & Hhz & _). cbn [in_store] in Hz0.
  unfold L.reverse. destruct sh as [elems|s]; cbn [L.items].
  - destruct (shape_array _ _ _ Hsh) as (l & -> & Hh & _). cbn [in_store] in Hxs.
    rewrite (foldl_on_array _ _ _ _ _ Hh).
    destruct (reverse_on_array installed st l lz elems zs Hxs Hz0 Hh Hhz)
      as (v & st' & Hred & Hext & Hempty & Hfull).
    exists v, st'. split; [exact Hred|]. split; [exact Hext|]. split; [|exact Hfull].
    intros He. now destruct (Hempty He).
  - rewrite (shape_string _ _ _ Hsh).
    unfold L.foldl, L.bind at 1, L.store_now at 1. rewrite isString_String.
    unfold L.split, L.bind at 1.
    destruct (new_array_spec (L.chars s) st) as (st1 & -> & Hn1 & Hx1 & Hf1).
    unfold L.reduce, L.bind, L.store_now. cbn [L.elements]. rewrite Hx1.
    destruct (reverse_on_array installed st1 (L.next st) lz (L.chars s) zs)
      as (v & st' & Hred & Hext & Hempty & Hfull); [lia|lia|exact Hx1| |].
    { rewrite Hf1 by lia. exact Hhz. }
    assert (He1 : extends st st1) by (split; [lia|intros k Hk; apply Hf1; lia]).
    exists v, st'. split; [exact Hred|]. split; [exact (extends_trans _ _ _ He1 Hext)|].
    split.
    + intros He. now destruct (Hempty He).
    + intros Hne. destruct (Hfull Hne) as (la & -> & [Hlo Hhi] & Hc).
      exists la. split; [reflexivity|]. split; [lia|exact Hc].
Qed.

Lemma reverse_results_witness :
  (exists v st',
      L.reverse false (VObject 4) (VString "abc") (L.State ex_heap 16) = Some (L.Ok v, st')
      /\ new_in (L.State ex_heap 16) st' v [VString "c"; VString "b"; VString "a"])
  /\ (exists st',
         L.reverse false (VObject 4) (VObject 4) (L.State ex_heap 16)
         = Some (L.Ok (VObject 4), st')).
Proof.
  split.
  - destruct (reverse_results false (L.State ex_heap 16) (VObject 4) (VString "abc")
                (L.IsString "abc") [] I) as (v & st' & Hr & _ & _ & Hnew);
      [cbn; lia|reflexivity|reflexivity|].
    exists v, st'. split; [exact Hr|]. apply Hnew. discriminate.
  - destruct (reverse_results false (L.State ex_heap 16) (VObject 4) (VObject 4)
                (L.IsArray []) []) as (v & st' & Hr & _ & Hempty & _);
      [cbn; lia|cbn; lia|reflexivity|reflexivity|].
    exists st'. rewrite (Hempty eq_refl) in Hr. exact Hr.
Defined.

(** ** Lists: [nub] *)

Lemma SFeqb_true (x y : number) :
  SFeqb x y = true ->
  match x, y with
  | S754_zero _, S754_zero _ => True
  | S754_nan, _ | _, S754_nan => False
  | _, _ => x = y
  end.
Proof.
  unfold SFeqb.
  destruct x as [[|]|[|]| |[|] mx ex], y as [[|]|[|]| |[|] my ey]; cbn [SFcompare];
    intros H; try discriminate H; try exact I; try reflexivity;
    destruct (Z.compare_spec ex ey) as [->|He|He]; try discriminate H;
    fold (Pos.compare mx my) in H;
    destruct (Pos.compare_spec mx my) as [->|Hm|Hm]; try discriminate H;
    reflexivity.
Qed.

Lemma strict_eq_trans (a b c : value) :
  strict_eq a b = true -> strict_eq b c = true -> strict_eq a c = true.
Proof.
  destruct a, b; cbn [strict_eq]; try discriminate; destruct c; cbn [strict_eq];
    try discriminate; try reflexivity.
  - intros H1 H2. apply Bool.eqb_prop in H1, H2. subst. apply Bool.eqb_reflx.
  - unfold num_eqb. intros H1 H2.
    apply SFeqb_true in H1. apply SFeqb_true in H2.
    destruct n as [?|?| |? ? ?], n0 as [?|?| |? ? ?]; try contradiction;
      try discriminate H1; destruct n1 as [?|?| |? ? ?]; try contradiction;
      try discriminate H2; try reflexivity.
    + injection H1 as ->. injection H2 as ->. now destruct s1.
    + injection H1 as -> -> ->. injection H2 as -> -> ->.
      unfold SFeqb. cbn [SFcompare]. rewrite Z.compare_refl.
      fold (Pos.compare m1 m1). rewrite Pos.compare_refl. now destruct s1.
  - intros H1 H2. apply String.eqb_eq in H1, H2. subst. apply String.eqb_refl.
  - intros H1 H2. apply Nat.eqb_eq in H1, H2. subst. apply Nat.eqb_refl.
Qed.

Lemma existsb_keep_new (x a : value) (seen : list value) :
  existsb (strict_eq x) (keep_new seen a)
  = existsb (strict_eq x) seen || strict_eq x a.
Proof.
  unfold keep_new. destruct (existsb (strict_eq a) seen) eqn:Ha.
  - destruct (strict_eq x a) eqn:Hxa; [|now rewrite orb_false_r].
    rewrite orb_true_r. apply existsb_exists in Ha. destruct Ha as (y & Hy & Hay).
    apply existsb_exists. exists y. split; [exact Hy|].
    exact (strict_eq_trans x a y Hxa Hay).
  - rewrite existsb_app. cbn [existsb]. now rewrite orb_false_r.
Qed.

Lemma existsb_first_occurrences (x : value) (xs seen : list value) :
  existsb (strict_eq x) (first_occurrences seen xs)
  = existsb (strict_eq x) seen || existsb (strict_eq x) xs.
Proof.
  unfold first_occurrences. revert seen.
  induction xs as [|a xs IH]; intros seen; cbn [fold_left existsb].
  - now rewrite orb_false_r.
  - now rewrite IH, existsb_keep_new, orb_assoc.
Qed.

Lemma distinct_first_occurrences (xs seen : list value) :
  (forall i j, i < j < length seen ->
               strict_eq (nth j seen VUndefined) (nth i seen VUndefined) = false) ->
  forall i j, i < j < length (first_occurrences seen xs) ->
              strict_eq (nth j (first_occurrences seen xs) VUndefined)
                        (nth i (first_occurrences seen xs) VUndefined) = false.
Proof.
  unfold first_occurrences. revert seen.
  induction xs as [|a xs IH]; intros seen Hseen; cbn [fold_left]; [exact Hseen|].
  apply IH. unfold keep_new. destruct (existsb (strict_eq a) seen) eqn:Ha; [exact Hseen|].
  intros i j. rewrite length_app. cbn [length]. intros Hij.
  destruct (Nat.eq_dec j (length seen)) as [->|Hj].
  - rewrite app_nth2, Nat.sub_diag, app_nth1 by lia. cbn [nth].
    destruct (strict_eq a (nth i seen VUndefined)) eqn:Hs; [|reflexivity].
    rewrite <- Ha. symmetry. apply existsb_exists.
    exists (nth i seen VUndefined). split; [apply nth_In; lia|exact Hs].
  - rewrite !app_nth1 by lia. apply Hseen. lia.
Qed.

Lemma nub_on_array (installed : bool) (st : L.state) (l lz : loc)
      (elems zs : list value) :
  l < L.next st -> lz < L.next st ->
  L.heap_of st l = OArray elems -> L.heap_of st lz = OArray zs ->
  exists lv st',
    L.reduce_loop (L.nub_step installed) (VObject l) (seq 0 (length elems))
                  (VObject lz) st
    = Some (L.Ok (VObject lv), st')
    /\ extends st st'
    /\ lv < L.next st'
    /\ L.heap_of st' lv = OArray (first_occurrences zs elems)
    /\ (elems = [] -> lv = lz).
Proof.
  intros Hl Hlz Hh Hz.
  pose (R := fun (k : nat) (acc : value) (s : L.state) =>
               extends st s
               /\ exists la, acc = VObject la /\ la < L.next s
                             /\ L.heap_of s la
                                = OArray (first_occurrences zs (firstn k elems))
                             /\ (k = 0 -> la = lz)).
  destruct (reduce_loop_inv (L.nub_step installed) l elems R) with
    (n := length elems) (k := 0) (acc := VObject lz) (st := st)
    as (v & st' & Hred & (Hext & la & -> & Hla & Hcontent & Hzero) & _).
  - intros k x acc s Hx (Hext & la & -> & Hla & Hcontent & _) Hhs.
    assert (Hnext : firstn (S k) elems = firstn k elems ++ [x]).
    { rewrite (firstn_S_nth elems k VUndefined).
      - now rewrite (nth_error_nth _ _ VUndefined Hx).
      - apply nth_error_Some. congruence. }
    assert (Hfo : first_occurrences zs (firstn (S k) elems)
                  = keep_new (first_occurrences zs (firstn k elems)) x).
    { unfold first_occurrences. now rewrite Hnext, fold_left_app. }
    unfold L.nub_step. cbn [L.arg nth]. unfold L.bind.
    destruct (elem_on_array x s la _ Hcontent) as (s1 & -> & Hn1 & Hf1).
    assert (Hl1 : l < L.next s) by (destruct Hext; lia).
    unfold L.cond. cbn [L.ToBoolean].
    destruct (existsb (strict_eq x) (first_occurrences zs (firstn k elems))) eqn:He.
    + exists (VObject la), s1. split; [reflexivity|]. split.
      * split; [apply (extends_trans st s s1 Hext); split; [lia|exact Hf1]|].
        exists la. split; [reflexivity|]. split; [lia|]. split; [|discriminate].
        rewrite (Hf1 la Hla), Hfo. unfold keep_new. now rewrite He.
      * now rewrite (Hf1 l Hl1).
    + destruct (append_array installed s1 x la (first_occurrences zs (firstn k elems)))
        as (s2 & -> & Hn2 & Hx2 & Hf2); [lia|now rewrite (Hf1 la Hla)|].
      exists (VObject (S (L.next s1))), s2. split; [reflexivity|]. split.
      * split.
        -- apply (extends_trans st s s2 Hext). split; [lia|].
           intros k' Hk'. rewrite Hf2, Hf1 by lia. reflexivity.
        -- exists (S (L.next s1)). split; [reflexivity|]. split; [lia|].
           split; [|discriminate]. rewrite Hx2, Hfo. unfold keep_new. now rewrite He.
      * rewrite Hf2, Hf1 by lia. exact Hhs.
  - reflexivity.
  - split; [apply extends_refl|]. exists lz. now repeat split.
  - exact Hh.
  - exists la, st'. split; [exact Hred|]. split; [exact Hext|]. split; [exact Hla|].
    split; [now rewrite Hcontent, firstn_all|].
    intros ->. now apply Hzero.
Qed.

(** X19.  [nub] folds from the one array [z0] that the library made when it
    was loaded, which is empty as long as no caller has written to it.  On
    an Array (on a String: of its characters) it returns an array of the
    first occurrences: a value is identical ([===]) to one of the result
    exactly when it is identical to one of the list, and no two elements of
    the result are identical.  No object of the store is changed; on an
    empty list the result is [z0] itself, not a new array. *)
Theorem nub_results (installed : bool) (st : L.state) (z0 xs : value) (sh : L.shape) :
  in_store st xs -> in_store st z0 ->
  L.shape_of (L.heap_of st) xs = Some sh ->
  L.shape_of (L.heap_of st) z0 = Some (L.IsArray []) ->
  exists lv st' ys,
    L.nub installed z0 xs st = Some (L.Ok (VObject lv), st')
    /\ extends st st'
    /\ lv < L.next st'
    /\ L.heap_of st' lv = OArray ys
    /\ ys = first_occurrences [] (L.items sh)
    /\ (forall x, existsb (strict_eq x) ys = existsb (strict_eq x) (L.items sh))
    /\ (forall i j, i < j < length ys ->
                    strict_eq (nth j ys VUndefined) (nth i ys VUndefined) = false)
    /\ (L.items sh = [] -> VObject lv = z0).
Proof.
  intros Hxs Hz0 Hsh Hz.
  destruct (shape_array _ _ _ Hz) as (lz & -> & Hhz & _). cbn [in_store] in Hz0.
  assert (Hprops : forall items,
             (forall x, existsb (strict_eq x) (first_occurrences [] items)
                        = existsb (strict_eq x) items)
             /\ (forall i j, i < j < length (first_occurrences [] items) ->
                             strict_eq (nth j (first_occurrences [] items) VUndefined)
                                       (nth i (first_occurrences [] items) VUndefined)
                             = false)).
  { intros items. split.
    - intros x. now rewrite existsb_first_occurrences.
    - apply distinct_first_occurrences. cbn [length]. intros i j Hij. lia. }
  unfold L.nub. destruct sh as [elems|s]; cbn [L.items].
  - destruct (shape_array _ _ _ Hsh) as (l & -> & Hh & _). cbn [in_store] in Hxs.
    rewrite (foldl_on_array _ _ _ _ _ Hh).
    destruct (nub_on_array installed st l lz elems [] Hxs Hz0 Hh Hhz)
      as (lv & st' & Hred & Hext & Hlv & Hc & Hempty).
    exists lv, st', (first_occurrences [] elems).
    split; [exact Hred|]. split; [exact Hext|]. split; [exact Hlv|].
    split; [exact Hc|]. split; [reflexivity|].
    split; [apply Hprops|]. split; [apply Hprops|].
    intros He. now rewrite (Hempty He).
  - rewrite (shape_string _ _ _ Hsh).
    unfold L.foldl, L.bind at 1, L.store_now at 1. rewrite isString_String.
    unfold L.split, L.bind at 1.
    destruct (new_array_spec (L.chars s) st) as (st1 & -> & Hn1 & Hx1 & Hf1).
    unfold L.reduce, L.bind, L.store_now. cbn [L.elements]. rewrite Hx1.
    destruct (nub_on_array installed st1 (L.next st) lz (L.chars s) [])
      as (lv & st' & Hred & Hext & Hlv & Hc & Hempty); [lia|lia|exact Hx1| |].
    { rewrite Hf1 by lia. exact Hhz. }
    assert (He1 : extends st st1) by (split; [lia|intros k Hk; apply Hf1; lia]).
    exists lv, st', (first_occurrences [] (L.chars s)).
    split; [exact Hred|]. split; [exact (extends_trans _ _ _ He1 Hext)|].
    split; [exact Hlv|]. split; [exact Hc|]. split; [reflexivity|].
    split; [apply Hprops|]. split; [apply Hprops|].
    intros He. now rewrite (Hempty He).
Qed.

Lemma nub_results_witness :
  exists lv st',
    L.nub false (VObject 4) (VString "abab") (L.State ex_heap 16)
    = Some (L.Ok (VObject lv), st')
    /\ L.heap_of st' lv = OArray [VString "a"; VString "b"].
Proof.
  destruct (nub_results false (L.State ex_heap 16) (VObject 4) (VString "abab")
              (L.IsString "abab") I) as (lv & st' & ys & Hn & _ & _ & Hc & -> & _);
    [cbn; lia|reflexivity|reflexivity|].
  exists lv, st'. split; [exact Hn|exact Hc].
Defined.

(** ** Lists: [take], [drop], [splitAt] *)

Lemma relative_index_le (n : number) (len : nat) : relative_index n len <= len.
Proof.
  destruct n as [s|[|]| |s m e]; cbn [relative_index]; try lia.
  pose proof (proj2 (Z.shiftl_nonneg (Zpos m) e) (Pos2Z.is_nonneg m)).
  destruct s; cbv zeta;
    match goal with |- context [(?k <? 0)%Z] => destruct (Z.ltb_spec k 0) end; lia.
Qed.

(** An integer as an index: counted from the start, or from the end when it
    is negative. *)
Lemma relative_index_integer (k : Z) (len : nat) :
  (Z.abs k < 2 ^ 53)%Z ->
  relative_index (num_of_Z k) len
  = if (k <? 0)%Z then len - Z.to_nat (- k) else Nat.min (Z.to_nat k) len.
Proof.
  intros Hk. destruct (Z.eq_dec k 0) as [->|Hk0]; [reflexivity|].
  unfold num_of_Z. rewrite (binary_normalize_canonical k false Hk0 Hk).
  unfold canonical, relative_index.
  set (p := Z.to_pos (Z.abs k)).
  assert (Hp : (Zpos p < 2 ^ 53)%Z) by (unfold p; lia).
  pose proof (digits2_pos_bound p Hp) as Hd.
  assert (Ht : Z.shiftl (Zpos (shiftl_pos p (53 - Zpos (digits2_pos p))))
                        (Zpos (digits2_pos p) - 53) = Zpos p).
  { rewrite Zpos_shiftl_pos by lia.
    replace (Zpos (digits2_pos p) - 53)%Z with (- (53 - Zpos (digits2_pos p)))%Z by lia.
    rewrite Z.shiftl_opp_r, Z.shiftr_div_pow2 by lia.
    apply Z.div_mul. apply Z.pow_nonzero; lia. }
  rewrite Ht. unfold p.
  destruct (Z.ltb_spec k 0); cbv zeta;
    match goal with |- context [(?j <? 0)%Z] => destruct (Z.ltb_spec j 0) end; lia.
Qed.

(** A Number strictly between -1 and 1 as an index: 0, also when it is
    negative. *)
Lemma relative_index_fraction (s : bool) (m : positive) (e : Z) (len : nat) :
  Z.shiftl (Zpos m) e = 0%Z -> relative_index (S754_finite s m e) len = 0.
Proof. intros Ht. cbn [relative_index]. rewrite Ht.
  destruct s; cbv zeta; rewrite ?Z.opp_0, Z.ltb_irrefl; lia.
Qed.

Lemma slice_call_from (st : L.state) (n : number) (xs : value) (sh : L.shape) :
  L.shape_of (L.heap_of st) xs = Some sh ->
  L.take (VNumber n) xs st
  = L.new_array (firstn (relative_index n (length (L.items sh))) (L.items sh)) st
  /\ L.drop (VNumber n) xs st
     = L.new_array (skipn (relative_index n (length (L.items sh))) (L.items sh)) st.
Proof.
  intros Hsh. unfold L.take, L.drop, L.slice_call, L.with_shape, L.bind, L.store_now.
  rewrite Hsh. cbn [ToNumber L.isUndefined strict_eq].
  change (relative_index (num_of_Z 0) (length (L.items sh))) with 0.
  rewrite Nat.sub_0_r. cbn [skipn]. split; [reflexivity|].
  f_equal. rewrite firstn_all2; [reflexivity|]. rewrite length_skipn. lia.
Qed.

(** X20.  For every Number [n], [take(n, xs)] and [drop(n, xs)] of an Array
    or a String are two new arrays (of characters, for a String) that split
    the list at one place [r]: the first [r] items and the others.  [r] is
    [n] itself for an integer from 0 to the length, the length beyond, and
    counts from the end for a negative integer; it is 0 for NaN, for the two
    zeros and for every Number strictly between -1 and 1, the negative ones
    too; it is the length for [Infinity] and 0 for [-Infinity].
    [splitAt(n, xs)] is a new array of the two.  No object of the store is
    changed. *)
Theorem take_drop_results (st : L.state) (n : number) (xs : value) (sh : L.shape) :
  in_store st xs ->
  L.shape_of (L.heap_of st) xs = Some sh ->
  exists r : nat,
    r <= length (L.items sh)
    /\ L.take (VNumber n) xs st = L.new_array (firstn r (L.items sh)) st
    /\ L.drop (VNumber n) xs st = L.new_array (skipn r (L.items sh)) st
    /\ (exists v st' front back,
           L.splitAt (VNumber n) xs st = Some (L.Ok v, st')
           /\ new_in st st' v [VObject front; VObject back]
           /\ L.heap_of st' front = OArray (firstn r (L.items sh))
           /\ L.heap_of st' back = OArray (skipn r (L.items sh))
           /\ extends st st')
    /\ (forall k, (0 <= k < 2 ^ 53)%Z -> n = num_of_Z k ->
                  r = Nat.min (Z.to_nat k) (length (L.items sh)))
    /\ (forall k, (- 2 ^ 53 < k < 0)%Z -> n = num_of_Z k ->
                  r = length (L.items sh) - Z.to_nat (- k))
    /\ (n = NaN -> r = 0)
    /\ (forall s m e, n = S754_finite s m e -> Z.shiftl (Zpos m) e = 0%Z -> r = 0)
    /\ (forall s, n = S754_zero s -> r = 0)
    /\ (n = S754_infinity false -> r = length (L.items sh))
    /\ (n = S754_infinity true -> r = 0).
Proof.
  intros Hin Hsh. exists (relative_index n (length (L.items sh))).
  destruct (slice_call_from st n xs sh Hsh) as [Htake Hdrop].
  split; [apply relative_index_le|]. split; [exact Htake|]. split; [exact Hdrop|].
  split; [|split; [|split; [|split; [|split; [|split; [|split]]]]]].
  - unfold L.splitAt, L.bind. rewrite Htake.
    destruct (new_array_spec (firstn (relative_index n (length (L.items sh))) (L.items sh))
                             st) as (st1 & -> & Hn1 & Hx1 & Hf1).
    assert (He1 : extends st st1) by (split; [lia|intros k Hk; apply Hf1; lia]).
    pose proof (shape_of_extends st st1 xs sh He1 Hin Hsh) as Hsh1.
    destruct (slice_call_from st1 n xs sh Hsh1) as [_ ->].
    destruct (new_array_spec (skipn (relative_index n (length (L.items sh))) (L.items sh))
                             st1) as (st2 & -> & Hn2 & Hx2 & Hf2).
    destruct (new_array_spec [VObject (L.next st); VObject (L.next st1)] st2)
      as (st3 & -> & Hn3 & Hx3 & Hf3).
    exists (VObject (L.next st2)), st3, (L.next st), (L.next st1).
    split; [reflexivity|]. split; [exists (L.next st2); repeat split; [lia|lia|exact Hx3]|].
    split; [rewrite Hf3, Hf2 by lia; exact Hx1|].
    split; [rewrite Hf3 by lia; exact Hx2|].
    split; [lia|]. intros k Hk. rewrite Hf3, Hf2, Hf1 by lia. reflexivity.
  - intros k Hk ->. rewrite relative_index_integer by lia.
    destruct (Z.ltb_spec k 0); [lia|reflexivity].
  - intros k Hk ->. rewrite relative_index_integer by lia.
    destruct (Z.ltb_spec k 0); [reflexivity|lia].
  - intros ->. reflexivity.
  - intros s m e -> Ht. now apply relative_index_fraction.
  - intros s ->. reflexivity.
  - intros ->. reflexivity.
  - intros ->. reflexivity.
Qed.

(** [take(-1, 'abc')] and [drop(-1, 'abc')]; then [take(-0.5, 'abc')] and
    [drop(-0.5, 'abc')], where -0.5 is [- 2^52 * 2^-53]. *)
Lemma take_drop_results_witness :
  L.take (num (-1)) (VString "abc") (L.State ex_heap 16)
  = L.new_array [VString "a"; VString "b"] (L.State ex_heap 16)
  /\ L.drop (num (-1)) (VString "abc") (L.State ex_heap 16)
     = L.new_array [VString "c"] (L.State ex_heap 16)
  /\ L.take (VNumber (S754_finite true 4503599627370496 (-53))) (VString "abc")
            (L.State ex_heap 16)
     = L.new_array [] (L.State ex_heap 16)
  /\ L.drop (VNumber (S754_finite true 4503599627370496 (-53))) (VString "abc")
            (L.State ex_heap 16)
     = L.new_array [VString "a"; VString "b"; VString "c"] (L.State ex_heap 16).
Proof.
  destruct (take_drop_results (L.State ex_heap 16) (num_of_Z (-1)) (VString "abc")
              (L.IsString "abc") I eq_refl) as (r & _ & Ht & Hd & _ & _ & Hneg & _).
  assert (Hr : r = 2) by (apply (Hneg (-1)%Z); [lia|reflexivity]).
  rewrite Hr in Ht, Hd. split; [exact Ht|]. split; [exact Hd|].
  destruct (take_drop_results (L.State ex_heap 16)
              (S754_finite true 4503599627370496 (-53)) (VString "abc")
              (L.IsString "abc") I eq_refl)
    as (r' & _ & Ht' & Hd' & _ & _ & _ & _ & Hfrac & _).
  assert (Hr' : r' = 0) by (apply (Hfrac true 4503599627370496%positive (-53)%Z);
                            reflexivity).
  rewrite Hr' in Ht', Hd'. split; [exact Ht'|exact Hd'].
Defined.


(** ** Lists: [takeWhile], [dropWhile], [span] *)

Lemma prefix_length_le (p : value -> bool) (xs : list value) :
  prefix_length p xs <= length xs.
Proof.
  induction xs as [|x xs IH]; cbn [prefix_length length]; [lia|].
  destruct (p x); lia.
Qed.

Lemma prefix_length_spec (p : value -> bool) (xs : list value) :
  Forall (fun x => p x = true) (firstn (prefix_length p xs) xs)
  /\ forall y rest, skipn (prefix_length p xs) xs = y :: rest -> p y = false.
Proof.
  induction xs as [|x xs [IH1 IH2]]; cbn [prefix_length].
  - split; [constructor|discriminate].
  - destruct (p x) eqn:Hx; cbn [firstn skipn].
    + split; [now constructor|exact IH2].
    + split; [constructor|]. now intros y rest [= <- _].
Qed.

Lemma while_loop_unary (g : value -> value) (xs : value) (st : L.state) (sh : L.shape)
      (steps i : nat) (left : list value) :
  L.shape_of (L.heap_of st) xs = Some sh ->
  i + steps = length (L.items sh) ->
  L.while_loop (unary g) xs i steps st
  = Some (L.Ok (i + prefix_length (fun x => L.ToBoolean (g x)) (skipn i (L.items sh))), st)
  /\ L.span_loop (unary g) xs i steps left st
     = Some (L.Ok (i + prefix_length (fun x => L.ToBoolean (g x)) (skipn i (L.items sh)),
                   left ++ firstn (prefix_length (fun x => L.ToBoolean (g x))
                                                 (skipn i (L.items sh)))
                                  (skipn i (L.items sh))), st).
Proof.
  intros Hsh. revert i left. induction steps as [|steps IH]; intros i left Hi.
  - cbn [L.while_loop L.span_loop]. rewrite skipn_all2 by lia.
    cbn [prefix_length firstn]. rewrite Nat.add_0_r, app_nil_r. split; reflexivity.
  - cbn [L.while_loop L.span_loop]. unfold L.bind.
    rewrite (item_on_list st xs sh i Hsh).
    destruct (skipn_nth_error (L.items sh) i) as (x & Hx & Hs); [lia|].
    rewrite Hs, (nth_error_nth _ _ VUndefined Hx).
    unfold unary at 1 3, L.ret at 1 3. cbn [L.arg nth prefix_length].
    destruct (L.ToBoolean (g x)).
    + rewrite (item_on_list st xs sh i Hsh), (nth_error_nth _ _ VUndefined Hx).
      destruct (IH (S i) (left ++ [x]) ltac:(lia)) as [-> ->].
      cbn [firstn]. rewrite <- app_assoc, Nat.add_succ_r. split; reflexivity.
    + cbn [firstn]. rewrite Nat.add_0_r, app_nil_r. split; reflexivity.
Qed.

(** X21.  With a callback that computes [g] of the item, [takeWhile] and
    [dropWhile] of an Array or a String are two new arrays that split the
    list where [g] first fails: every item taken counts as true, the first
    item dropped, if any, does not, and the items taken followed by the
    items dropped are the list.  [span] returns a new array of the same two.
    No object of the store is changed. *)
Theorem span_results (g : value -> value) (st : L.state) (xs : value) (sh : L.shape) :
  in_store st xs ->
  L.shape_of (L.heap_of st) xs = Some sh ->
  exists front back,
    front ++ back = L.items sh
    /\ Forall (fun x => L.ToBoolean (g x) = true) front
    /\ (forall y rest, back = y :: rest -> L.ToBoolean (g y) = false)
    /\ L.takeWhile (unary g) xs st = L.new_array front st
    /\ L.dropWhile (unary g) xs st = L.new_array back st
    /\ exists v st' left right,
         L.span (unary g) xs st = Some (L.Ok v, st')
         /\ new_in st st' v [VObject left; VObject right]
         /\ L.heap_of st' left = OArray front
         /\ L.heap_of st' right = OArray back
         /\ extends st st'.
Proof.
  intros Hin Hsh. pose proof (shape_of_sized _ _ _ Hsh) as Hlen.
  destruct (while_loop_unary g xs st sh (length (L.items sh)) 0 [] Hsh eq_refl)
    as [Hw Hs]. cbn [skipn Nat.add app] in Hw, Hs.
  destruct (prefix_length_spec (fun x => L.ToBoolean (g x)) (L.items sh))
    as [Hall Hfirst].
  pose proof (prefix_length_le (fun x => L.ToBoolean (g x)) (L.items sh)) as Hr.
  remember (prefix_length (fun x => L.ToBoolean (g x)) (L.items sh)) as r eqn:Hrdef.
  clear Hrdef.
  exists (firstn r (L.items sh)), (skipn r (L.items sh)).
  split; [apply firstn_skipn|].
  split; [exact Hall|]. split; [exact Hfirst|].
  assert (Hri : relative_index (num_of_Z (Z.of_nat r)) (length (L.items sh)) = r).
  { rewrite relative_index_integer by lia.
    destruct (Z.ltb_spec (Z.of_nat r) 0); lia. }
  split; [|split].
  - unfold L.takeWhile, L.with_shape, L.bind, L.store_now. rewrite Hsh, Hw.
    destruct (slice_call_from st (num_of_Z (Z.of_nat r)) xs sh Hsh) as [Ht _].
    unfold L.index. rewrite Ht, Hri. reflexivity.
  - unfold L.dropWhile, L.with_shape, L.bind, L.store_now. rewrite Hsh, Hw.
    destruct (slice_call_from st (num_of_Z (Z.of_nat r)) xs sh Hsh) as [_ Hd].
    unfold L.index. rewrite Hd, Hri. reflexivity.
  - unfold L.span, L.with_shape, L.bind at 1, L.store_now. rewrite Hsh.
    unfold L.bind at 1. rewrite Hs. cbn [fst snd]. unfold L.bind.
    destruct (new_array_spec (firstn r (L.items sh)) st) as (st1 & -> & Hn1 & Hx1 & Hf1).
    assert (He1 : extends st st1) by (split; [lia|intros k Hk; apply Hf1; lia]).
    pose proof (shape_of_extends st st1 xs sh He1 Hin Hsh) as Hsh1.
    destruct (slice_call_from st1 (num_of_Z (Z.of_nat r)) xs sh Hsh1) as [_ Hd].
    unfold L.drop in Hd. unfold L.index. rewrite Hd, Hri.
    destruct (new_array_spec (skipn r (L.items sh)) st1) as (st2 & -> & Hn2 & Hx2 & Hf2).
    destruct (new_array_spec [VObject (L.next st); VObject (L.next st1)] st2)
      as (st3 & -> & Hn3 & Hx3 & Hf3).
    exists (VObject (L.next st2)), st3, (L.next st), (L.next st1).
    split; [reflexivity|]. split; [exists (L.next st2); repeat split; [lia|lia|exact Hx3]|].
    split; [rewrite Hf3, Hf2 by lia; exact Hx1|].
    split; [rewrite Hf3 by lia; exact Hx2|].
    split; [lia|]. intros k Hk. rewrite Hf3, Hf2, Hf1 by lia. reflexivity.
Qed.

Lemma span_results_witness :
  exists front back,
    front ++ back = [num 1; num 2; num 3]
    /\ L.takeWhile (unary (fun x => VBool (strict_eq x (num 1)))) (VObject 7)
                   (L.State ex_heap 16)
       = L.new_array front (L.State ex_heap 16).
Proof.
  destruct (span_results (fun x => VBool (strict_eq x (num 1))) (L.State ex_heap 16)
              (VObject 7) (L.IsArray [num 1; num 2; num 3]))
    as (front & back & Happ & _ & _ & Ht & _); [cbn; lia|reflexivity|].
  exists front, back. split; [exact Happ|exact Ht].
Defined.

(** ** Lists: [zipWith] and [zip] *)

Lemma min_lengths (x y : nat) : L.min x y = Nat.min x y.
Proof. unfold L.min. destruct (Nat.ltb_spec y x); cbn [negb]; lia. Qed.

Lemma combine_firstn_min {A B : Type} (l : list A) (l' : list B) :
  combine (firstn (Nat.min (length l) (length l')) l)
          (firstn (Nat.min (length l) (length l')) l')
  = combine l l'.
Proof.
  rewrite <- combine_firstn. apply firstn_all2. rewrite length_combine. lia.
Qed.

Lemma in_store_extends (st st' : L.state) (v : value) :
  extends st st' -> in_store st v -> in_store st' v.
Proof. intros [Hle _]. destruct v; cbn [in_store]; trivial. lia. Qed.

Lemma zip_loop_binary (g : value -> value -> value) (xs ys : value) (st : L.state)
      (shx shy : L.shape) (steps i : nat) :
  L.shape_of (L.heap_of st) xs = Some shx ->
  L.shape_of (L.heap_of st) ys = Some shy ->
  i + steps <= length (L.items shx) -> i + steps <= length (L.items shy) ->
  L.zip_loop (binary g) xs ys i steps st
  = Some (L.Ok (map (fun xy => g (fst xy) (snd xy))
                    (combine (firstn steps (skipn i (L.items shx)))
                             (firstn steps (skipn i (L.items shy))))), st).
Proof.
  intros Hx Hy. revert i. induction steps as [|steps IH]; intros i Hix Hiy; [reflexivity|].
  cbn [L.zip_loop]. unfold L.bind.
  rewrite (item_on_list st xs shx i Hx), (item_on_list st ys shy i Hy).
  destruct (skipn_nth_error (L.items shx) i) as (x & Hnx & ->); [lia|].
  destruct (skipn_nth_error (L.items shy) i) as (y & Hny & ->); [lia|].
  rewrite (nth_error_nth _ _ VUndefined Hnx), (nth_error_nth _ _ VUndefined Hny).
  unfold binary at 1, L.ret at 1. cbn [L.arg nth]. rewrite IH by lia. reflexivity.
Qed.

Lemma zip_loop_pairs (xs ys : value) (shx shy : L.shape) (steps : nat) :
  forall (i : nat) (st : L.state),
    in_store st xs -> in_store st ys ->
    L.shape_of (L.heap_of st) xs = Some shx ->
    L.shape_of (L.heap_of st) ys = Some shy ->
    i + steps <= length (L.items shx) -> i + steps <= length (L.items shy) ->
    exists pairs st',
      L.zip_loop (fun args => L.new_array [L.arg 0 args; L.arg 1 args]) xs ys i steps st
      = Some (L.Ok (map VObject pairs), st')
      /\ Forall2 (fun l xy => L.next st <= l < L.next st'
                              /\ L.heap_of st' l = OArray [fst xy; snd xy])
                 pairs (combine (firstn steps (skipn i (L.items shx)))
                                (firstn steps (skipn i (L.items shy))))
      /\ extends st st'.
Proof.
  induction steps as [|steps IH]; intros i st Hinx Hiny Hx Hy Hix Hiy.
  - exists [], st. split; [reflexivity|]. split; [constructor|apply extends_refl].
  - cbn [L.zip_loop]. unfold L.bind.
    rewrite (item_on_list st xs shx i Hx), (item_on_list st ys shy i Hy).
    destruct (skipn_nth_error (L.items shx) i) as (x & Hnx & ->); [lia|].
    destruct (skipn_nth_error (L.items shy) i) as (y & Hny & ->); [lia|].
    rewrite (nth_error_nth _ _ VUndefined Hnx), (nth_error_nth _ _ VUndefined Hny).
    cbn [L.arg nth].
    destruct (new_array_spec [x; y] st) as (st1 & -> & Hn1 & Hx1 & Hf1).
    assert (He1 : extends st st1) by (split; [lia|intros k Hk; apply Hf1; lia]).
    destruct (IH (S i) st1) as (pairs & st' & -> & Hall & He');
      [now apply (in_store_extends st)|now apply (in_store_extends st)
       |now apply (shape_of_extends st)|now apply (shape_of_extends st)|lia|lia|].
    exists (L.next st :: pairs), st'. split; [reflexivity|]. split.
    + cbn [firstn combine]. constructor.
      * cbn [fst snd]. destruct He' as [Hle Hf']. split; [lia|].
        rewrite Hf' by lia. exact Hx1.
      * eapply Forall2_impl; [|exact Hall]. cbn beta. intros l xy [Hl Hc].
        split; [lia|exact Hc].
    + exact (extends_trans _ _ _ He1 He').
Qed.

(** X22.  [zipWith] and [zip] of two lists (Arrays or Strings) stop at the
    end of the shorter one.  With a callback that computes [g] of its two
    arguments [zipWith] returns a new array of the [g(x, y)] of the items at
    the same index; [zip] returns a new array of new two-element arrays
    [[x, y]].  No object of the store is changed. *)
Theorem zip_results (g : value -> value -> value) (st : L.state) (xs ys : value)
        (shx shy : L.shape) :
  in_store st xs -> in_store st ys ->
  L.shape_of (L.heap_of st) xs = Some shx ->
  L.shape_of (L.heap_of st) ys = Some shy ->
  length (combine (L.items shx) (L.items shy))
  = Nat.min (length (L.items shx)) (length (L.items shy))
  /\ L.zipWith (binary g) xs ys st
     = L.new_array (map (fun xy => g (fst xy) (snd xy))
                        (combine (L.items shx) (L.items shy))) st
  /\ exists v st' pairs,
       L.zip xs ys st = Some (L.Ok v, st')
       /\ new_in st st' v (map VObject pairs)
       /\ Forall2 (fun l xy => L.next st <= l < L.next st'
                               /\ L.heap_of st' l = OArray [fst xy; snd xy])
                  pairs (combine (L.items shx) (L.items shy))
       /\ extends st st'.
Proof.
  intros Hinx Hiny Hx Hy. split; [apply length_combine|]. split.
  - unfold L.zipWith, L.with_shape, L.bind, L.store_now. rewrite Hx, Hy.
    rewrite (zip_loop_binary g xs ys st shx shy _ 0 Hx Hy);
      [|rewrite min_lengths; lia|rewrite min_lengths; lia].
    cbn [skipn]. now rewrite min_lengths, combine_firstn_min.
  - unfold L.zip, L.zipWith, L.with_shape, L.bind, L.store_now. rewrite Hx, Hy.
    destruct (zip_loop_pairs xs ys shx shy
                (L.min (length (L.items shx)) (length (L.items shy))) 0 st)
      as (pairs & st1 & -> & Hall & He1);
      try assumption; [rewrite min_lengths; lia|rewrite min_lengths; lia|].
    cbn [skipn] in Hall. rewrite min_lengths, combine_firstn_min in Hall.
    destruct (new_array_spec (map VObject pairs) st1) as (st2 & -> & Hn2 & Hx2 & Hf2).
    destruct He1 as [Hle1 Hf1].
    exists (VObject (L.next st1)), st2, pairs. split; [reflexivity|].
    split; [exists (L.next st1); repeat split; [lia|lia|exact Hx2]|]. split.
    + eapply Forall2_impl; [|exact Hall]. cbn beta. intros l xy [Hl Hc].
      split; [lia|]. rewrite Hf2 by lia. exact Hc.
    + split; [lia|]. intros k Hk. rewrite Hf2 by lia. now apply Hf1.
Qed.

Lemma zip_results_witness :
  L.zipWith (binary L.plus) (VObject 7) (VObject 15) (L.State ex_heap 16)
  = L.new_array [num 2; num 4] (L.State ex_heap 16).
Proof.
  destruct (zip_results L.plus (L.State ex_heap 16) (VObject 7) (VObject 15)
              (L.IsArray [num 1; num 2; num 3]) (L.IsArray [num 1; num 2]))
    as (_ & Hz & _); [cbn; lia|cbn; lia|reflexivity|reflexivity|].
  exact Hz.
Defined.

(** ** Lists: [replicate] and [range] *)

Lemma less_integers (i k : Z) :
  (Z.abs i < 2 ^ 53)%Z -> (Z.abs k < 2 ^ 53)%Z ->
  less (VNumber (num_of_Z i)) (VNumber (num_of_Z k)) = Some (i <? k)%Z
  /\ less_or_equal (VNumber (num_of_Z i)) (VNumber (num_of_Z k)) = Some (i <=? k)%Z.
Proof.
  intros Hi Hk. cbn [less less_or_equal ToNumber]. unfold SFltb, SFleb.
  rewrite (SFcompare_integers i k Hi Hk). unfold Z.ltb, Z.leb.
  now destruct (i ?= k)%Z.
Qed.

Lemma succ_integer (i : Z) :
  (Z.abs i < 2 ^ 53)%Z -> (Z.abs (i + 1) < 2 ^ 53)%Z ->
  num_add (num_of_Z i) (num_of_Z 1) = num_of_Z (i + 1).
Proof. intros Hi Hi1. apply (num_add_integers i 1 false); lia. Qed.

Lemma replicate_loop_integer (k : Z) (x : value) (m : nat) :
  forall (fuel : nat) (i : Z) (r : list value),
    (0 <= i <= k)%Z -> (k <= 2 ^ 32 - 1)%Z ->
    Z.of_nat (length r) = i -> m = Z.to_nat (k - i) -> m < fuel ->
    L.replicate_loop fuel (num_of_Z i) (VNumber (num_of_Z k)) x r
    = Some (r ++ repeat x m).
Proof.
  induction m as [|m IH]; intros fuel i r Hi Hk Hr Hm Hfuel;
    (destruct fuel as [|fuel]; [lia|]); cbn [L.replicate_loop];
    destruct (less_integers i k) as [-> _]; try lia.
  - destruct (Z.ltb_spec i k); [lia|]. cbn [repeat]. now rewrite app_nil_r.
  - destruct (Z.ltb_spec i k); [|lia].
    destruct (Z.ltb_spec (Z.of_nat (length r)) (2 ^ 32 - 1)); [|lia].
    rewrite succ_integer by lia.
    rewrite (IH fuel (i + 1)%Z (r ++ [x])); try lia.
    + cbn [repeat]. now rewrite <- app_assoc.
    + rewrite length_app. cbn [length]. lia.
Qed.

Lemma range_loop_integer (b : Z) (m : nat) :
  forall (fuel : nat) (i : Z) (xs : list value),
    (Z.abs i < 2 ^ 53)%Z -> (Z.abs b < 2 ^ 53 - 1)%Z ->
    (Z.of_nat (length xs) + Z.of_nat m <= 2 ^ 32 - 1)%Z ->
    m = Z.to_nat (b - i + 1) -> m < fuel ->
    L.range_loop fuel (VNumber (num_of_Z i)) (VNumber (num_of_Z b)) xs
    = Some (xs ++ map (fun j => num (i + Z.of_nat j)) (seq 0 m)).
Proof.
  induction m as [|m IH]; intros fuel i xs Hi Hb Hlen Hm Hfuel;
    (destruct fuel as [|fuel]; [lia|]); cbn [L.range_loop];
    destruct (less_integers i b) as [_ ->]; try lia.
  - destruct (Z.leb_spec i b); [lia|]. cbn [seq map]. now rewrite app_nil_r.
  - destruct (Z.leb_spec i b); [|lia]. cbn [ToNumber].
    destruct (Z.ltb_spec (Z.of_nat (length xs)) (2 ^ 32 - 1)); [|lia].
    rewrite succ_integer by lia.
    rewrite (IH fuel (i + 1)%Z (xs ++ [VNumber (num_of_Z i)])); try lia.
    + cbn [seq map]. rewrite <- app_assoc. cbn [app]. unfold num at 2.
      rewrite Z.add_0_r. do 3 f_equal. rewrite <- seq_shift, map_map.
      apply map_ext. intros j. f_equal. lia.
    + rewrite length_app. cbn [length]. lia.
Qed.

(** Where [i++] no longer changes [i]: from 2^53 the loop of [range] towards
    2^53 + 2 goes on until the array cannot grow, however long it may
    run. *)
Lemma range_loop_stuck (fuel : nat) :
  forall xs : list value,
    L.range_loop fuel (num (2 ^ 53)) (num (2 ^ 53 + 2)) xs = None.
Proof.
  induction fuel as [|fuel IH]; intros xs; [reflexivity|].
  cbn [L.range_loop].
  replace (less_or_equal (num (2 ^ 53)) (num (2 ^ 53 + 2))) with (Some true)
    by (vm_compute; reflexivity).
  unfold num at 1. cbn [ToNumber].
  replace (num_add (num_of_Z (2 ^ 53)) (num_of_Z 1)) with (num_of_Z (2 ^ 53))
    by (vm_compute; reflexivity).
  destruct (_ <? _)%Z; [apply IH|reflexivity].
Qed.

(** X23.  [replicate(k, x)] for an integer [k] from 0 to 2^32 - 1 returns a
    new array of [k] times [x], and an empty one for every Number that 0 is
    not less than (a negative Number, 0, NaN).  [range(a, b)] returns a new
    array of the integers from [a] to [b], both included, in increasing
    order (none when [b < a]), for two integers [a] and [b] with
    [|a| < 2^53] and [|b| < 2^53 - 1] of which [b] is less than 2^32 - 1
    above [a]: the Numbers that [i++] counts exactly and the lengths an
    array can have.  Not for all integers: [range(2^53, 2^53 + 2)] has no
    result however long the loop may run, since [i++] leaves [i] at
    2^53. *)
Theorem replicate_range_results (fuel : nat) (st : L.state) (x : value) :
  (forall k : Z,
      (0 <= k <= 2 ^ 32 - 1)%Z -> (k < Z.of_nat fuel)%Z ->
      L.replicate fuel (num k) x st = L.new_array (repeat x (Z.to_nat k)) st)
  /\ (forall n : number,
         SFltb (num_of_Z 0) n = false ->
         L.replicate (S fuel) (VNumber n) x st = L.new_array [] st)
  /\ (forall a b : Z,
         (Z.abs a < 2 ^ 53)%Z -> (Z.abs b < 2 ^ 53 - 1)%Z ->
         (b - a + 1 <= 2 ^ 32 - 1)%Z -> (b - a + 1 < Z.of_nat fuel)%Z -> 0 < fuel ->
         L.range fuel (num a) (num b) st
         = L.new_array (map (fun j => num (a + Z.of_nat j))
                            (seq 0 (Z.to_nat (b - a + 1)))) st)
  /\ L.range fuel (num (2 ^ 53)) (num (2 ^ 53 + 2)) st = None.
Proof.
  split; [|split; [|split]].
  - intros k Hk Hfuel. unfold L.replicate, num.
    rewrite (replicate_loop_integer k x (Z.to_nat k) fuel 0 []); try reflexivity; lia.
  - intros n Hn. unfold L.replicate. cbn [L.replicate_loop less ToNumber].
    now rewrite Hn.
  - intros a b Ha Hb Hlen Hfuel Hpos. unfold L.range, num at 1 2.
    rewrite (range_loop_integer b (Z.to_nat (b - a + 1)) fuel a []);
      try reflexivity; cbn [length]; lia.
  - unfold L.range. now rewrite range_loop_stuck.
Qed.

Lemma replicate_range_results_witness :
  L.replicate 5 (num 3) (VString "a") (L.State ex_heap 16)
  = L.new_array [VString "a"; VString "a"; VString "a"] (L.State ex_heap 16)
  /\ L.range 5 (num (-1)) (num 1) (L.State ex_heap 16)
     = L.new_array [num (-1); num 0; num 1] (L.State ex_heap 16).
Proof.
  split.
  - apply (proj1 (replicate_range_results 5 (L.State ex_heap 16) (VString "a")) 3%Z);
      lia.
  - apply (proj1 (proj2 (proj2 (replicate_range_results 5 (L.State ex_heap 16)
                                  VUndefined)))
             (-1)%Z 1%Z); lia.
Defined.

(** ** Lists: [maximum], [minimum], [concatMap] *)

Lemma max_min_step (installed : bool) (fuel : nat) (a b : Z) (i arr : value)
      (st : L.state) :
  (Z.abs a < 2 ^ 53)%Z -> (Z.abs b < 2 ^ 53)%Z ->
  L.max_fn installed (S fuel) [num a; num b; i; arr] st
  = Some (L.Ok (num (Z.max a b)), st)
  /\ L.min_fn installed (S fuel) [num a; num b; i; arr] st
     = Some (L.Ok (num (Z.min a b)), st).
Proof.
  intros Ha Hb.
  change (L.max_fn installed (S fuel) [num a; num b; i; arr] st)
    with (L.lift_answer (L.max installed (S fuel) (L.heap_of st) (num a) (num b)) st).
  change (L.min_fn installed (S fuel) [num a; num b; i; arr] st)
    with (L.lift_answer (L.min_ installed (S fuel) (L.heap_of st) (num a) (num b)) st).
  unfold num.
  destruct (max_min_numbers installed fuel (L.heap_of st) (num_of_Z a) (num_of_Z b))
    as [-> ->].
  unfold num_gtb, num_ltb, SFltb.
  rewrite (SFcompare_integers a b Ha Hb), (SFcompare_integers b a Hb Ha).
  cbn [L.lift_answer L.lift]. unfold L.ret. split; do 4 f_equal.
  - destruct (Z.compare_spec a b); f_equal; lia.
  - destruct (Z.compare_spec b a); f_equal; lia.
Qed.

Lemma maximum_loop (installed : bool) (fuel : nat) (st : L.state) (l : loc)
      (ks : list Z) (k0 : Z) :
  L.heap_of st l = OArray (map num ks) ->
  (Z.abs k0 < 2 ^ 53)%Z -> (forall k, In k ks -> (Z.abs k < 2 ^ 53)%Z) ->
  L.reduce_loop (L.max_fn installed (S fuel)) (VObject l) (seq 0 (length (map num ks)))
                (num k0) st
  = Some (L.Ok (num (fold_left Z.max ks k0)), st)
  /\ L.reduce_loop (L.min_fn installed (S fuel)) (VObject l) (seq 0 (length (map num ks)))
                   (num k0) st
     = Some (L.Ok (num (fold_left Z.min ks k0)), st).
Proof.
  intros Hh Hk0 Hks.
  assert (Hgen : forall n j acc,
             j + n = length ks -> (Z.abs acc < 2 ^ 53)%Z ->
             L.reduce_loop (L.max_fn installed (S fuel)) (VObject l) (seq j n) (num acc) st
             = Some (L.Ok (num (fold_left Z.max (skipn j ks) acc)), st)
             /\ L.reduce_loop (L.min_fn installed (S fuel)) (VObject l) (seq j n)
                              (num acc) st
                = Some (L.Ok (num (fold_left Z.min (skipn j ks) acc)), st)).
  { induction n as [|n IH]; intros j acc Hj Hacc.
    - cbn [seq L.reduce_loop]. rewrite skipn_all2 by lia. split; reflexivity.
    - cbn [seq]. destruct (skipn_nth_error ks j) as (k & Hk & Hs); [lia|].
      assert (Hx : nth_error (L.elements (L.heap_of st) (VObject l)) j = Some (num k)).
      { cbn [L.elements]. rewrite Hh. now apply map_nth_error. }
      rewrite !(reduce_loop_step _ _ _ _ _ _ _ Hx), Hs. unfold L.bind.
      assert (Hkb : (Z.abs k < 2 ^ 53)%Z) by (apply Hks; eapply nth_error_In; eauto).
      destruct (max_min_step installed fuel acc k (L.index j) (VObject l) st Hacc Hkb)
        as [-> ->].
      cbn [fold_left].
      destruct (IH (S j) (Z.max acc k) ltac:(lia) ltac:(lia)) as [-> _].
      destruct (IH (S j) (Z.min acc k) ltac:(lia) ltac:(lia)) as [_ ->].
      split; reflexivity. }
  rewrite length_map. exact (Hgen (length ks) 0 k0 eq_refl Hk0).
Qed.

Lemma fold_left_max_min (ks : list Z) (k0 : Z) :
  (forall k, In k (k0 :: ks) ->
             (k <= fold_left Z.max ks k0)%Z /\ (fold_left Z.min ks k0 <= k)%Z)
  /\ In (fold_left Z.max ks k0) (k0 :: ks)
  /\ In (fold_left Z.min ks k0) (k0 :: ks).
Proof.
  revert k0. induction ks as [|a ks IH]; intros k0; cbn [fold_left].
  - split; [intros k [<-|[]]; lia|]. split; now left.
  - destruct (IH (Z.max k0 a)) as (Hmax & Hinmax & _).
    destruct (IH (Z.min k0 a)) as (Hmin & _ & Hinmin).
    split; [|split].
    + assert (Hhi : (Z.max k0 a <= fold_left Z.max ks (Z.max k0 a))%Z)
        by (apply Hmax; now left).
      assert (Hlo : (fold_left Z.min ks (Z.min k0 a) <= Z.min k0 a)%Z)
        by (apply Hmin; now left).
      intros k [Hk|[Hk|Hk]]; [subst k; lia|subst k; lia|].
      split; [apply Hmax; now right|apply Hmin; now right].
    + destruct Hinmax as [<-|Hin]; [|now right; right].
      destruct (Z.max_spec k0 a) as [[_ ->]|[_ ->]]; [right; now left|now left].
    + destruct Hinmin as [<-|Hin]; [|now right; right].
      destruct (Z.min_spec k0 a) as [[_ ->]|[_ ->]]; [now left|right; now left].
Qed.

(** X24.  On a non-empty Array of integer Numbers [maximum] and [minimum]
    return the greatest and the least element, and they change no object of
    the store; on an empty Array or String they raise the Error of
    [head]. *)
Theorem maximum_minimum_results (installed : bool) (fuel : nat) (st : L.state)
        (xs : value) :
  (forall (k0 : Z) (ks : list Z),
      L.shape_of (L.heap_of st) xs = Some (L.IsArray (map num (k0 :: ks))) ->
      (forall k, In k (k0 :: ks) -> (Z.abs k < 2 ^ 53)%Z) ->
      exists (hi lo : Z) (st' : L.state),
        L.maximum installed (S fuel) xs st = Some (L.Ok (num hi), st')
        /\ L.minimum installed (S fuel) xs st = Some (L.Ok (num lo), st')
        /\ In hi (k0 :: ks) /\ In lo (k0 :: ks)
        /\ (forall k, In k (k0 :: ks) -> (lo <= k <= hi)%Z)
        /\ extends st st')
  /\ (forall sh,
         L.shape_of (L.heap_of st) xs = Some sh -> L.items sh = [] ->
         L.maximum installed fuel xs st
         = Some (L.Raise (L.Error "head of empty array"), st)
         /\ L.minimum installed fuel xs st
            = Some (L.Raise (L.Error "head of empty array"), st)).
Proof.
  split.
  - intros k0 ks Hsh Hks.
    destruct (list_parts st xs _ Hsh) as [_ Hfull].
    destruct (Hfull ltac:(discriminate)) as (Hhead & _ & Htail & _).
    cbn [L.items map hd tl] in Hhead, Htail.
    destruct (new_array_spec (map num ks) st) as (st1 & Hnew & Hn1 & Hx1 & Hf1).
    destruct (maximum_loop installed fuel st1 (L.next st) ks k0 Hx1) as [Hmax Hmin];
      [apply Hks; now left|intros k Hk; apply Hks; now right|].
    destruct (fold_left_max_min ks k0) as (Hbounds & Hinmax & Hinmin).
    exists (fold_left Z.max ks k0), (fold_left Z.min ks k0), st1.
    unfold L.maximum, L.minimum, L.foldl1, L.bind.
    rewrite Hhead, Htail, Hnew, !(foldl_on_array _ _ _ _ _ Hx1).
    split; [exact Hmax|]. split; [exact Hmin|].
    split; [exact Hinmax|]. split; [exact Hinmin|]. split.
    + intros k Hk. destruct (Hbounds k Hk). lia.
    + split; [lia|]. intros k Hk. apply Hf1. lia.
  - intros sh Hsh He. destruct (list_parts st xs sh Hsh) as [Hempty _].
    destruct (Hempty He) as (Hhead & _).
    unfold L.maximum, L.minimum, L.foldl1, L.bind. now rewrite Hhead.
Qed.

Lemma maximum_minimum_results_witness :
  exists (hi lo : Z) (st' : L.state),
    L.maximum false 1 (VObject 7) (L.State ex_heap 16) = Some (L.Ok (num hi), st')
    /\ L.minimum false 1 (VObject 7) (L.State ex_heap 16) = Some (L.Ok (num lo), st')
    /\ In hi [1; 2; 3]%Z /\ In lo [1; 2; 3]%Z
    /\ (forall k, In k [1; 2; 3]%Z -> (lo <= k <= hi)%Z).
Proof.
  destruct (proj1 (maximum_minimum_results false 0 (L.State ex_heap 16) (VObject 7))
                  1%Z [2; 3]%Z eq_refl)
    as (hi & lo & st' & Hmax & Hmin & Hhi & Hlo & Hb & _).
  - intros k [<-|[<-|[<-|[]]]]; cbn; lia.
  - exists hi, lo, st'. repeat split; try assumption; apply Hb; assumption.
Defined.

(** X25.  [concatMap(f, xs)] folds [concat] over the results with [foldl1]:
    on an empty Array it raises the Error of [head] (for every callback,
    which is not called) instead of returning an empty array; on an Array
    of one element it returns the result of the callback as it is, whatever
    it is; on a String it raises the TypeError of [map]. *)
Theorem concatMap_results (p : L.callback) (g : value -> value) (st : L.state)
        (xs : value) :
  (L.shape_of (L.heap_of st) xs = Some (L.IsArray []) ->
   exists st',
     L.concatMap p xs st = Some (L.Raise (L.Error "head of empty array"), st')
     /\ extends st st')
  /\ (forall x,
         L.shape_of (L.heap_of st) xs = Some (L.IsArray [x]) ->
         exists st',
           L.concatMap (unary g) xs st = Some (L.Ok (g x), st') /\ extends st st')
  /\ (forall s,
         xs = VString s ->
         L.concatMap p xs st = Some (L.Raise (L.not_a_function "map"), st)).
Proof.
  split; [|split].
  - intros Hsh. destruct (shape_array _ _ _ Hsh) as (l & -> & Hh & _).
    unfold L.concatMap, L.map, L.array_method, L.bind at 1 2, L.store_now at 1.
    rewrite isArray_Array, Hh.
    unfold L.array_map, L.bind at 1 2, L.store_now at 1. cbn [L.elements].
    rewrite Hh. cbn [length seq L.map_loop]. unfold L.ret at 1.
    destruct (new_array_spec [] st) as (st' & -> & Hn & Hx & Hf).
    exists st'. split.
    + destruct (list_parts st' (VObject (L.next st)) (L.IsArray [])) as [Hempty _].
      { now apply array_shape. }
      destruct (Hempty eq_refl) as (Hhead & _).
      unfold L.foldl1, L.bind. now rewrite Hhead.
    + split; [lia|]. intros k Hk. apply Hf. lia.
  - intros x Hsh. destruct (shape_array _ _ _ Hsh) as (l & -> & Hh & _).
    destruct (map_on_array (unary g) (fun args => g (L.arg 0 args)) st l [x]
                           (fun _ _ => eq_refl) Hh) as (st1 & Hm & Hn1 & Hx1 & Hf1).
    cbn [length seq map L.arg nth] in Hx1.
    destruct (list_parts st1 (VObject (L.next st)) (L.IsArray [g x])) as [_ Hfull].
    { now apply array_shape. }
    destruct (Hfull ltac:(discriminate)) as (Hhead & _ & Htail & _).
    cbn [L.items hd tl] in Hhead, Htail.
    destruct (new_array_spec [] st1) as (st2 & Hnew & Hn2 & Hx2 & Hf2).
    exists st2. split.
    + unfold L.concatMap, L.bind. rewrite Hm. unfold L.foldl1, L.bind.
      rewrite Hhead, Htail, Hnew, (foldl_on_array _ _ _ _ _ Hx2). reflexivity.
    + split; [lia|]. intros k Hk. rewrite Hf2, Hf1 by lia. reflexivity.
  - intros s ->. reflexivity.
Qed.

Lemma concatMap_results_witness :
  exists st',
    L.concatMap (unary (fun x => x)) (VObject 4) (L.State ex_heap 16)
    = Some (L.Raise (L.Error "head of empty array"), st').
Proof.
  destruct (proj1 (concatMap_results (unary (fun x => x)) (fun x => x)
                     (L.State ex_heap 16) (VObject 4)) eq_refl) as (st' & Hc & _).
  exists st'. exact Hc.
Defined.

(** ** Objects: [get] *)

Lemma index_key_digit (i : nat) :
  exists c s, index_key i = String c s
              /\ In c (list_ascii_of_string "0123456789").
Proof.
  unfold index_key, NilZero.string_of_uint.
  destruct (Nat.to_uint i); cbn; eexists _, _; (split; [reflexivity|]); cbn; tauto.
Qed.

Lemma assoc_indexed_name (name : string) (vs : list value) :
  (forall c s, name = String c s -> ~ In c (list_ascii_of_string "0123456789")) ->
  assoc name (indexed vs) = None.
Proof.
  intros Hname. unfold indexed. generalize (seq 0 (length vs)) as ks. revert vs.
  induction vs as [|v vs IH]; intros [|k ks]; try reflexivity.
  cbn [map combine assoc].
  destruct (String.eqb_spec (index_key k) name) as [He|_]; [exfalso|apply IH].
  destruct (index_key_digit k) as (c & s & Hk & Hc).
  apply (Hname c s); [congruence|exact Hc].
Qed.

Lemma assoc_app (name : string) (ps qs : list (string * value)) :
  assoc name (ps ++ qs)
  = match assoc name ps with Some v => Some v | None => assoc name qs end.
Proof.
  induction ps as [|[k v] ps IH]; [reflexivity|]. cbn [app assoc].
  now destruct (String.eqb k name).
Qed.

Lemma no_method_in_list (vs : list value) :
  assoc "hasOwnProperty" (L.own_of_list vs) = None.
Proof.
  unfold L.own_of_list. rewrite assoc_app, assoc_indexed_name; [reflexivity|].
  intros c s [= <- _]. cbn. intros H. repeat destruct H as [H|H]; try discriminate H.
  exact H.
Qed.

Lemma assoc_Some_In (name : string) (props : list (string * value)) (v : value) :
  assoc name props = Some v -> In (name, v) props.
Proof.
  induction props as [|[k w] props IH]; [discriminate|]. cbn [assoc].
  destruct (String.eqb_spec k name) as [->|_].
  - intros [= ->]. now left.
  - intros H. right. now apply IH.
Qed.

Lemma in_store_le (st st' : L.state) (v : value) :
  L.next st <= L.next st' -> in_store st v -> in_store st' v.
Proof. intros Hle. destruct v; cbn [in_store]; trivial. lia. Qed.

(** What a tame store keeps of a value. *)
Lemma own_properties_tame (st : L.state) (obj : value) :
  tame st ->
  exists props,
    L.own_properties (L.heap_of st) obj = Some props
    /\ assoc "hasOwnProperty" props = None
    /\ forall k v, In (k, v) props -> in_store st v.
Proof.
  intros Ht. destruct obj as [| | | |s|l]; cbn [L.own_properties];
    try (exists []; repeat split; intros k v []).
  - exists (L.own_of_list (L.chars s)). split; [reflexivity|].
    split; [apply no_method_in_list|]. intros k v Hin.
    unfold L.own_of_list in Hin. apply in_app_or in Hin. destruct Hin as [Hin|[[= _ <-]|[]]].
    + unfold indexed in Hin. apply in_combine_r in Hin. unfold L.chars in Hin.
      apply in_map_iff in Hin. now destruct Hin as (c & <- & _).
    + exact I.
  - specialize (Ht l). destruct (L.heap_of st l); try contradiction.
    + exists props. split; [reflexivity|]. destruct Ht as (H1 & _ & H3). now split.
    + exists (L.own_of_list elems). split; [reflexivity|].
      split; [apply no_method_in_list|]. intros k v Hin.
      unfold L.own_of_list in Hin. apply in_app_or in Hin.
      destruct Hin as [Hin|[[= _ <-]|[]]]; [|exact I].
      unfold indexed in Hin. apply in_combine_r in Hin. now apply Ht.
    + exists []. repeat split. intros k v [].
Qed.

Lemma own_properties_extends (st st' : L.state) (obj : value) :
  extends st st' -> in_store st obj ->
  L.own_properties (L.heap_of st') obj = L.own_properties (L.heap_of st) obj.
Proof.
  intros [_ Hf] Hin. destruct obj as [| | | |s|l]; try reflexivity.
  cbn [L.own_properties]. now rewrite (Hf l Hin).
Qed.

Lemma lookup_extends (st st' : L.state) (names : list string) :
  tame st -> extends st st' ->
  forall obj, in_store st obj ->
              lookup (L.heap_of st') obj names = lookup (L.heap_of st) obj names.
Proof.
  intros Ht He. induction names as [|name rest IH]; intros obj Hin; [reflexivity|].
  cbn [lookup]. rewrite (own_properties_extends st st' obj He Hin).
  destruct (own_properties_tame st obj Ht) as (props & -> & _ & Hvals).
  destruct (assoc name props) as [v|] eqn:Hv; [|reflexivity].
  rewrite IH; [reflexivity|]. apply (Hvals name). now apply assoc_Some_In.
Qed.

(** A tame store stays tame when an object of values of the store is added
    or put in the place of another. *)
Lemma tame_after (st st' : L.state) (l : loc) :
  tame st -> L.next st <= L.next st' ->
  (forall k, k <> l -> L.heap_of st' k = L.heap_of st k) ->
  match L.heap_of st' l with
  | OPlain props =>
      assoc "hasOwnProperty" props = None
      /\ assoc "__proto__" props = None
      /\ forall k v, In (k, v) props -> in_store st' v
  | OArray elems => forall v, In v elems -> in_store st' v
  | ODate _ => True
  | _ => False
  end ->
  tame st'.
Proof.
  intros Ht Hle Hf Hl k. destruct (Nat.eq_dec k l) as [->|Hk]; [exact Hl|].
  rewrite (Hf k Hk). specialize (Ht k). destruct (L.heap_of st k); try exact Ht.
  - destruct Ht as (H1 & H2 & H3). repeat split; try assumption.
    intros key v Hin. apply (in_store_le st); [exact Hle|]. now apply (H3 key).
  - intros v Hin. apply (in_store_le st); [exact Hle|]. now apply Ht.
Qed.

Lemma in_store_strings (st : L.state) (names : list string) (v : value) :
  In v (map VString names) -> in_store st v.
Proof. intros Hin. apply in_map_iff in Hin. now destruct Hin as (s & <- & _). Qed.

Lemma call_hasOwnProperty_tame (h : heap) (obj : value) (name : string)
      (props : list (string * value)) (st : L.state) :
  obj <> VUndefined -> obj <> VNull ->
  L.own_properties h obj = Some props ->
  assoc "hasOwnProperty" props = None ->
  L.call_hasOwnProperty h obj name st
  = Some (L.Ok (match assoc name props with Some _ => true | None => false end), st).
Proof.
  intros Hu Hn Hprops Hno. unfold L.call_hasOwnProperty, L.HasOwnProperty.
  destruct obj; try congruence; now rewrite Hprops, Hno.
Qed.

(** [get] follows the own properties. *)
Lemma get_lookup (names : list string) :
  forall (fuel : nat) (obj path : value) (st : L.state),
    tame st -> in_store st obj ->
    L.shape_of (L.heap_of st) path = Some (L.IsArray (map VString names)) ->
    length names < fuel ->
    exists st',
      L.get fuel obj path st
      = Some (outcome_of (lookup (L.heap_of st) obj names), st')
      /\ extends st st' /\ tame st'.
Proof.
  induction names as [|name rest IH]; intros fuel obj path st Ht Hin Hsh Hfuel;
    (destruct fuel as [|fuel]; [cbn in Hfuel; lia|]);
    destruct (shape_array _ _ _ Hsh) as (lp & -> & Hh & Hlen);
    cbn [L.get]; unfold L.as_path, L.bind at 1 2, L.store_now at 1;
    rewrite isArray_Array, Hh; unfold L.ret at 1;
    unfold L.bind at 1; rewrite (empty_on_list st (VObject lp) _ Hsh);
    cbn [L.items map L.cond L.ToBoolean].
  - exists st. split; [reflexivity|]. split; [apply extends_refl|exact Ht].
  - destruct (list_parts st (VObject lp) _ Hsh) as [_ Hfull].
    destruct (Hfull ltac:(discriminate)) as (Hhead & _ & Htail & _).
    cbn [L.items map hd tl] in Hhead, Htail.
    unfold L.bind at 1. rewrite Hhead. unfold L.bind at 1. rewrite Htail.
    destruct (new_array_spec (map VString rest) st) as (st2 & -> & Hn2 & Hx2 & Hf2).
    assert (He2 : extends st st2) by (split; [lia|intros k Hk; apply Hf2; lia]).
    assert (Ht2 : tame st2).
    { apply (tame_after st st2 (L.next st) Ht); [lia|exact Hf2|].
      rewrite Hx2. intros v Hv. now apply (in_store_strings st2 rest). }
    unfold L.bind at 1, L.store_now at 1. cbn [L.property_name].
    destruct (own_properties_tame st obj Ht) as (props & Hprops & Hno & Hvals).
    assert (Hprops2 : L.own_properties (L.heap_of st2) obj = Some props).
    { now rewrite (own_properties_extends st st2 obj He2 Hin). }
    assert (Hobj : obj = VUndefined \/ obj = VNull
                   \/ (obj <> VUndefined /\ obj <> VNull)).
    { destruct obj; auto; right; right; split; discriminate. }
    destruct Hobj as [->|[->|[Hu Hn]]].
    + exists st2. split; [reflexivity|]. split; assumption.
    + exists st2. split; [reflexivity|]. split; assumption.
    + unfold L.bind at 1.
      rewrite (call_hasOwnProperty_tame _ obj name props st2 Hu Hn Hprops2 Hno).
      unfold L.own_value. rewrite Hprops2.
      assert (Hlook : lookup (L.heap_of st) obj (name :: rest)
                      = match assoc name props with
                        | Some v => lookup (L.heap_of st) v rest
                        | None => Return VUndefined
                        end).
      { cbn [lookup]. rewrite Hprops. destruct obj; congruence. }
      rewrite Hlook. destruct (assoc name props) as [v|] eqn:Hv.
      * assert (Hinv : in_store st v) by (apply (Hvals name); now apply assoc_Some_In).
        destruct (IH fuel v (VObject (L.next st)) st2 Ht2) as (st' & Hget & He' & Ht').
        -- now apply (in_store_le st); [lia|].
        -- apply array_shape; [exact Hx2|]. rewrite length_map in *. cbn [length] in Hlen. lia.
        -- cbn [length] in Hfuel. lia.
        -- exists st'. rewrite Hget, (lookup_extends st st2 rest Ht He2 v Hinv).
           split; [reflexivity|]. split; [exact (extends_trans _ _ _ He2 He')|exact Ht'].
      * exists st2. split; [reflexivity|]. split; assumption.
Qed.

(** A path that is a String is the path of that one name. *)
Lemma get_lookup_name (fuel : nat) (obj : value) (name : string) (st : L.state) :
  tame st -> in_store st obj -> 1 < fuel ->
  exists st',
    L.get fuel obj (VString name) st
    = Some (outcome_of (lookup (L.heap_of st) obj [name]), st')
    /\ extends st st' /\ tame st'.
Proof.
  intros Ht Hin Hfuel. destruct fuel as [|fuel]; [lia|].
  destruct (new_array_spec [VString name] st) as (st1 & Hnew & Hn1 & Hx1 & Hf1).
  assert (He1 : extends st st1) by (split; [lia|intros k Hk; apply Hf1; lia]).
  assert (Ht1 : tame st1).
  { apply (tame_after st st1 (L.next st) Ht); [lia|exact Hf1|].
    rewrite Hx1. intros v [<-|[]]. exact I. }
  destruct (get_lookup [name] (S fuel) obj (VObject (L.next st)) st1 Ht1)
    as (st' & Hget & He' & Ht').
  - now apply (in_store_le st); [lia|].
  - now apply array_shape.
  - cbn [length]. lia.
  - exists st'. split; [|split; [exact (extends_trans _ _ _ He1 He')|exact Ht']].
    rewrite <- (lookup_extends st st1 [name] Ht He1 obj Hin), <- Hget.
    cbn [L.get]. unfold L.as_path.
    set (body := fun path : value => L.bind (L.empty path) _).
    unfold L.bind, L.store_now. rewrite !isArray_Array, Hnew, Hx1. reflexivity.
Qed.

(** X26.  In a tame store (plain objects without own properties named
    [hasOwnProperty] or [__proto__], arrays and dates, all of whose values
    are values of the store), [get(obj, path)] returns what
    following the own properties named by the path leads to: [obj] for the
    empty path, [undefined] as soon as a property is missing, a TypeError
    when the path goes on from [null] or [undefined].  A path that is a
    String counts as the path of that one name.  No object of the store is
    changed. *)
Theorem get_follows_own_properties (fuel : nat) (obj path : value) (st : L.state) :
  tame st -> in_store st obj ->
  (forall names,
      L.shape_of (L.heap_of st) path = Some (L.IsArray (map VString names)) ->
      length names < fuel ->
      exists st',
        L.get fuel obj path st = Some (outcome_of (lookup (L.heap_of st) obj names), st')
        /\ extends st st')
  /\ (forall name,
         path = VString name -> 1 < fuel ->
         exists st',
           L.get fuel obj path st
           = Some (outcome_of (lookup (L.heap_of st) obj [name]), st')
           /\ extends st st').
Proof.
  intros Ht Hin. split.
  - intros names Hsh Hfuel.
    destruct (get_lookup names fuel obj path st Ht Hin Hsh Hfuel)
      as (st' & Hget & He & _).
    now exists st'.
  - intros name -> Hfuel.
    destruct (get_lookup_name fuel obj name st Ht Hin Hfuel) as (st' & Hget & He & _).
    now exists st'.
Qed.

Lemma ex_objects_tame : tame (L.State ex_objects 4).
Proof.
  intros l. destruct l as [|[|[|[|l]]]]; cbn.
  - repeat split. intros k v [[= <- <-]|[[= <- <-]|[]]]; cbn; lia.
  - repeat split. intros k v [[= <- <-]|[]]. exact I.
  - intros v [<-|[<-|[]]]; exact I.
  - intros v [<-|[<-|[<-|[]]]]; exact I.
  - destruct l; repeat split; intros k v [].
Qed.

Lemma get_follows_own_properties_witness :
  (exists st',
      L.get 3 (VObject 0) (VObject 2) (L.State ex_objects 4) = Some (L.Ok (num 2), st'))
  /\ (exists st',
         L.get 4 (VObject 0) (VObject 3) (L.State ex_objects 4)
         = Some (L.Ok VUndefined, st')).
Proof.
  destruct (get_follows_own_properties 3 (VObject 0) (VObject 2) (L.State ex_objects 4)
              ex_objects_tame) as [H1 _]; [cbn; lia|].
  destruct (get_follows_own_properties 4 (VObject 0) (VObject 3) (L.State ex_objects 4)
              ex_objects_tame) as [H2 _]; [cbn; lia|].
  split.
  - destruct (H1 ["b"; "c"]%string eq_refl) as (st' & Hg & _); [cbn; lia|].
    exists st'. exact Hg.
  - destruct (H2 ["b"; "x"; "y"]%string eq_refl) as (st' & Hg & _); [cbn; lia|].
    exists st'. exact Hg.
Defined.

(** ** Objects: [set] *)

Lemma assoc_update_same (name : string) (v : value) (props : list (string * value)) :
  assoc name (L.update name v props) = Some v.
Proof.
  induction props as [|[k w] props IH]; cbn [L.update assoc].
  - now rewrite String.eqb_refl.
  - destruct (String.eqb k name) eqn:Hk; cbn [assoc]; rewrite Hk; [reflexivity|exact IH].
Qed.

Lemma assoc_update_other (key name : string) (v : value)
      (props : list (string * value)) :
  key <> name -> assoc key (L.update name v props) = assoc key props.
Proof.
  intros Hne. induction props as [|[k w] props IH]; cbn [L.update assoc].
  - destruct (String.eqb_spec name key); [congruence|reflexivity].
  - destruct (String.eqb_spec k name) as [->|Hk]; cbn [assoc].
    + destruct (String.eqb_spec name key); [congruence|reflexivity].
    + now rewrite IH.
Qed.

Lemma In_update (key name : string) (w v : value) (props : list (string * value)) :
  In (key, w) (L.update name v props) -> (key, w) = (name, v) \/ In (key, w) props.
Proof.
  induction props as [|[k u] props IH]; cbn [L.update].
  - intros [H|[]]. left. now symmetry.
  - destruct (String.eqb_spec k name) as [->|Hk].
    + intros [H|H]; [left; now symmetry|right; now right].
    + intros [H|H]; [right; now left|].
      destruct (IH H) as [Heq|Hin]; [now left|right; now right].
Qed.

Lemma no_proto_key (props : list (string * value)) :
  assoc "__proto__" props = None ->
  existsb (fun kv => fst kv =? "__proto__")%string props = false.
Proof.
  induction props as [|[k w] props IH]; [reflexivity|]. cbn [assoc existsb fst].
  destruct (String.eqb k "__proto__"); [discriminate|exact IH].
Qed.

Lemma new_object_spec (props : list (string * value)) (st : L.state) :
  exists st',
    L.new_object props st = Some (L.Ok (VObject (L.next st)), st')
    /\ L.next st' = S (L.next st)
    /\ L.heap_of st' (L.next st) = OPlain props
    /\ forall l, l <> L.next st -> L.heap_of st' l = L.heap_of st l.
Proof.
  eexists. split; [reflexivity|]. cbn. rewrite Nat.eqb_refl.
  repeat split. intros l Hl. now destruct (Nat.eqb_spec l (L.next st)).
Qed.

Lemma shallowClone_plain (st : L.state) (l : loc) (props : list (string * value)) :
  L.heap_of st l = OPlain props -> assoc "__proto__" props = None ->
  L.shallowClone (VObject l) st = L.new_object props st.
Proof.
  intros Hh Hno. unfold L.shallowClone, L.bind, L.store_now.
  rewrite isArray_Array, Hh. cbn [L.enumerable]. rewrite Hh. cbn [own_props].
  now rewrite (no_proto_key props Hno).
Qed.

Lemma isObject_Object (h : heap) (v : value) :
  L.isObject h v
  = match v with
    | VObject l =>
        match h l with OArray _ | OFunction _ _ => false | _ => true end
    | _ => false
    end.
Proof.
  unfold L.isObject, L.isArray, L.isFunction, L.isString.
  destruct v as [| | | | |l]; try reflexivity.
  cbn [class_of]. destruct (h l); reflexivity.
Qed.

(** What [set] clones below the property it writes: the properties of an
    object, nothing for what is not one. *)
Lemma clone_of_child (st : L.state) (child : value) :
  tame st -> in_store st child ->
  exists props,
    (if L.isObject (L.heap_of st) child
     then L.shallowClone child else L.new_object []) st
    = L.new_object props st
    /\ assoc "hasOwnProperty" props = None
    /\ assoc "__proto__" props = None
    /\ forall k v, In (k, v) props -> in_store st v.
Proof.
  intros Ht Hin.
  assert (Hempty : exists props : list (string * value),
             L.new_object [] st = L.new_object props st
             /\ assoc "hasOwnProperty" props = None
             /\ assoc "__proto__" props = None
             /\ forall k v, In (k, v) props -> in_store st v).
  { exists []. repeat split. intros k v []. }
  rewrite isObject_Object.
  destruct child as [| | | | |l]; try exact Hempty.
  pose proof (Ht l) as Hl.
  destruct (L.heap_of st l) eqn:Hh; try contradiction.
  - destruct Hl as (H1 & H2 & H3). exists props.
    split; [exact (shallowClone_plain st l props Hh H2)|now repeat split].
  - exact Hempty.
  - exists []. split; [|repeat split; intros k v []].
    unfold L.shallowClone, L.bind, L.store_now. rewrite isArray_Array, Hh.
    cbn [L.enumerable]. now rewrite Hh.
Qed.

Lemma inherited_names_reserved (name : string) :
  L.inherited name = false ->
  name <> "hasOwnProperty"%string /\ name <> "__proto__"%string.
Proof. intros H. split; intros ->; discriminate H. Qed.

(** [set] builds new objects along the path. *)
Lemma set_lookup (val : value) (names : list string) :
  forall (fuel : nat) (l lp : loc) (props : list (string * value)) (st : L.state),
    tame st -> in_store st val ->
    l < L.next st -> L.heap_of st l = OPlain props ->
    lp < L.next st -> L.heap_of st lp = OArray (map VString names) ->
    (Z.of_nat (length names) < 2 ^ 32)%Z ->
    (forall n, In n names -> L.inherited n = false) ->
    length names < fuel ->
    exists v st',
      L.set fuel (VObject l) (VObject lp) val st = Some (L.Ok v, st')
      /\ extends st st' /\ tame st' /\ in_store st' v
      /\ (forall h, (forall k, L.next st <= k < L.next st' -> h k = L.heap_of st' k) ->
                    lookup h v names = Return val)
      /\ match names with
         | [] => v = val
         | name :: _ =>
             exists lv child,
               v = VObject lv /\ L.next st <= lv < L.next st'
               /\ L.heap_of st' lv = OPlain (L.update name child props)
         end.
Proof.
  induction names as [|name rest IH];
    intros fuel l lp props st Ht Hval Hl Hh Hlp Hhp Hlen Hnames Hfuel;
    (destruct fuel as [|fuel]; [cbn in Hfuel; lia|]);
    pose proof (array_shape _ _ _ Hhp ltac:(now rewrite length_map)) as Hsh;
    cbn [L.set]; unfold L.as_path, L.bind at 1 2, L.store_now at 1;
    rewrite isArray_Array, Hhp; unfold L.ret at 1;
    unfold L.bind at 1; rewrite (empty_on_list st (VObject lp) _ Hsh);
    cbn [L.items map L.cond L.ToBoolean].
  - exists val, st. split; [reflexivity|]. split; [apply extends_refl|].
    split; [exact Ht|]. split; [exact Hval|]. split; reflexivity.
  - pose proof (Ht l) as Htl. rewrite Hh in Htl. destruct Htl as (Hno1 & Hno2 & Hvals).
    destruct (inherited_names_reserved name (Hnames name (or_introl eq_refl)))
      as [Hname1 Hname2].
    (* the clone of [obj] *)
    unfold L.bind at 1. rewrite (shallowClone_plain st l props Hh Hno2).
    destruct (new_object_spec props st) as (st1 & -> & Hn1 & Hx1 & Hf1).
    assert (He1 : extends st st1) by (split; [lia|intros k Hk; apply Hf1; lia]).
    assert (Ht1 : tame st1).
    { apply (tame_after st st1 (L.next st) Ht); [lia|exact Hf1|].
      rewrite Hx1. repeat split; try assumption.
      intros k v Hin. apply (in_store_le st); [lia|]. now apply (Hvals k). }
    (* the head and the tail of the path *)
    assert (Hsh1 : L.shape_of (L.heap_of st1) (VObject lp)
                   = Some (L.IsArray (map VString (name :: rest)))).
    { now apply (shape_of_extends st st1 _ _ He1). }
    destruct (list_parts st1 (VObject lp) _ Hsh1) as [_ Hfull].
    destruct (Hfull ltac:(discriminate)) as (Hhead & _ & Htail & _).
    cbn [L.items map hd tl] in Hhead, Htail.
    unfold L.bind at 1. rewrite Hhead. unfold L.bind at 1. rewrite Htail.
    destruct (new_array_spec (map VString rest) st1) as (st2 & -> & Hn2 & Hx2 & Hf2).
    assert (He2 : extends st1 st2) by (split; [lia|intros k Hk; apply Hf2; lia]).
    assert (Ht2 : tame st2).
    { apply (tame_after st1 st2 (L.next st1) Ht1); [lia|exact Hf2|].
      rewrite Hx2. intros v Hv. now apply (in_store_strings st2 rest). }
    cbn [L.property_name]. unfold L.bind at 1, L.store_now at 1.
    (* obj[p] *)
    assert (Hh2 : L.heap_of st2 l = OPlain props).
    { rewrite Hf2, Hf1 by lia. exact Hh. }
    pose (child := match assoc name props with Some c => c | None => VUndefined end).
    assert (Hread : L.read (L.heap_of st2) (VObject l) name st2 = Some (L.Ok child, st2)).
    { unfold L.read, child. cbn [L.own_properties]. rewrite Hh2.
      destruct (assoc name props); [reflexivity|].
      now rewrite (Hnames name (or_introl eq_refl)). }
    assert (Hchild : in_store st2 child).
    { unfold child. destruct (assoc name props) as [c|] eqn:Hc; [|exact I].
      apply (in_store_le st); [lia|]. apply (Hvals name). now apply assoc_Some_In. }
    unfold L.bind at 1. rewrite Hread.
    (* the object below *)
    destruct (clone_of_child st2 child Ht2 Hchild) as (cprops & Hclone & Hc1 & Hc2 & Hcv).
    assert (Hif : forall (b : bool) (a a' : L.M value) (k : value -> L.M value) s,
               (if b then L.bind a k else L.bind a' k) s
               = L.bind (if b then a else a') k s) by (now intros []).
    unfold L.bind at 1. rewrite Hif. unfold L.bind at 1. rewrite Hclone.
    destruct (new_object_spec cprops st2) as (st3 & -> & Hn3 & Hx3 & Hf3).
    assert (He3 : extends st2 st3) by (split; [lia|intros k Hk; apply Hf3; lia]).
    assert (Ht3 : tame st3).
    { apply (tame_after st2 st3 (L.next st2) Ht2); [lia|exact Hf3|].
      rewrite Hx3. repeat split; try assumption.
      intros k v Hin. apply (in_store_le st2); [lia|]. now apply (Hcv k). }
    destruct (IH fuel (L.next st2) (L.next st1) cprops st3 Ht3)
      as (v' & st4 & -> & He4 & Ht4 & Hv' & Hlook & _).
    { apply (in_store_le st); [lia|exact Hval]. }
    { lia. }
    { exact Hx3. }
    { lia. }
    { rewrite Hf3 by lia. exact Hx2. }
    { cbn [length] in Hlen. lia. }
    { intros n Hn. apply Hnames. now right. }
    { cbn [length] in Hfuel. lia. }
    (* newobj[p] = ... *)
    destruct He4 as [Hle4 Hf4].
    assert (Hh4 : L.heap_of st4 (L.next st) = OPlain props).
    { rewrite Hf4, Hf3, Hf2 by lia. exact Hx1. }
    unfold L.bind, L.put. rewrite Hh4.
    destruct (String.eqb_spec name "__proto__") as [He|_]; [contradiction|].
    unfold L.ret.
    exists (VObject (L.next st)),
           (L.write (L.next st) (OPlain (L.update name v' props)) st4).
    split; [reflexivity|].
    remember (L.write (L.next st) (OPlain (L.update name v' props)) st4) as st5 eqn:Hst5.
    assert (Hn5 : L.next st5 = L.next st4) by (now rewrite Hst5).
    assert (Hx5 : L.heap_of st5 (L.next st) = OPlain (L.update name v' props)).
    { rewrite Hst5. cbn. now rewrite Nat.eqb_refl. }
    assert (Hf5 : forall k, k <> L.next st -> L.heap_of st5 k = L.heap_of st4 k).
    { intros k Hk. rewrite Hst5. cbn. now destruct (Nat.eqb_spec k (L.next st)). }
    clear Hst5. split; [|split; [|split; [|split]]].
    + split; [lia|]. intros k Hk.
      rewrite Hf5, Hf4, Hf3, Hf2, Hf1 by lia. reflexivity.
    + apply (tame_after st4 st5 (L.next st) Ht4); [lia|exact Hf5|].
      rewrite Hx5, !assoc_update_other by congruence.
      repeat split; try assumption.
      intros k v Hin. apply In_update in Hin. destruct Hin as [[= -> ->]|Hin].
      * apply (in_store_le st4); [lia|exact Hv'].
      * apply (in_store_le st); [lia|]. now apply (Hvals k).
    + cbn [in_store]. lia.
    + intros h Hagree. cbn [lookup L.own_properties].
      rewrite (Hagree (L.next st)), Hx5 by lia.
      rewrite assoc_update_same. apply Hlook. intros k Hk.
      rewrite (Hagree k) by lia. apply Hf5. lia.
    + exists (L.next st), v'. split; [reflexivity|]. split; [lia|exact Hx5].
Qed.

(** X27.  In a tame store, for a plain object and a path of names that no
    object inherits (so neither [hasOwnProperty] nor [__proto__]),
    [set(obj, path, val)] changes no object of the store, [obj] included:
    it returns a new object (or [val] itself for the empty path) from which
    [get] with the same path returns [val], and whose other own properties
    are those of [obj]. *)
Theorem set_then_get (fuel : nat) (l : loc) (props : list (string * value))
        (path val : value) (names : list string) (st : L.state) :
  tame st -> in_store st val -> in_store st path ->
  l < L.next st -> L.heap_of st l = OPlain props ->
  L.shape_of (L.heap_of st) path = Some (L.IsArray (map VString names)) ->
  (forall n, In n names -> L.inherited n = false) ->
  length names < fuel ->
  exists v st' st'',
    L.set fuel (VObject l) path val st = Some (L.Ok v, st')
    /\ extends st st'
    /\ L.get fuel v path st' = Some (L.Ok val, st'')
    /\ extends st' st''
    /\ (forall name rest other,
           names = name :: rest -> other <> name ->
           lookup (L.heap_of st') v [other] = lookup (L.heap_of st) (VObject l) [other]).
Proof.
  intros Ht Hval Hpath Hl Hh Hsh Hnames Hfuel.
  destruct (shape_array _ _ _ Hsh) as (lp & -> & Hhp & Hlen). cbn [in_store] in Hpath.
  rewrite length_map in Hlen.
  destruct (set_lookup val names fuel l lp props st Ht Hval Hl Hh Hpath Hhp Hlen
                       Hnames Hfuel)
    as (v & st' & Hset & He & Ht' & Hv & Hlook & Hform).
  destruct (get_lookup names fuel v (VObject lp) st' Ht' Hv) as (st'' & Hget & He' & _).
  - apply (shape_of_extends st st' _ _ He); [exact Hpath|exact Hsh].
  - exact Hfuel.
  - exists v, st', st''. split; [exact Hset|]. split; [exact He|].
    split; [|split; [exact He'|]].
    + rewrite Hget, (Hlook (L.heap_of st')); [reflexivity|]. intros k _. reflexivity.
    + intros name rest other -> Hother.
      destruct Hform as (lv & child & -> & _ & Hlv).
      cbn [lookup L.own_properties]. rewrite Hlv, Hh.
      now rewrite assoc_update_other.
Qed.

Lemma set_then_get_witness :
  exists v st' st'',
    L.set 3 (VObject 0) (VObject 2) (num 5) (L.State ex_objects 4) = Some (L.Ok v, st')
    /\ extends (L.State ex_objects 4) st'
    /\ L.get 3 v (VObject 2) st' = Some (L.Ok (num 5), st'').
Proof.
  destruct (set_then_get 3 0 [("a", num 1); ("b", VObject 1)]%string (VObject 2) (num 5)
              ["b"; "c"]%string (L.State ex_objects 4) ex_objects_tame)
    as (v & st' & st'' & Hset & He & Hget & _);
    try reflexivity; try (cbn; lia).
  - intros n [<-|[<-|[]]]; reflexivity.
  - exists v, st', st''. repeat split; try assumption; apply He.
Defined.

(** ** Objects: [shallowClone] and [deepClone] *)

Lemma clone_each_primitives (installed : bool) (fuel : nat)
      (props : list (string * value)) (st : L.state) :
  (forall k v, In (k, v) props -> forall l, v <> VObject l) ->
  L.clone_each (L.deepClone installed (S fuel)) props st = Some (L.Ok props, st).
Proof.
  induction props as [|[k v] props IH]; intros Hprim; [reflexivity|].
  cbn [L.clone_each]. unfold L.bind at 1.
  assert (Hv : L.deepClone installed (S fuel) v st = Some (L.Ok v, st)).
  { cbn [L.deepClone]. unfold L.bind, L.store_now.
    rewrite isArray_Array, isObject_Object.
    destruct v; try reflexivity. now destruct (Hprim k (VObject l) (or_introl eq_refl) l). }
  rewrite Hv. unfold L.bind. rewrite IH; [reflexivity|].
  intros k' v' Hin. apply (Hprim k'). now right.
Qed.

(** X28.  [shallowClone] of an Array is a new array of the same elements and
    of a plain object a new object with the same properties (the values are
    shared, not copied); of a Date it is an empty object.  [deepClone] of a
    value that is not an object is the value itself, of a plain object whose
    values are primitive a new object with the same properties, of a Date an
    empty object; on an Array it raises a ReferenceError until
    [L.install()] has been called, since it calls [map] without the [L.]. *)
Theorem clone_results (installed : bool) (fuel : nat) (st : L.state) (obj : value) :
  (forall elems,
      L.shape_of (L.heap_of st) obj = Some (L.IsArray elems) ->
      L.shallowClone obj st = L.new_array elems st
      /\ L.deepClone false (S fuel) obj st
         = Some (L.Raise (L.Native (ReferenceError "map is not defined")), st))
  /\ (forall l props,
         obj = VObject l -> L.heap_of st l = OPlain props ->
         assoc "__proto__" props = None ->
         L.shallowClone obj st = L.new_object props st
         /\ ((forall k v, In (k, v) props -> forall l', v <> VObject l') ->
             L.deepClone installed (S (S fuel)) obj st = L.new_object props st))
  /\ (forall l time,
         obj = VObject l -> L.heap_of st l = ODate time ->
         L.shallowClone obj st = L.new_object [] st
         /\ L.deepClone installed (S fuel) obj st = L.new_object [] st)
  /\ (L.isArray (L.heap_of st) obj = false -> L.isObject (L.heap_of st) obj = false ->
      L.deepClone installed (S fuel) obj st = Some (L.Ok obj, st)).
Proof.
  split; [|split; [|split]].
  - intros elems Hsh. destruct (shape_array _ _ _ Hsh) as (l & -> & Hh & Hlen).
    split.
    + unfold L.shallowClone, L.bind, L.store_now. rewrite isArray_Array, Hh.
      unfold L.slice_call, L.with_shape, L.bind, L.store_now. rewrite Hsh.
      cbn [ToNumber L.isUndefined strict_eq L.items relative_index NaN].
      rewrite Nat.sub_0_r. cbn [skipn]. now rewrite firstn_all.
    + cbn [L.deepClone]. unfold L.bind, L.store_now. now rewrite isArray_Array, Hh.
  - intros l props -> Hh Hno. split; [exact (shallowClone_plain st l props Hh Hno)|].
    intros Hprim. cbn [L.deepClone]. unfold L.bind at 1, L.store_now at 1.
    rewrite isArray_Array, isObject_Object, Hh. cbn [L.enumerable]. rewrite Hh.
    cbn [own_props]. rewrite (no_proto_key props Hno).
    unfold L.bind. change (fun obj0 : value => _) with (L.deepClone installed (S fuel)).
    now rewrite (clone_each_primitives installed fuel props st Hprim).
  - intros l time -> Hh. split.
    + unfold L.shallowClone, L.bind, L.store_now. rewrite isArray_Array, Hh.
      cbn [L.enumerable]. now rewrite Hh.
    + cbn [L.deepClone]. unfold L.bind at 1, L.store_now at 1.
      rewrite isArray_Array, isObject_Object, Hh. cbn [L.enumerable]. now rewrite Hh.
  - intros Ha Ho. cbn [L.deepClone]. unfold L.bind, L.store_now. now rewrite Ha, Ho.
Qed.

Lemma clone_results_witness :
  L.deepClone false 1 (VObject 2) (L.State ex_objects 4)
  = Some (L.Raise (L.Native (ReferenceError "map is not defined")), L.State ex_objects 4)
  /\ L.shallowClone (VObject 1) (L.State ex_objects 4)
     = L.new_object [("c", num 2)]%string (L.State ex_objects 4).
Proof.
  split.
  - apply (proj1 (clone_results false 0 (L.State ex_objects 4) (VObject 2))
                 [VString "b"; VString "c"] eq_refl).
  - apply (proj1 (proj1 (proj2 (clone_results false 0 (L.State ex_objects 4) (VObject 1)))
                        1 [("c", num 2)]%string eq_refl eq_refl eq_refl)).
Defined.

(** ** Objects: [values] and [pairs] *)

(** [map] with a callback that may add objects to the store: [P] holds of
    the state all along, [Q] relates each element to its result. *)
Lemma map_loop_rel (f : L.callback) (l : loc) (elems : list value)
      (P : L.state -> Prop) (Q : L.state -> value -> value -> Prop) :
  (forall x i st,
      P st -> In x elems ->
      exists y st', f [x; i; VObject l] st = Some (L.Ok y, st')
                    /\ P st' /\ extends st st' /\ Q st' x y) ->
  (forall st st' x y, extends st st' -> Q st x y -> Q st' x y) ->
  forall n k st,
    k + n = length elems -> P st -> l < L.next st -> L.heap_of st l = OArray elems ->
    exists ys st',
      L.map_loop f (VObject l) (seq k n) st = Some (L.Ok ys, st')
      /\ P st' /\ extends st st' /\ Forall2 (Q st') (skipn k elems) ys.
Proof.
  intros Hstep Hstable. induction n as [|n IH]; intros k st Hk HP Hl Hh.
  - exists [], st. split; [reflexivity|]. split; [exact HP|].
    split; [apply extends_refl|]. rewrite skipn_all2 by lia. constructor.
  - cbn [seq L.map_loop]. unfold L.bind at 1, L.store_now at 1. cbn [L.elements].
    rewrite Hh. destruct (skipn_nth_error elems k) as (x & Hx & Hs); [lia|].
    rewrite Hx, Hs.
    destruct (Hstep x (L.index k) st HP (nth_error_In _ _ Hx))
      as (y & st1 & Hf & HP1 & He1 & HQ1).
    unfold L.bind at 1. rewrite Hf.
    destruct (IH (S k) st1) as (ys & st' & Hloop & HP' & He' & Hall);
      [lia|exact HP1|destruct He1; lia|destruct He1 as [_ H1]; now rewrite H1|].
    exists (y :: ys), st'. unfold L.bind. rewrite Hloop.
    split; [reflexivity|]. split; [exact HP'|].
    split; [exact (extends_trans _ _ _ He1 He')|].
    constructor; [exact (Hstable _ _ _ _ He' HQ1)|exact Hall].
Qed.

Lemma map_with (f : L.callback) (l : loc) (elems : list value)
      (P : L.state -> Prop) (Q : L.state -> value -> value -> Prop) (st : L.state) :
  (forall x i s,
      P s -> In x elems ->
      exists y s', f [x; i; VObject l] s = Some (L.Ok y, s')
                   /\ P s' /\ extends s s' /\ Q s' x y) ->
  (forall s s' x y, extends s s' -> Q s x y -> Q s' x y) ->
  P st -> l < L.next st -> L.heap_of st l = OArray elems ->
  exists v ys st',
    L.map f (VObject l) st = Some (L.Ok v, st')
    /\ extends st st' /\ new_in st st' v ys /\ Forall2 (Q st') elems ys.
Proof.
  intros Hstep Hstable HP Hl Hh.
  destruct (map_loop_rel f l elems P Q Hstep Hstable (length elems) 0 st eq_refl HP Hl Hh)
    as (ys & st1 & Hloop & _ & He1 & Hall).
  destruct (new_array_spec ys st1) as (st2 & Hnew & Hn2 & Hx2 & Hf2).
  assert (He2 : extends st1 st2) by (split; [lia|intros k Hk; apply Hf2; lia]).
  exists (VObject (L.next st1)), ys, st2. split; [|split; [|split]].
  - unfold L.map, L.array_method, L.bind at 1, L.store_now at 1.
    rewrite isArray_Array, Hh. unfold L.array_map, L.bind, L.store_now.
    cbn [L.elements]. now rewrite Hh, Hloop.
  - exact (extends_trans _ _ _ He1 He2).
  - exists (L.next st1). split; [reflexivity|]. destruct He1 as [Hle _].
    split; [lia|exact Hx2].
  - eapply Forall2_impl; [|exact Hall]. intros x y. now apply Hstable.
Qed.

Lemma assoc_NoDup_In (props : list (string * value)) (k : string) (v : value) :
  NoDup (map fst props) -> In (k, v) props -> assoc k props = Some v.
Proof.
  induction props as [|[k' v'] props IH]; intros Hnd Hin; [destruct Hin|].
  cbn [map fst] in Hnd. inversion Hnd as [|? ? Hnotin Hnd']; subst.
  cbn [assoc]. destruct Hin as [[= -> ->]|Hin].
  - now rewrite String.eqb_refl.
  - destruct (String.eqb_spec k' k) as [->|_]; [|now apply IH].
    exfalso. apply Hnotin. apply in_map_iff. now exists (k, v).
Qed.

Lemma results_are_values (value_of : value -> value) (props : list (string * value))
      (ys : list value) :
  (forall kv, In kv props -> value_of (VString (fst kv)) = snd kv) ->
  Forall2 (fun x y => y = value_of x) (map VString (map fst props)) ys ->
  ys = map snd props.
Proof.
  revert ys. induction props as [|kv props IH]; intros ys Hval Hall;
    inversion Hall; subst; [reflexivity|].
  cbn [map]. f_equal; [apply Hval; now left|].
  apply IH; [|assumption]. intros kv' Hkv. apply Hval. now right.
Qed.

Lemma results_are_pairs (value_of : value -> value) (st : L.state)
      (props : list (string * value)) (ys : list value) :
  (forall kv, In kv props -> value_of (VString (fst kv)) = snd kv) ->
  Forall2 (fun x y => exists ly, y = VObject ly /\ ly < L.next st
                                 /\ L.heap_of st ly = OArray [x; value_of x])
          (map VString (map fst props)) ys ->
  exists ls,
    ys = map VObject ls
    /\ Forall2 (fun ly kv => ly < L.next st
                             /\ L.heap_of st ly = OArray [VString (fst kv); snd kv])
               ls props.
Proof.
  revert ys. induction props as [|kv props IH]; intros ys Hval Hall;
    inversion Hall as [|x y xs ys' (ly & -> & Hly & Hc) Hrest]; subst.
  - exists []. split; [reflexivity|constructor].
  - destruct (IH ys') as (ls & -> & Hls); [|assumption|].
    { intros kv' Hkv. apply Hval. now right. }
    exists (ly :: ls). split; [reflexivity|]. constructor; [|exact Hls].
    split; [exact Hly|]. rewrite Hc. now rewrite (Hval kv (or_introl eq_refl)).
Qed.

(** X29.  For a plain object of a tame store whose keys are distinct,
    [values] returns a new
    array of the values of the own properties, in the order of the keys, and
    [pairs] a new array of new arrays [[key, value]]; no object of the store
    is changed.  On a value that is not an object both raise the TypeError
    of [Object.keys]. *)
Theorem values_pairs_results (fuel : nat) (st : L.state) (obj : value) :
  (forall l props,
      obj = VObject l -> l < L.next st -> L.heap_of st l = OPlain props ->
      tame st -> NoDup (map fst props) -> 1 < fuel ->
      (exists v st',
          L.values fuel obj st = Some (L.Ok v, st')
          /\ new_in st st' v (map snd props) /\ extends st st')
      /\ (exists v st' ls,
             L.pairs obj st = Some (L.Ok v, st')
             /\ new_in st st' v (map VObject ls)
             /\ Forall2 (fun ly kv => ly < L.next st'
                                      /\ L.heap_of st' ly
                                         = OArray [VString (fst kv); snd kv])
                        ls props
             /\ extends st st'))
  /\ ((forall l, obj <> VObject l) ->
      L.values fuel obj st
      = Some (L.Raise (L.Native (TypeError "Object.keys called on non-object")), st)
      /\ L.pairs obj st
         = Some (L.Raise (L.Native (TypeError "Object.keys called on non-object")), st)).
Proof.
  split.
  - intros l props -> Hl Hh Ht Hnd Hfuel.
    set (value_of := fun x => match x with
                              | VString name =>
                                  match assoc name props with
                                  | Some v => v
                                  | None => VUndefined
                                  end
                              | _ => VUndefined
                              end).
    assert (Hkeys : L.keys (VObject l) st
                    = L.new_array (map VString (map fst props)) st).
    { unfold L.keys, L.bind, L.store_now. cbn [Object_keys]. now rewrite Hh. }
    destruct (new_array_spec (map VString (map fst props)) st)
      as (st1 & Hnew & Hn1 & Hx1 & Hf1).
    assert (He1 : extends st st1) by (split; [lia|intros k Hk; apply Hf1; lia]).
    assert (Ht1 : tame st1).
    { apply (tame_after st st1 (L.next st) Ht); [lia|exact Hf1|].
      rewrite Hx1. intros v Hv. now apply (in_store_strings st1 (map fst props)). }
    assert (Hname : forall x, In x (map VString (map fst props)) ->
                              exists name v, x = VString name /\ assoc name props = Some v).
    { intros x Hx. apply in_map_iff in Hx. destruct Hx as (name & <- & Hin).
      apply in_map_iff in Hin. destruct Hin as ([k v] & <- & Hin).
      exists k, v. split; [reflexivity|]. now apply assoc_NoDup_In. }
    assert (Hobj : forall s, extends st1 s -> L.heap_of s l = OPlain props).
    { intros s [_ Hs]. rewrite Hs, Hf1 by lia. exact Hh. }
    split.
    + destruct (map_with (L.curried 2 (fun args => L.get fuel (L.arg 0 args) (L.arg 1 args))
                                    [VObject l])
                         (L.next st) (map VString (map fst props))
                         (fun s => tame s /\ extends st1 s)
                         (fun _ x y => y = value_of x) st1)
        as (v & ys & st' & Hmap & He' & Hnew' & Hall).
      * intros x i s [Hts Hes] Hx. destruct (Hname x Hx) as (name & v & -> & Hv).
        change (L.curried 2 (fun args => L.get fuel (L.arg 0 args) (L.arg 1 args))
                          [VObject l] [VString name; i; VObject (L.next st)] s)
          with (L.get fuel (VObject l) (VString name) s).
        destruct (get_lookup_name fuel (VObject l) name s Hts) as (s' & Hget & Hs' & Hts');
          [destruct Hes; cbn [in_store]; lia|exact Hfuel|].
        exists v, s'. split; [|split; [split; [exact Hts'|]|split; [exact Hs'|]]].
        -- rewrite Hget. cbn [lookup L.own_properties]. rewrite (Hobj s Hes), Hv.
           reflexivity.
        -- exact (extends_trans _ _ _ Hes Hs').
        -- cbn. now rewrite Hv.
      * now intros.
      * split; [exact Ht1|apply extends_refl].
      * lia.
      * exact Hx1.
      * exists v, st'. unfold L.values, L.bind. rewrite Hkeys, Hnew, Hmap.
        split; [reflexivity|]. split; [|exact (extends_trans _ _ _ He1 He')].
        destruct Hnew' as (lv & -> & Hlv & Hc). exists lv.
        split; [reflexivity|]. split; [lia|]. rewrite Hc. f_equal.
        apply (results_are_values value_of); [|exact Hall].
        intros [k w] Hkw. cbn [fst snd value_of].
        now rewrite (assoc_NoDup_In props k w Hnd Hkw).
    + destruct (map_with (fun args =>
                            L.bind L.store_now (fun h =>
                              match L.property_name (L.arg 0 args) with
                              | Some name =>
                                  L.bind (L.read h (VObject l) name) (fun v =>
                                    L.new_array [L.arg 0 args; v])
                              | None => L.unmodelled
                              end))
                         (L.next st) (map VString (map fst props))
                         (fun s => extends st1 s)
                         (fun s x y => exists ly, y = VObject ly /\ ly < L.next s
                                                  /\ L.heap_of s ly
                                                     = OArray [x; value_of x]) st1)
        as (v & ys & st' & Hmap & He' & Hnew' & Hall).
      * intros x i s Hes Hx. destruct (Hname x Hx) as (name & v & -> & Hv).
        cbn [L.arg nth L.property_name]. unfold L.bind at 1, L.store_now at 1.
        assert (Hread : L.read (L.heap_of s) (VObject l) name s = Some (L.Ok v, s)).
        { unfold L.read. cbn [L.own_properties]. now rewrite (Hobj s Hes), Hv. }
        unfold L.bind. rewrite Hread.
        destruct (new_array_spec [VString name; v] s) as (s' & -> & Hn' & Hx' & Hf').
        assert (Hs' : extends s s') by (split; [lia|intros k Hk; apply Hf'; lia]).
        exists (VObject (L.next s)), s'. split; [reflexivity|].
        split; [exact (extends_trans _ _ _ Hes Hs')|]. split; [exact Hs'|].
        exists (L.next s). split; [reflexivity|]. split; [lia|].
        rewrite Hx'. cbn [value_of]. now rewrite Hv.
      * intros s s' x y [Hle Hs] (ly & -> & Hly & Hc). exists ly.
        split; [reflexivity|]. split; [lia|]. now rewrite Hs.
      * apply extends_refl.
      * lia.
      * exact Hx1.
      * destruct (results_are_pairs value_of st' props ys) as (ls & -> & Hls);
          [|exact Hall|].
        { intros [k w] Hkw. cbn [fst snd value_of].
          now rewrite (assoc_NoDup_In props k w Hnd Hkw). }
        exists v, st', ls. unfold L.pairs, L.bind at 1. rewrite Hkeys, Hnew.
        split; [exact Hmap|]. split; [|split; [exact Hls|]].
        -- destruct Hnew' as (lv & -> & Hlv & Hc). exists lv.
           split; [reflexivity|]. split; [lia|exact Hc].
        -- exact (extends_trans _ _ _ He1 He').
  - intros Hno. unfold L.values, L.pairs, L.keys, L.bind, L.store_now.
    destruct obj; try (split; reflexivity). now destruct (Hno l).
Qed.

Lemma values_pairs_results_witness :
  exists v st',
    L.values 2 (VObject 0) (L.State ex_objects 4) = Some (L.Ok v, st')
    /\ new_in (L.State ex_objects 4) st' v [num 1; VObject 1].
Proof.
  destruct (proj1 (values_pairs_results 2 (L.State ex_objects 4) (VObject 0))
                  0 [("a", num 1); ("b", VObject 1)]%string eq_refl)
    as [(v & st' & Hv & Hnew & _) _]; try reflexivity; try (cbn; lia).
  - exact ex_objects_tame.
  - repeat constructor; cbn; intuition discriminate.
  - exists v, st'. split; [exact Hv|exact Hnew].
Defined.

(** ** Functions: [compose], [flip], [id], [until] *)

Lemma until_unary (p g : value -> value) (st : L.state) (k : nat) :
  forall (x : value) (fuel : nat),
    (forall j, j < k -> L.ToBoolean (p (Nat.iter j g x)) = false) ->
    L.ToBoolean (p (Nat.iter k g x)) = true ->
    k < fuel ->
    L.until fuel (unary p) (unary g) x st = Some (L.Ok (Nat.iter k g x), st).
Proof.
  induction k as [|k IH]; intros x fuel Hbefore Hat Hfuel;
    (destruct fuel as [|fuel]; [lia|]); cbn [L.until]; unfold L.bind at 1;
    unfold unary at 1, L.ret at 1; cbn [L.arg nth].
  - change (L.ToBoolean (p x) = true) in Hat. now rewrite Hat.
  - pose proof (Hbefore 0 ltac:(lia)) as H0. change (L.ToBoolean (p x) = false) in H0.
    rewrite H0. unfold L.bind, unary at 1, L.ret at 1.
    cbn [L.arg nth]. rewrite (IH (g x) fuel).
    + now rewrite Nat.iter_succ_r.
    + intros j Hj. rewrite <- Nat.iter_succ_r. apply Hbefore. lia.
    + now rewrite <- Nat.iter_succ_r.
    + lia.
Qed.

Lemma until_never (p g : value -> value) (st : L.state) (fuel : nat) :
  forall x,
    (forall j, L.ToBoolean (p (Nat.iter j g x)) = false) ->
    L.until fuel (unary p) (unary g) x st = None.
Proof.
  induction fuel as [|fuel IH]; intros x Hnever; [reflexivity|].
  cbn [L.until]. unfold L.bind at 1, unary at 1, L.ret at 1. cbn [L.arg nth].
  pose proof (Hnever 0) as H0. change (L.ToBoolean (p x) = false) in H0.
  rewrite H0. unfold L.bind, unary at 1, L.ret at 1. cbn [L.arg nth].
  apply IH. intros j. rewrite <- Nat.iter_succ_r. apply Hnever.
Qed.

(** X30.  [compose] is associative and has [id] as unit on the left; on the
    right [compose(a, id)] gives [a] the first argument only.  [flip(f)]
    calls [f] with its first two arguments swapped and drops the others, so
    flipping twice gives [f] on two arguments.  With callbacks that compute
    [p] and [g], [until(p, g, x)] returns the first of [x], [g(x)],
    [g(g(x))], ... on which [p] counts as true, without changing the store,
    and never returns when there is none. *)
Theorem combinators (a b c : L.callback) (p g : value -> value)
        (args : list value) (x y : value) (rest : list value) (st : L.state) :
  L.compose (L.compose a b) c args st = L.compose a (L.compose b c) args st
  /\ L.compose L.id a args st = a args st
  /\ L.compose a L.id args st = a [L.arg 0 args] st
  /\ L.flip a (x :: y :: rest) st = a [y; x] st
  /\ L.flip (L.flip a) (x :: y :: rest) st = a [x; y] st
  /\ (forall k fuel,
         (forall j, j < k -> L.ToBoolean (p (Nat.iter j g x)) = false) ->
         L.ToBoolean (p (Nat.iter k g x)) = true ->
         k < fuel ->
         L.until fuel (unary p) (unary g) x st = Some (L.Ok (Nat.iter k g x), st))
  /\ ((forall j, L.ToBoolean (p (Nat.iter j g x)) = false) ->
      forall fuel, L.until fuel (unary p) (unary g) x st = None).
Proof.
  split; [|split; [|split; [|split; [|split; [|split]]]]].
  - unfold L.compose, L.bind. destruct (c args st) as [[[v|e] st1]|]; reflexivity.
  - unfold L.compose, L.id, L.bind, L.ret. cbn [L.arg nth].
    destruct (a args st) as [[[v|e] st1]|]; reflexivity.
  - reflexivity.
  - unfold L.flip. rewrite curried_saturated; [reflexivity|cbn; lia|cbn; lia].
  - unfold L.flip. rewrite curried_saturated; [|cbn; lia|cbn; lia].
    cbn [app firstn L.arg nth]. rewrite curried_saturated; [reflexivity|cbn; lia|cbn; lia].
  - intros k fuel. apply until_unary.
  - intros Hnever fuel. now apply until_never.
Qed.

Lemma combinators_witness :
  L.until 5 (unary (fun v => VBool (strict_eq v (VString "aaa"))))
          (unary (L.string_plus (VString "a"))) (VString "a") (L.State ex_heap 16)
  = Some (L.Ok (VString "aaa"), L.State ex_heap 16).
Proof.
  apply (proj1 (proj2 (proj2 (proj2 (proj2 (proj2
           (combinators L.id L.id L.id (fun v => VBool (strict_eq v (VString "aaa")))
                        (L.string_plus (VString "a")) [] (VString "a") VUndefined []
                        (L.State ex_heap 16))))))) 2 5).
  - intros j Hj. destruct j as [|[|j]]; [reflexivity|reflexivity|lia].
  - reflexivity.
  - lia.
Defined.
